(** * Backup scheduler: a shallow embedding of the scheduler engine

    The development follows the two source modules
    [backup_scheduler.py] (schedule view, artifact GC, control requests,
    reaping and dispatch of workers) and [node_handler_process.py] (the
    one-shot worker).  Python values are embedded as follows:

    - [str] and [bytes] are [string] (a sequence of 8-bit characters; a
      character is read as the code point of the same number);
    - [int] is [Z]; the float returned by [datetime.timestamp()] is the
      rational it denotes, in [Q];
    - a naive [datetime] is the number of microseconds since the epoch;
    - the insertion-ordered [dict] of running tasks is an association list
      with unique keys, the [deque] of pending tasks is a list whose head is
      the left end;
    - the file system is a finite map from the absolute paths of regular
      files to their contents;
    - an exception is a value of [exn]; a statement that may raise returns
      an [outcome]. *)

From Stdlib Require Import ZArith QArith String Ascii DecimalString.
From stdpp Require Import gmap strings list.

Local Open Scope Z_scope.
Local Open Scope string_scope.

(* ===================================================================== *)
(** * Part I: definitions *)
(* ===================================================================== *)

(** ** Python strings *)

(** [s.split(sep)[0]] for a one-character separator: the part of [s]
    before the first [sep], all of [s] when there is none. *)
Fixpoint split_first (sep : ascii) (s : string) : string :=
  match s with
  | EmptyString => EmptyString
  | String c r => if Ascii.eqb c sep then EmptyString else String c (split_first sep r)
  end.

(** [c in s] for a character [c]. *)
Fixpoint contains (c : ascii) (s : string) : bool :=
  match s with
  | EmptyString => false
  | String d r => Ascii.eqb d c || contains c r
  end.

(** [s[len(p):]] when [s.startswith(p)]. *)
Fixpoint strip_prefix (p s : string) : option string :=
  match p, s with
  | EmptyString, _ => Some s
  | String a p', String b s' => if Ascii.eqb a b then strip_prefix p' s' else None
  | String _ _, EmptyString => None
  end.

(** [str(z)] for an [int]. *)
Definition str_of_int (z : Z) : string := NilZero.string_of_int (Z.to_int z).

(** [int(x)] for a float [x]: truncation towards zero. *)
Definition int_of_float (x : Q) : Z := Z.quot (Qnum x) (Z.pos (Qden x)).

(** Arguments of the [%] operator. *)
Inductive pyval : Type :=
| VStr (s : string)
| VInt (z : Z)
| VFloat (x : Q).

(** [template % args] for the conversions the sources use: [%s] and [%d]
    (and the escape [%%]).  [%d] takes an [int] or a float, which it
    truncates; [%s] takes a [str] or an [int] ([str()] of a float is outside
    the model).  [None] is Python's [TypeError] or [ValueError]: a conversion
    without argument, a [%d] applied to a [str], arguments left over, an
    unknown conversion. *)
Fixpoint py_format (template : string) (args : list pyval) : option string :=
  match template with
  | EmptyString => match args with [] => Some EmptyString | _ :: _ => None end
  | String "%" (String "s" rest) =>
      match args with
      | VStr s :: args' => option_map (String.append s) (py_format rest args')
      | VInt z :: args' => option_map (String.append (str_of_int z)) (py_format rest args')
      | _ => None
      end
  | String "%" (String "d" rest) =>
      match args with
      | VInt z :: args' => option_map (String.append (str_of_int z)) (py_format rest args')
      | VFloat x :: args' =>
          option_map (String.append (str_of_int (int_of_float x))) (py_format rest args')
      | _ => None
      end
  | String "%" (String "%" rest) => option_map (String "%") (py_format rest args)
  | String "%" _ => None
  | String c rest => option_map (String c) (py_format rest args)
  end.

(** ** [base64.b64encode(bytes(text, 'ascii'), b'-_').decode('ascii')] *)

Definition b64_alphabet : string :=
  "ABCDEFGHIJKLMNOPQRSTUVWXYZabcdefghijklmnopqrstuvwxyz0123456789+/".

(** The character of a 6-bit group. *)
Definition b64_digit (i : N) : ascii :=
  match String.get (N.to_nat (i mod 64)) b64_alphabet with
  | Some c => c
  | None => "="%char
  end.

(** [binascii.b2a_base64] without the newline: three bytes give four
    digits, a remainder of one or two bytes is padded with [=]. *)
Fixpoint b2a_base64 (bs : list N) : string :=
  match bs with
  | [] => EmptyString
  | [a] =>
      let n := (a * 65536)%N in
      String (b64_digit (n / 262144)) (String (b64_digit (n / 4096)) "==")
  | [a; b] =>
      let n := (a * 65536 + b * 256)%N in
      String (b64_digit (n / 262144)) (String (b64_digit (n / 4096))
        (String (b64_digit (n / 64)) "="))
  | a :: b :: c :: rest =>
      let n := (a * 65536 + b * 256 + c)%N in
      String (b64_digit (n / 262144)) (String (b64_digit (n / 4096))
        (String (b64_digit (n / 64)) (String (b64_digit n) (b2a_base64 rest))))
  end.

(** [encoded.translate(bytes.maketrans(b'+/', altchars))]. *)
Fixpoint translate (plus slash : ascii) (s : string) : string :=
  match s with
  | EmptyString => EmptyString
  | String c r =>
      String (if Ascii.eqb c "+" then plus else if Ascii.eqb c "/" then slash else c)
             (translate plus slash r)
  end.

(** [bytes(text, 'ascii')]: [None] is [UnicodeEncodeError]. *)
Fixpoint bytes_ascii (text : string) : option (list N) :=
  match text with
  | EmptyString => Some []
  | String c r =>
      if (N_of_ascii c <? 128)%N
      then option_map (cons (N_of_ascii c)) (bytes_ascii r)
      else None
  end.

Definition b64encode (bs : list N) (plus slash : ascii) : string :=
  translate plus slash (b2a_base64 bs).

Definition safe_base64 (text : string) : option string :=
  option_map (fun bs => b64encode bs "-" "_") (bytes_ascii text).

(** ** Dates *)

Definition datetime := Z.

(** [datetime.timedelta], normalised as Python does: [0 <= seconds < 86400]
    and [0 <= microseconds < 1000000], the sign is carried by [days]. *)
Record timedelta := { days : Z; seconds : Z; microseconds : Z }.

Definition MICROS_PER_DAY : Z := 86400 * 1000000.

Definition timedelta_of_micros (d : Z) : timedelta :=
  {| days := d / MICROS_PER_DAY;
     seconds := (d mod MICROS_PER_DAY) / 1000000;
     microseconds := d mod 1000000 |}.

(** [a - b] for two datetimes. *)
Definition datetime_sub (a b : datetime) : timedelta := timedelta_of_micros (a - b).

(** [timedelta.total_seconds()]. *)
Definition total_seconds (d : timedelta) : Q :=
  inject_Z ((days d * 86400 + seconds d) * 1000000 + microseconds d) / inject_Z 1000000.

(** [dt.replace(tzinfo=timezone.utc).timestamp()]. *)
Definition utc_timestamp (dt : datetime) : Q := inject_Z dt / inject_Z 1000000.

(** ** Constants of [backup_scheduler.py] and [node_handler_process.py] *)

Definition SECONDS_TO_MINUTES : Z := 60.
Definition WRITE_FILE_PATH_TEMPLATE : string := "%s/backup_%d_%s_%s".
Definition SECONDS_TO_WAIT_CLIENT : Z := 10.
Definition MAX_FINISHED_TASKS_TO_STORE : nat := 10.

Definition DEFAULT_SOCKET_BUFFER_SIZE : Z := 4096.
Definition CORRECT_FILE_FORMAT : string := "%s.CORRECT".
Definition WIP_FILE_FORMAT : string := "%s.WIP".
Definition SAME_FILE_FORMAT : string := "%s.SAME".

(** ** [ScheduledTask] *)

Record ScheduledTask := {
  node_name : string;
  node_address : string;
  node_port : Z;
  node_path : string;
  frequency : Z;
  last_checksum : string;
  last_backup : option datetime
}.

(** [x > y] on rationals, as a boolean. *)
Definition Qgtb (x y : Q) : bool := negb (Qle_bool x y).

(** [ScheduledTask.should_run], with [now] the value of [datetime.now()].
    A [datetime] is always truthy, so [not self.last_backup] holds exactly
    for [None].  The quotient [seconds / 60] is a true division; its
    operands are below [86400], so comparing the float with the integer
    [frequency] agrees with comparing the exact quotient. *)
Definition should_run (now : datetime) (t : ScheduledTask) : bool :=
  match last_backup t with
  | None => true
  | Some lb =>
      Qgtb (inject_Z (seconds (datetime_sub now lb)) / inject_Z SECONDS_TO_MINUTES)
           (inject_Z (frequency t))
  end.

(** The reading of the specification: the time elapsed since the last
    backup, in minutes, compared with the frequency. *)
Definition elapsed_minutes (now lb : datetime) : Q :=
  total_seconds (datetime_sub now lb) / inject_Z 60.

Definition spec_should_run (now : datetime) (t : ScheduledTask) : bool :=
  match last_backup t with
  | None => true
  | Some lb => Qgtb (elapsed_minutes now lb) (inject_Z (frequency t))
  end.

(** ** Python objects, exceptions *)

#[local] Set Warnings "-register-all".

(** The values that travel on the control channel. *)
Inductive pyobj : Type :=
| PNone
| PBool (b : bool)
| PInt (z : Z)
| PStr (s : string)
| PTuple (items : list pyobj)
| PDict (items : list (string * pyobj)).

Inductive exn : Type :=
| IndexError (msg : string)
| KeyError (msg : string)
| ValueError (msg : string)
| TypeError (msg : string)
| AttributeError (msg : string)
| UnicodeError (msg : string)
| OSError (msg : string)
| CommandError (msg : string).

(** [str(e)]. *)
Definition str_exn (e : exn) : string :=
  match e with
  | IndexError m | KeyError m | ValueError m | TypeError m
  | AttributeError m | UnicodeError m | OSError m | CommandError m => m
  end.

(** [isinstance(e, OSError)]. *)
Definition is_OSError (e : exn) : bool :=
  match e with OSError _ => true | _ => false end.

Inductive outcome (A : Type) : Type :=
| Return (a : A)
| Raise (e : exn).
Arguments Return {A} a.
Arguments Raise {A} e.

(** [command, args = request]. *)
Definition unpack2 (request : pyobj) : outcome (pyobj * pyobj) :=
  let unpack (items : list pyobj) :=
    match items with
    | [a; b] => Return (a, b)
    | [] | [_] =>
        Raise (ValueError ("not enough values to unpack (expected 2, got "
                           ++ str_of_int (Z.of_nat (length items)) ++ ")"))
    | _ => Raise (ValueError "too many values to unpack (expected 2)")
    end in
  match request with
  | PTuple items => unpack items
  | PDict items => unpack (map (fun kv => PStr (fst kv)) items)
  | PStr s => unpack (map (fun c => PStr (String c EmptyString)) (list_ascii_of_string s))
  | PNone | PBool _ | PInt _ => Raise (TypeError "cannot unpack non-iterable object")
  end.

(** ** Bytes received from a socket *)

Definition is_space (c : ascii) : bool :=
  let n := N_of_ascii c in ((9 <=? n) && (n <=? 13) || (n =? 32))%N.

(** [s.lstrip()] and [s.rstrip()]. *)
Fixpoint lstrip (s : string) : string :=
  match s with
  | EmptyString => EmptyString
  | String c r => if is_space c then lstrip r else s
  end.

Fixpoint rstrip (s : string) : string :=
  match s with
  | EmptyString => EmptyString
  | String c r =>
      match rstrip r with
      | EmptyString => if is_space c then EmptyString else String c EmptyString
      | r' => String c r'
      end
  end.

(** [int(b)] for a byte string: optional white space around an optional
    sign and decimal digits.  ([int] also accepts [_] between digits, which
    is not modelled.)  [None] is [ValueError]. *)
Definition py_int (b : string) : option Z :=
  match rstrip (lstrip b) with
  | String "+" r => option_map (fun u => Z.of_uint u) (NilZero.uint_of_string r)
  | s => option_map Z.of_int (NilZero.int_of_string s)
  end.

(** Whether [b.decode('utf-8')] succeeds: the well-formed byte sequences
    of UTF-8. *)
Fixpoint utf8_valid (bs : list N) : bool :=
  let between (lo hi x : N) := ((lo <=? x) && (x <=? hi))%N in
  match bs with
  | [] => true
  | a :: r =>
      if (a <? 128)%N then utf8_valid r
      else if between 194%N 223%N a then
        match r with
        | b :: r' => between 128%N 191%N b && utf8_valid r'
        | _ => false
        end
      else if between 224%N 239%N a then
        match r with
        | b :: c :: r' =>
            between (if (a =? 224)%N then 160%N else 128%N)
                    (if (a =? 237)%N then 159%N else 191%N) b
            && between 128%N 191%N c && utf8_valid r'
        | _ => false
        end
      else if between 240%N 244%N a then
        match r with
        | b :: c :: d :: r' =>
            between (if (a =? 240)%N then 144%N else 128%N)
                    (if (a =? 244)%N then 143%N else 191%N) b
            && between 128%N 191%N c && between 128%N 191%N d && utf8_valid r'
        | _ => false
        end
      else false
  end.

(** [b.decode('utf-8')]; the text is represented by its UTF-8 bytes. *)
Definition decode_utf8 (b : string) : outcome string :=
  if utf8_valid (map N_of_ascii (list_ascii_of_string b))
  then Return b
  else Raise (UnicodeError "'utf-8' codec can't decode bytes").

(** ** The worker: [NodeHandlerProcess] *)

Module NodeHandlerProcess.

Record t := {
  node_address : string;
  node_port : Z;
  node_path : string;
  write_file_path : string;
  previous_checksum : string
}.

(** What a call of [sock.recv] gives: bytes (none at end of stream) or an
    [OSError]. *)
Inductive recv_result : Type :=
| Data (b : string)
| RecvError (msg : string).

Inductive message : Type :=
| Json (o : pyobj)
| Bytes (b : string).

(** The connection as the worker sees it: whether [connect] fails, for each
    [sendall] in turn whether it fails (none does once the list is used up),
    and what the successive [recv] calls find.  Once [incoming] is used up
    the peer has closed the connection: every further [recv] returns [b'']
    at once.  [outgoing] collects what the worker sent. *)
Record socket := {
  connect_error : option string;
  send_errors : list (option string);
  incoming : list recv_result;
  outgoing : list message
}.

Record world := { sock : socket; files : gmap string string }.

(** Statements of the worker: [None] when the statement is still running
    after the given number of loop iterations. *)
Definition W (A : Type) : Type := world -> option (outcome A * world).

Definition ret {A} (a : A) : W A := fun w => Some (Return a, w).
Definition raise {A} (e : exn) : W A := fun w => Some (Raise e, w).
Definition bind {A B} (m : W A) (k : A -> W B) : W B :=
  fun w =>
    match m w with
    | Some (Return a, w') => k a w'
    | Some (Raise e, w') => Some (Raise e, w')
    | None => None
    end.
(** [try: m] with the exception as a value, to be matched by [except]. *)
Definition try {A} (m : W A) : W (outcome A) :=
  fun w =>
    match m w with
    | Some (r, w') => Some (Return r, w')
    | None => None
    end.
Definition lift {A} (r : outcome A) : W A := fun w => Some (r, w).

Declare Scope worker_scope.
Notation "x <- m ;; k" := (bind m (fun x => k))
  (at level 100, m at next level, right associativity) : worker_scope.
Notation "m ;; k" := (bind m (fun _ => k))
  (at level 100, right associativity) : worker_scope.
Local Open Scope worker_scope.

Definition set_sock (s : socket) (w : world) : world := {| sock := s; files := files w |}.
Definition set_files (f : gmap string string) (w : world) : world := {| sock := sock w; files := f |}.

(** [sock.connect(address)]. *)
Definition connect : W unit :=
  fun w =>
    match connect_error (sock w) with
    | Some msg => Some (Raise (OSError msg), w)
    | None => Some (Return tt, w)
    end.

(** [sock.sendall(m)]. *)
Definition sendall (m : message) : W unit :=
  fun w =>
    let s := sock w in
    match send_errors s with
    | Some msg :: rest =>
        Some (Raise (OSError msg),
              set_sock {| connect_error := connect_error s; send_errors := rest;
                          incoming := incoming s; outgoing := outgoing s |} w)
    | None :: rest =>
        Some (Return tt,
              set_sock {| connect_error := connect_error s; send_errors := rest;
                          incoming := incoming s; outgoing := outgoing s ++ [m] |} w)
    | [] =>
        Some (Return tt,
              set_sock {| connect_error := connect_error s; send_errors := [];
                          incoming := incoming s; outgoing := outgoing s ++ [m] |} w)
    end.

(** [sock.recv(bufsize)]: at most [bufsize] bytes of what the next read
    finds; what does not fit stays for the following call. *)
Definition recv (bufsize : nat) : W string :=
  fun w =>
    let s := sock w in
    let rest_is (l : list recv_result) :=
      set_sock {| connect_error := connect_error s; send_errors := send_errors s;
                  incoming := l; outgoing := outgoing s |} w in
    match incoming s with
    | [] => Some (Return EmptyString, w)
    | Data b :: rest =>
        if (String.length b <=? bufsize)%nat
        then Some (Return b, rest_is rest)
        else Some (Return (substring 0 bufsize b),
                   rest_is (Data (substring bufsize (String.length b - bufsize) b) :: rest))
    | RecvError msg :: rest => Some (Raise (OSError msg), rest_is rest)
    end.

(** [open(path, 'w').close()]. *)
Definition touch (path : string) : W unit :=
  fun w => Some (Return tt, set_files (<[path := EmptyString]> (files w)) w).

(** [open(path, 'ab')]: the file is created when it does not exist. *)
Definition open_append (path : string) : W unit :=
  fun w =>
    match files w !! path with
    | Some _ => Some (Return tt, w)
    | None => Some (Return tt, set_files (<[path := EmptyString]> (files w)) w)
    end.

(** [file.write(buffer)] on a file opened for appending. *)
Definition write (path buffer : string) : W unit :=
  fun w =>
    Some (Return tt,
          set_files (<[path := default EmptyString (files w !! path) ++ buffer]> (files w)) w).

Definition remove (path : string) : W unit :=
  fun w =>
    match files w !! path with
    | Some _ => Some (Return tt, set_files (delete path (files w)) w)
    | None => Some (Raise (OSError ("No such file or directory: " ++ path)), w)
    end.

Definition read (path : string) : W string :=
  fun w =>
    match files w !! path with
    | Some content => Some (Return content, w)
    | None => Some (Raise (OSError ("No such file or directory: " ++ path)), w)
    end.

Definition fmt (template : string) (args : list pyval) : W string :=
  match py_format template args with
  | Some s => ret s
  | None => raise (TypeError "not all arguments converted during string formatting")
  end.

(** The [while file_size > 0] loop of [_receive_file_in], run for at most
    [fuel] iterations. *)
Fixpoint receive_loop (fuel : nat) (file : string) (file_size : Z) : W unit :=
  if file_size >? 0 then
    match fuel with
    | O => fun _ => None
    | S fuel' =>
        buffer <- recv (Z.to_nat DEFAULT_SOCKET_BUFFER_SIZE) ;;
        write file buffer ;;
        receive_loop fuel' file (file_size - Z.of_nat (String.length buffer))
    end
  else ret tt.

Definition _receive_file_in (fuel : nat) (file : string) : W unit :=
  b <- recv 1024 ;;
  file_size <- match py_int b with
               | Some n => ret n
               | None => raise (ValueError "invalid literal for int() with base 10")
               end ;;
  sendall (Bytes "OK") ;;
  receive_loop fuel file file_size.

(** [NodeHandlerProcess.__call__]; [get_hash] is [BackupFile.get_hash] on
    the contents of the file.  The statement returns when the routine
    returns and raises when an exception escapes it; the process ends in
    both cases. *)
Definition __call__ (get_hash : string -> string) (fuel : nat) (self : t) : W unit :=
  connected <- try (connect ;;
                    sendall (Json (PDict [("checksum", PStr (previous_checksum self));
                                          ("path", PStr (node_path self))]))) ;;
  match connected with
  | Raise e => if is_OSError e then ret tt else raise e
  | Return _ =>
      reply <- recv 1024 ;;
      text <- lift (decode_utf8 reply) ;;
      if String.eqb text "SAME" then
        same <- fmt SAME_FILE_FORMAT [VStr (write_file_path self)] ;;
        touch same
      else
        wip <- fmt WIP_FILE_FORMAT [VStr (write_file_path self)] ;;
        touch wip ;;
        open_append (write_file_path self) ;;
        received <- try (_receive_file_in fuel (write_file_path self) ;;
                         sendall (Bytes "OK") ;;
                         c <- recv (Z.to_nat DEFAULT_SOCKET_BUFFER_SIZE) ;;
                         ret (rstrip c)) ;;
        match received with
        | Raise e => if is_OSError e then ret tt else raise e
        | Return checksum =>
            content <- read (write_file_path self) ;;
            server <- lift (decode_utf8 checksum) ;;
            let verified := String.eqb (get_hash content) server in
            correct <- fmt CORRECT_FILE_FORMAT [VStr (write_file_path self)] ;;
            touch correct ;;
            wip' <- fmt WIP_FILE_FORMAT [VStr (write_file_path self)] ;;
            remove wip'
        end
  end.

(** The outcome the scheduler observes once the process has ended. *)
Inductive status : Type := CORRECT | SAME | FAILED.

Definition observed (self : t) (w : world) : status :=
  if bool_decide (is_Some (files w !! (write_file_path self ++ ".CORRECT"))) then CORRECT
  else if bool_decide (is_Some (files w !! (write_file_path self ++ ".SAME"))) then SAME
  else FAILED.

End NodeHandlerProcess.

(** ** The store *)

Record FinishedTask := {
  result_path : string;
  kb_size : Q;
  timestamp : datetime;
  checksum : string
}.

(** Modelled from the spec: the persistent store ([src.database.database]
    is not part of the sources).  A value of [Database] is the point-in-time
    view its queries return: [get_node_names], [get_node_address] ([None]
    when the query raises for an unknown node), [get_tasks_for_node] with
    the (path, frequency) pairs of a node, and [get_node_finished_tasks],
    newest first. *)
Record Database := {
  get_node_names : list string;
  get_node_address : string -> option (string * Z);
  get_tasks_for_node : string -> list (string * Z);
  get_node_finished_tasks : string -> string -> list FinishedTask
}.

(** Modelled from the spec: [register_finished_task(name, path, ft)]
    appends [ft] to the front of the history of (name, path). *)
Definition register_finished_task (name path : string) (ft : FinishedTask)
    (db : Database) : Database :=
  {| get_node_names := get_node_names db;
     get_node_address := get_node_address db;
     get_tasks_for_node := get_tasks_for_node db;
     get_node_finished_tasks := fun n p =>
       if decide (n = name /\ p = path)
       then ft :: get_node_finished_tasks db n p
       else get_node_finished_tasks db n p |}.

(** ** The scheduler and its surroundings *)

Record RunningTask := {
  write_file_path : string;
  process : nat
}.

(** A (node name, node path) pair, the key of the running tasks. *)
Definition node_data : Type := string * string.

(** The fields of [BackupScheduler], followed by the part of the world the
    scheduler acts on: the file system, the table of the live worker
    processes (each with the (node, path) it was launched for and its
    handler), the number of [Process] objects created so far, the number of
    clock readings taken so far, and the messages sent on
    [pipe_request_answer]. *)
Record State := mkState {
  backup_path : string;
  database : Database;
  schedule : list ScheduledTask;
  running_tasks : list (node_data * RunningTask);
  task_queue : list (string * string * string);
  max_processes : Z;
  fs : gmap string string;
  procs : gmap nat (node_data * NodeHandlerProcess.t);
  next_pid : nat;
  ticks : nat;
  sent : list (string * pyobj)
}.

Definition set_database (v : Database) (st : State) : State :=
  mkState (backup_path st) v (schedule st) (running_tasks st) (task_queue st)
    (max_processes st) (fs st) (procs st) (next_pid st) (ticks st) (sent st).
Definition set_schedule (v : list ScheduledTask) (st : State) : State :=
  mkState (backup_path st) (database st) v (running_tasks st) (task_queue st)
    (max_processes st) (fs st) (procs st) (next_pid st) (ticks st) (sent st).
Definition set_running_tasks (v : list (node_data * RunningTask)) (st : State) : State :=
  mkState (backup_path st) (database st) (schedule st) v (task_queue st)
    (max_processes st) (fs st) (procs st) (next_pid st) (ticks st) (sent st).
Definition set_task_queue (v : list (string * string * string)) (st : State) : State :=
  mkState (backup_path st) (database st) (schedule st) (running_tasks st) v
    (max_processes st) (fs st) (procs st) (next_pid st) (ticks st) (sent st).
Definition set_fs (v : gmap string string) (st : State) : State :=
  mkState (backup_path st) (database st) (schedule st) (running_tasks st) (task_queue st)
    (max_processes st) v (procs st) (next_pid st) (ticks st) (sent st).
Definition set_procs (v : gmap nat (node_data * NodeHandlerProcess.t)) (n : nat) (st : State) : State :=
  mkState (backup_path st) (database st) (schedule st) (running_tasks st) (task_queue st)
    (max_processes st) (fs st) v n (ticks st) (sent st).
Definition set_ticks (v : nat) (st : State) : State :=
  mkState (backup_path st) (database st) (schedule st) (running_tasks st) (task_queue st)
    (max_processes st) (fs st) (procs st) (next_pid st) v (sent st).
Definition set_sent (v : list (string * pyobj)) (st : State) : State :=
  mkState (backup_path st) (database st) (schedule st) (running_tasks st) (task_queue st)
    (max_processes st) (fs st) (procs st) (next_pid st) (ticks st) v.

(** What the scheduler takes from outside the sources: the command adapter
    ([ClientRequestHandler.parse_command], which mutates the store and either
    raises or returns the response data and the [tasks_changed] flag), the
    hash of a file's contents ([BackupFile.get_hash]) and the wall clock,
    as the sequence of its readings. *)
Record Env := {
  parse_command : pyobj -> pyobj -> Database -> Database * outcome (pyobj * bool);
  get_hash : string -> string;
  clock : nat -> datetime
}.

(** Statements: a state transformer that returns or raises. *)
Definition M (A : Type) : Type := State -> outcome A * State.

Definition ret {A} (a : A) : M A := fun st => (Return a, st).
Definition raise {A} (e : exn) : M A := fun st => (Raise e, st).
Definition bind {A B} (m : M A) (k : A -> M B) : M B :=
  fun st =>
    match m st with
    | (Return a, st') => k a st'
    | (Raise e, st') => (Raise e, st')
    end.
Definition gets {A} (f : State -> A) : M A := fun st => (Return (f st), st).
Definition modify (f : State -> State) : M unit := fun st => (Return tt, f st).

Notation "x <- m ;; k" := (bind m (fun x => k))
  (at level 100, m at next level, right associativity).
Notation "m ;; k" := (bind m (fun _ => k))
  (at level 100, right associativity).

(** [for x in l: body(x)]. *)
Fixpoint for_each {X} (l : list X) (body : X -> M unit) : M unit :=
  match l with
  | [] => ret tt
  | x :: r => body x ;; for_each r body
  end.

(** A loop that updates a local variable. *)
Fixpoint fold_m {X B} (body : B -> X -> M B) (acc : B) (l : list X) : M B :=
  match l with
  | [] => ret acc
  | x :: r => acc' <- body acc x ;; fold_m body acc' r
  end.

(** [when b: m]. *)
Definition when (b : bool) (m : M unit) : M unit := if b then m else ret tt.

(** [template % args] as a statement. *)
Definition fmt (template : string) (args : list pyval) : M string :=
  match py_format template args with
  | Some s => ret s
  | None => raise (TypeError "not all arguments converted during string formatting")
  end.

(** [datetime.now()]. *)
Definition datetime_now (E : Env) : M datetime :=
  fun st => (Return (clock E (ticks st)), set_ticks (S (ticks st)) st).

(** *** Dictionaries in insertion order *)

(** [d[k] = v]: an existing key keeps its place. *)
Fixpoint dict_set {K V} `{EqDecision K} (k : K) (v : V) (d : list (K * V)) : list (K * V) :=
  match d with
  | [] => [(k, v)]
  | (k', v') :: r => if decide (k = k') then (k, v) :: r else (k', v') :: dict_set k v r
  end.

(** [k in d]. *)
Definition dict_mem {K V} `{EqDecision K} (k : K) (d : list (K * V)) : bool :=
  bool_decide (k ∈ d.*1).

(** *** The file system *)

(** [os.path.isfile(path)]. *)
Definition isfile (path : string) : M bool :=
  gets (fun st => bool_decide (is_Some (fs st !! path))).

(** [os.remove(path)]. *)
Definition os_remove (path : string) : M unit :=
  fun st =>
    match fs st !! path with
    | Some _ => (Return tt, set_fs (delete path (fs st)) st)
    | None => (Raise (OSError ("No such file or directory: " ++ path)), st)
    end.

(** The contents of a file, to take its size or its hash. *)
Definition read_file (path : string) : M string :=
  fun st =>
    match fs st !! path with
    | Some content => (Return content, st)
    | None => (Raise (OSError ("No such file or directory: " ++ path)), st)
    end.

(** The name of a directory entry: not empty, without [/]. *)
Definition entry_name (f : string) : bool :=
  negb (String.eqb f "") && negb (contains "/" f).

(** [os.listdir(dir)]: the names [f] such that [dir/f] is a file.  The
    backup directory is flat; files further down are not listed. *)
Definition dir_entries (dir : string) (files : gmap string string) : list string :=
  omap (fun path =>
          match strip_prefix (dir ++ "/") path with
          | Some f => if entry_name f then Some f else None
          | None => None
          end)
       (elements (dom files)).

Definition listdir (dir : string) : M (list string) :=
  gets (fun st => dir_entries dir (fs st)).

(** *** [RunningTask] *)

(** [self.process.is_alive()]. *)
Definition is_running (t : RunningTask) : M bool :=
  gets (fun st => bool_decide (is_Some (procs st !! process t))).

Definition backup_is_correct (t : RunningTask) : M bool :=
  correct <- fmt CORRECT_FILE_FORMAT [VStr (write_file_path t)] ;;
  c <- isfile correct ;;
  if c then
    correct' <- fmt CORRECT_FILE_FORMAT [VStr (write_file_path t)] ;;
    os_remove correct' ;;
    ret true
  else
    a <- isfile (write_file_path t) ;;
    when a (os_remove (write_file_path t)) ;;
    wip <- fmt WIP_FILE_FORMAT [VStr (write_file_path t)] ;;
    w <- isfile wip ;;
    when w (wip' <- fmt WIP_FILE_FORMAT [VStr (write_file_path t)] ;; os_remove wip') ;;
    ret false.

Definition backup_is_same (t : RunningTask) : M bool :=
  same <- fmt SAME_FILE_FORMAT [VStr (write_file_path t)] ;;
  s <- isfile same ;;
  if s then
    same' <- fmt SAME_FILE_FORMAT [VStr (write_file_path t)] ;;
    os_remove same' ;;
    ret true
  else ret false.

(** *** [BackupScheduler] *)

(** [self.database.get_node_address(node_name)]. *)
Definition node_address_of (name : string) : M (string * Z) :=
  fun st =>
    match get_node_address (database st) name with
    | Some a => (Return a, st)
    | None => (Raise (KeyError name), st)
    end.

Definition _reload_schedule : M unit :=
  modify (set_schedule []) ;;
  names <- gets (fun st => get_node_names (database st)) ;;
  for_each names (fun name =>
    address <- node_address_of name ;;
    tasks <- gets (fun st => get_tasks_for_node (database st) name) ;;
    for_each tasks (fun task =>
      finished_tasks <- gets (fun st => get_node_finished_tasks (database st) name (fst task)) ;;
      modify (fun st =>
        set_schedule
          (schedule st ++
           [{| node_name := name;
               node_address := fst address;
               node_port := snd address;
               node_path := fst task;
               frequency := snd task;
               last_backup := match finished_tasks with
                              | ft :: _ => Some (timestamp ft)
                              | [] => None
                              end;
               last_checksum := match finished_tasks with
                                | ft :: _ => checksum ft
                                | [] => EmptyString
                                end |}]) st))).

(** The set [valid_file_prefixes] that [_clean_backup_path] builds. *)
Definition valid_file_prefixes (db : Database)
    (running : list (node_data * RunningTask)) : gset string :=
  let stored :=
    foldl (fun acc name =>
      foldl (fun acc task =>
        foldl (fun acc ft => acc ∪ {[ result_path ft ]}) acc
          (take MAX_FINISHED_TASKS_TO_STORE (get_node_finished_tasks db name (fst task))))
        acc (get_tasks_for_node db name))
      ∅ (get_node_names db) in
  stored ∪ list_to_set (map (fun kt => write_file_path (snd kt)) running).

Definition files_to_delete (dir : string) (valid : gset string)
    (files_in_directory : list string) : list string :=
  filter (fun f => dir ++ "/" ++ split_first "." f ∉ valid) files_in_directory.

Definition _clean_backup_path : M unit :=
  valid <- gets (fun st => valid_file_prefixes (database st) (running_tasks st)) ;;
  dir <- gets backup_path ;;
  files_in_directory <- listdir dir ;;
  for_each (files_to_delete dir valid files_in_directory)
    (fun file_to_delete => os_remove (dir ++ "/" ++ file_to_delete)).

(** [self.pipe_request_answer.send((status, data))]. *)
Definition send (status : string) (data : pyobj) : M unit :=
  modify (fun st => set_sent (sent st ++ [(status, data)]) st).

(** The [try] block of [_handle_client_request]: the value of the local
    [data] when the block ends, and the exception that ended it, if any. *)
Definition client_request_try (E : Env) (request : pyobj) : M (pyobj * option exn) :=
  fun st =>
    match unpack2 request with
    | Raise e => (Return (PNone, Some e), st)
    | Return (command, args) =>
        let (db', r) := parse_command E command args (database st) in
        let st1 := set_database db' st in
        match r with
        | Raise e => (Return (PNone, Some e), st1)
        | Return (data, tasks_changed) =>
            match when tasks_changed (_reload_schedule ;; _clean_backup_path) st1 with
            | (Return _, st2) => (Return (data, None), st2)
            | (Raise e, st2) => (Return (data, Some e), st2)
            end
        end
    end.

Definition _handle_client_request (E : Env) (request : pyobj) : M unit :=
  r <- client_request_try E request ;;
  match snd r with
  | Some e =>
      status <- fmt "Error %s:" [VStr (str_exn e)] ;;
      send status (fst r)
  | None => ret tt
  end ;;
  send "OK" (fst r).

(** The branch of [_dispatch_running_tasks] for a task whose process has
    ended. *)
Definition reap (E : Env) (key : node_data) (task : RunningTask) : M unit :=
  correct <- backup_is_correct task ;;
  if correct then
    sized <- read_file (write_file_path task) ;;
    now <- datetime_now E ;;
    hashed <- read_file (write_file_path task) ;;
    modify (fun st =>
      set_database
        (register_finished_task (fst key) (snd key)
           {| result_path := write_file_path task;
              kb_size := inject_Z (Z.of_nat (String.length sized)) / inject_Z 1024;
              timestamp := now;
              checksum := get_hash E hashed |}
           (database st)) st) ;;
    _reload_schedule ;;
    _clean_backup_path
  else
    same <- backup_is_same task ;;
    if same then
      finished_tasks <- gets (fun st => get_node_finished_tasks (database st) (fst key) (snd key)) ;;
      match finished_tasks with
      | [] => raise (IndexError "list index out of range")
      | ft :: _ =>
          now <- datetime_now E ;;
          modify (fun st =>
            set_database
              (register_finished_task (fst key) (snd key)
                 {| result_path := result_path ft;
                    kb_size := kb_size ft;
                    timestamp := now;
                    checksum := checksum ft |}
                 (database st)) st) ;;
          _reload_schedule ;;
          _clean_backup_path
      end
    else ret tt.

Definition _dispatch_running_tasks (E : Env) : M unit :=
  running <- gets running_tasks ;;
  now_running_tasks <-
    fold_m (fun now_running entry =>
              alive <- is_running (snd entry) ;;
              if negb alive
              then reap E (fst entry) (snd entry) ;; ret now_running
              else ret (dict_set (fst entry) (snd entry) now_running))
           [] running ;;
  modify (set_running_tasks now_running_tasks).

(** [sched_task.should_run()]: the clock is read only when there is a last
    backup. *)
Definition should_run_now (E : Env) (t : ScheduledTask) : M bool :=
  match last_backup t with
  | None => ret true
  | Some _ => now <- datetime_now E ;; ret (should_run now t)
  end.

(** [d.pop()] on a deque: the right end. *)
Fixpoint pop_right {A} (l : list A) : option (list A * A) :=
  match l with
  | [] => None
  | x :: r =>
      match pop_right r with
      | None => Some ([], x)
      | Some (r', y) => Some (x :: r', y)
      end
  end.

Definition queue_pop : M (string * string * string) :=
  fun st =>
    match pop_right (task_queue st) with
    | Some (q, x) => (Return x, set_task_queue q st)
    | None => (Raise (IndexError "pop from an empty deque"), st)
    end.

(** [Process(target=node_handler)] followed by [p.start()]. *)
Definition start_process (key : node_data) (handler : NodeHandlerProcess.t) : M nat :=
  fun st =>
    (Return (next_pid st),
     set_procs (<[next_pid st := (key, handler)]> (procs st)) (S (next_pid st)) st).

(** The body of the inner loop of [_run_new_tasks]. *)
Definition launch (E : Env) : M unit :=
  queued <- queue_pop ;;
  let name := fst (fst queued) in
  let path := snd (fst queued) in
  address <- node_address_of name ;;
  dir <- gets backup_path ;;
  now <- datetime_now E ;;
  encoded <- match safe_base64 path with
             | Some e => ret e
             | None => raise (UnicodeError "'ascii' codec can't encode character")
             end ;;
  file_path <- fmt WRITE_FILE_PATH_TEMPLATE
                 [VStr dir; VFloat (utc_timestamp now); VStr name; VStr encoded] ;;
  p <- start_process (name, path)
         {| NodeHandlerProcess.node_address := fst address;
            NodeHandlerProcess.node_path := path;
            NodeHandlerProcess.node_port := snd address;
            NodeHandlerProcess.write_file_path := file_path;
            NodeHandlerProcess.previous_checksum := snd queued |} ;;
  modify (fun st =>
    set_running_tasks
      (dict_set (name, path) {| write_file_path := file_path; process := p |}
                (running_tasks st)) st).

Definition _run_new_tasks (E : Env) : M unit :=
  sched <- gets schedule ;;
  for_each sched (fun sched_task =>
    running <- gets running_tasks ;;
    if dict_mem (node_name sched_task, node_path sched_task) running then ret tt
    else
      let triple := (node_name sched_task, node_path sched_task, last_checksum sched_task) in
      due <- should_run_now E sched_task ;;
      queue <- gets task_queue ;;
      when (due && negb (bool_decide (triple ∈ queue)))
           (modify (fun st => set_task_queue (triple :: task_queue st) st)) ;;
      number_of_running_tasks <- gets (fun st => Z.of_nat (length (running_tasks st))) ;;
      rounds <- gets (fun st =>
                  Z.min (max_processes st - number_of_running_tasks)
                        (Z.of_nat (length (task_queue st)))) ;;
      for_each (seq 0 (Z.to_nat rounds)) (fun _ => launch E)).

(** [BackupScheduler.__init__]. *)
Definition __init__ (backup_path : string) (database : Database) (max_processes_for_tasks : Z)
    (files : gmap string string) : State :=
  mkState backup_path database [] [] [] max_processes_for_tasks files ∅ 0 0 [].

(** [__call__]: what precedes the loop, one turn of the loop ([request] is
    the control request when the poll finds one), and the handler of the
    outer [except]. *)
Definition startup : M unit := _reload_schedule ;; _clean_backup_path.

Definition iteration (E : Env) (request : option pyobj) : M unit :=
  match request with
  | Some r => _handle_client_request E r
  | None => ret tt
  end ;;
  _dispatch_running_tasks E ;;
  _run_new_tasks E.

Definition abort : M unit :=
  running <- gets running_tasks ;;
  for_each running (fun entry =>
    alive <- is_running (snd entry) ;;
    when alive (raise (AttributeError "'Process' object has no attribute 'termitate'"))).

(** *** Runs of the scheduler *)

(** What happens outside the scheduler between two of its statements:
    workers write and delete files, and some of them end. *)
Inductive env_step : State -> State -> Prop :=
| env_workers st files live :
    live ⊆ procs st ->
    env_step st (set_fs files (set_procs live (next_pid st) st)).

(** The statements of the loop, in any order, interleaved with the
    workers.  The order of [__call__] (an optional control request, then
    reaping, then dispatch) is one of these interleavings; a statement that
    raises leaves the state in which the loop stops. *)
Inductive step (E : Env) : State -> State -> Prop :=
| step_startup st : step E st (snd (startup st))
| step_client st request : step E st (snd (_handle_client_request E request st))
| step_reap st : step E st (snd (_dispatch_running_tasks E st))
| step_run st : step E st (snd (_run_new_tasks E st))
| step_env st st' : env_step st st' -> step E st st'.

Inductive reachable (E : Env) (st0 : State) : State -> Prop :=
| reach_init : reachable E st0 st0
| reach_step st st' : reachable E st0 st -> step E st st' -> reachable E st0 st'.

(** ** Notions of the specification *)

(** The set [Valid] of the specification: the result paths of the newest
    [MAX_FINISHED_TASKS_TO_STORE] finished tasks of every configured
    (node, path), and the write paths of the running tasks. *)
Definition Valid (db : Database) (running : list (node_data * RunningTask)) (x : string) : Prop :=
  (exists name task ft,
      name ∈ get_node_names db /\
      task ∈ get_tasks_for_node db name /\
      ft ∈ take MAX_FINISHED_TASKS_TO_STORE (get_node_finished_tasks db name (fst task)) /\
      x = result_path ft)
  \/ (exists entry, entry ∈ running /\ x = write_file_path (snd entry)).

(** The prefix that [_clean_backup_path] computes for a directory entry. *)
Definition prefix_of_entry (dir f : string) : string := dir ++ "/" ++ split_first "." f.

(** The files the GC removes, as paths. *)
Definition doomed (st : State) : list string :=
  map (fun f => backup_path st ++ "/" ++ f)
      (files_to_delete (backup_path st)
         (valid_file_prefixes (database st) (running_tasks st))
         (dir_entries (backup_path st) (fs st))).

(** [os.path.basename(path)]: what follows the last [/]. *)
Fixpoint basename (path : string) : string :=
  match path with
  | EmptyString => EmptyString
  | String c r =>
      if contains "/" r then basename r
      else if Ascii.eqb c "/" then r else path
  end.

(** The endings of the files of one backup: the artifact and its
    sentinels. *)
Definition sentinel_suffixes : list string := [""; ".WIP"; ".CORRECT"; ".SAME"].

(** The characters of a file-name-safe Base64 text. *)
Definition safe_alphabet : string :=
  "ABCDEFGHIJKLMNOPQRSTUVWXYZabcdefghijklmnopqrstuvwxyz0123456789-_=".

Fixpoint string_forall (P : ascii -> bool) (s : string) : bool :=
  match s with
  | EmptyString => true
  | String c r => P c && string_forall P r
  end.

(** The name of the artifact of a dispatch, inside the backup directory. *)
Definition artifact_name (x : Q) (name encoded : string) : string :=
  "backup_" ++ str_of_int (int_of_float x) ++ "_" ++ name ++ "_" ++ encoded.

(** ** Reasoning about statements *)

(** [m] keeps [P]: from a state with [P], the state [m] ends in has [P],
    whether [m] returns or raises. *)
Definition preserves {A} (P : State -> Prop) (m : M A) : Prop :=
  forall st, P st -> P (snd (m st)).

(** Properties that do not look at a given part of the state. *)
Definition ignores_fs (P : State -> Prop) : Prop :=
  forall st v, P st -> P (set_fs v st).
Definition ignores_schedule (P : State -> Prop) : Prop :=
  forall st v, P st -> P (set_schedule v st).
Definition ignores_ticks (P : State -> Prop) : Prop :=
  forall st v, P st -> P (set_ticks v st).
Definition ignores_sent (P : State -> Prop) : Prop :=
  forall st v, P st -> P (set_sent v st).

Definition ignores_database (P : State -> Prop) : Prop :=
  forall st v, P st -> P (set_database v st).

(** From a state with [P], the statement [m] returns [a] in a state with
    [Q a], or raises in a state with [X]. *)
Definition hoare {A} (P : State -> Prop) (m : M A) (Q : A -> State -> Prop)
    (X : State -> Prop) : Prop :=
  forall st, P st ->
    match m st with
    | (Return a, st') => Q a st'
    | (Raise _, st') => X st'
    end.

(** ** Invariants of the scheduler *)

(** The state [__init__] builds. *)
Definition initial (st : State) : Prop :=
  exists dir db bound files, st = __init__ dir db bound files.

(** The concurrency bound. *)
Definition within_bound (st : State) : Prop :=
  Z.of_nat (length (running_tasks st)) <= max_processes st.

(** The checksum of the newest finished task of a (node, path), as
    [_reload_schedule] reads it. *)
Definition db_checksum (db : Database) (name path : string) : string :=
  match get_node_finished_tasks db name path with
  | ft :: _ => checksum ft
  | [] => EmptyString
  end.


(** What links the queue, the running tasks, the store and the workers:
    no queued triple is for a running (node, path); the queue holds one
    triple per (node, path) at most, with the newest checksum of the store;
    the keys of the running tasks are distinct; every live worker is the
    process of the running task of its (node, path). *)
Definition queue_inv (st : State) : Prop :=
  (forall t, t ∈ task_queue st -> fst t ∉ (running_tasks st).*1) /\
  NoDup (fst <$> task_queue st) /\
  (forall t, t ∈ task_queue st ->
             snd t = db_checksum (database st) (fst (fst t)) (snd (fst t))) /\
  NoDup (running_tasks st).*1 /\
  (forall pid key handler,
      procs st !! pid = Some (key, handler) ->
      exists t, (key, t) ∈ running_tasks st /\ process t = pid).

(** The schedule view carries the newest checksums of the store. *)
Definition schedule_inv (st : State) : Prop :=
  forall s, s ∈ schedule st ->
            last_checksum s = db_checksum (database st) (node_name s) (node_path s).

(** ** Stores, states and connections used as examples *)

Definition db_one : Database :=
  {| get_node_names := ["n1"];
     get_node_address := fun _ => Some ("127.0.0.1", 1234);
     get_tasks_for_node := fun _ => [("/", 1)];
     get_node_finished_tasks := fun _ _ => [] |}.

Definition env_at (now : datetime) : Env :=
  {| parse_command := fun _ _ db => (db, Raise (CommandError "unknown command"));
     get_hash := fun content => content;
     clock := fun _ => now |}.

Definition st_queued : State :=
  mkState "/b" db_one [] [] [("n1", "/", "")] 2 ∅ ∅ 0 0 [].

Definition db_dotted : Database :=
  {| get_node_names := ["n.1"];
     get_node_address := fun _ => Some ("127.0.0.1", 1234);
     get_tasks_for_node := fun _ => [("/", 1)];
     get_node_finished_tasks := fun _ _ => [] |}.

Definition st_dotted : State :=
  mkState "/b" db_dotted [] 
    [(("n.1", "/"), {| write_file_path := "/b/backup_100_n.1_Lw=="; process := 0 |})]
    [] 2
    (<["/b/backup_100_n.1_Lw==" := "partial"]> (<["/b/backup_100_n.1_Lw==.WIP" := ""]> ∅))
    (<[0%nat := (("n.1", "/"),
                 {| NodeHandlerProcess.node_address := "127.0.0.1";
                    NodeHandlerProcess.node_port := 1234;
                    NodeHandlerProcess.node_path := "/";
                    NodeHandlerProcess.write_file_path := "/b/backup_100_n.1_Lw==";
                    NodeHandlerProcess.previous_checksum := "" |})]> ∅)
    1 1 [].

(** A worker of node [n1] has ended with a [.SAME] sentinel, and the store
    has no history for the task. *)
Definition st_same : State :=
  mkState "/b" db_one [] 
    [(("n1", "/"), {| write_file_path := "/b/backup_100_n1_Lw=="; process := 0 |})]
    [] 2 (<["/b/backup_100_n1_Lw==.SAME" := ""]> ∅) ∅ 1 1 [].

(** A store with one node and three tasks, the last of which has a
    history. *)
Definition db_three : Database :=
  {| get_node_names := ["n1"];
     get_node_address := fun _ => Some ("127.0.0.1", 1234);
     get_tasks_for_node := fun _ => [("/b", 1); ("/c", 1); ("/a", 1)];
     get_node_finished_tasks := fun _ path =>
       if String.eqb path "/a"
       then [{| result_path := "/b/backup_0_n1_L2E="; kb_size := 1;
                timestamp := 0; checksum := "c1" |}]
       else [] |}.

(** A command adapter that drops every history and reports a change. *)
Definition env_forget : Env :=
  {| parse_command := fun _ _ db =>
       ({| get_node_names := get_node_names db;
           get_node_address := get_node_address db;
           get_tasks_for_node := get_tasks_for_node db;
           get_node_finished_tasks := fun _ _ => [] |},
        Return (PNone, true));
     get_hash := fun content => content;
     clock := fun _ => 200000000 |}.

(** Two turns of the loop, the second with a control request, then the
    two workers end without a sentinel, then a third turn. *)
Definition st_c0 : State := __init__ "/b" db_three 2 ∅.
Definition st_c1 : State := snd (startup st_c0).
Definition st_c2 : State := snd (iteration env_forget None st_c1).


(** A connection that accepts everything the worker sends and delivers
    the given reads, then the end of the stream. *)
Definition connection (reads : list NodeHandlerProcess.recv_result) : NodeHandlerProcess.socket :=
  {| NodeHandlerProcess.connect_error := None;
     NodeHandlerProcess.send_errors := [];
     NodeHandlerProcess.incoming := reads;
     NodeHandlerProcess.outgoing := [] |}.

(** The number of bytes in a list of chunks. *)
Definition total_length (chunks : list string) : nat :=
  foldr (fun c n => (String.length c + n)%nat) 0%nat chunks.

(** The handler of the tests of the sources. *)
Definition test_handler : NodeHandlerProcess.t :=
  {| NodeHandlerProcess.node_address := "localhost";
     NodeHandlerProcess.node_port := 1234;
     NodeHandlerProcess.node_path := "sidecar/src/sidecar_process.py";
     NodeHandlerProcess.write_file_path := "/tmp/backup_output/out";
     NodeHandlerProcess.previous_checksum := "dummy_checksum" |}.

(** The store of the GC scenario of the specification: one finished task
    whose result path is [/b/backup_100_n1_Lw==]. *)
Definition db_gc : Database :=
  {| get_node_names := ["n1"];
     get_node_address := fun _ => Some ("127.0.0.1", 1234);
     get_tasks_for_node := fun _ => [("/", 1)];
     get_node_finished_tasks := fun _ _ =>
       [{| result_path := "/b/backup_100_n1_Lw=="; kb_size := 1; timestamp := 100000000;
           checksum := "c" |}] |}.

(** A store with five tasks without history. *)
Definition db_five : Database :=
  {| get_node_names := ["n1"];
     get_node_address := fun _ => Some ("127.0.0.1", 1234);
     get_tasks_for_node := fun _ => [("/a", 1); ("/b", 1); ("/c", 1); ("/d", 1); ("/e", 1)];
     get_node_finished_tasks := fun _ _ => [] |}.

(** The first turn of the loop on a store with one task, and the state
    once its worker has ended with the given files. *)
Definition st_fresh : State :=
  snd (iteration (env_at 100750000) None (snd (startup (__init__ "/b" db_one 2 ∅)))).
Definition st_ended (files : list (string * string)) : State :=
  set_fs (list_to_map files) (set_procs ∅ (next_pid st_fresh) st_fresh).

(** ** Notions and examples of the further properties *)

(** The place of a character in an alphabet; in the file-name-safe one the
    64 digits come first and the padding [=] after them. *)
Fixpoint index_in (c : ascii) (alphabet : string) : N :=
  match alphabet with
  | EmptyString => 0
  | String d r => if Ascii.eqb d c then 0 else N.succ (index_in c r)
  end.

Definition safe_index (c : ascii) : N := index_in c safe_alphabet.

(** The bytes a file-name-safe Base64 text stands for; used to show that
    [safe_base64] loses nothing. *)
Fixpoint b64_bytes (s : string) : list N :=
  match s with
  | String c1 (String c2 (String c3 (String c4 rest))) =>
      let d1 := safe_index c1 in
      let d2 := safe_index c2 in
      let d3 := safe_index c3 in
      let d4 := safe_index c4 in
      if Ascii.eqb c3 "=" then [(d1 * 4 + d2 / 16)%N]
      else if Ascii.eqb c4 "="
           then [(d1 * 4 + d2 / 16)%N; ((d2 mod 16) * 16 + d3 / 4)%N]
           else (d1 * 4 + d2 / 16)%N :: ((d2 mod 16) * 16 + d3 / 4)%N
                :: ((d3 mod 4) * 64 + d4)%N :: b64_bytes rest
  | _ => []
  end.

(** The digit of a 6-bit group after the translation of [+] and [/]. *)
Definition safe_digit (i : N) : ascii :=
  if Ascii.eqb (b64_digit i) "+" then "-"%char
  else if Ascii.eqb (b64_digit i) "/" then "_"%char else b64_digit i.

(** The entry of the schedule for a task of a node, as the inner loop of
    [_reload_schedule] builds it from the store. *)
Definition scheduled_task_of (db : Database) (name : string) (address : string * Z)
    (task : string * Z) : ScheduledTask :=
  let finished_tasks := get_node_finished_tasks db name (fst task) in
  {| node_name := name;
     node_address := fst address;
     node_port := snd address;
     node_path := fst task;
     frequency := snd task;
     last_backup := match finished_tasks with
                    | ft :: _ => Some (timestamp ft)
                    | [] => None
                    end;
     last_checksum := match finished_tasks with
                      | ft :: _ => checksum ft
                      | [] => EmptyString
                      end |}.

(** The entries for a list of nodes, in the order of the store. *)
Definition schedule_of (db : Database) (names : list string) : list ScheduledTask :=
  flat_map (fun name =>
              match get_node_address db name with
              | Some address => map (scheduled_task_of db name address) (get_tasks_for_node db name)
              | None => []
              end) names.

(** A store with a node that has no address. *)
Definition db_unknown : Database :=
  {| get_node_names := ["n1"; "n2"];
     get_node_address := fun name =>
       if String.eqb name "n1" then Some ("127.0.0.1", 1234) else None;
     get_tasks_for_node := fun _ => [("/", 1)];
     get_node_finished_tasks := fun _ _ => [] |}.

(** A command adapter that installs [db_unknown] and reports a change. *)
Definition env_unknown : Env :=
  {| parse_command := fun _ _ _ => (db_unknown, Return (PStr "done", true));
     get_hash := fun content => content;
     clock := fun _ => 0 |}.

(** Two running tasks: the worker of the first is alive, the worker of
    the second has ended and left its artifact and [.WIP] sentinel. *)
Definition st_mixed : State :=
  mkState "/b" db_one []
    [(("n1", "/"), {| write_file_path := "/b/backup_100_n1_Lw=="; process := 0 |});
     (("n2", "/"), {| write_file_path := "/b/backup_100_n2_Lw=="; process := 1 |})]
    [] 2
    (<["/b/backup_100_n2_Lw==" := "abc"]> (<["/b/backup_100_n2_Lw==.WIP" := ""]> ∅))
    (<[0%nat := (("n1", "/"),
                 {| NodeHandlerProcess.node_address := "127.0.0.1";
                    NodeHandlerProcess.node_port := 1234;
                    NodeHandlerProcess.node_path := "/";
                    NodeHandlerProcess.write_file_path := "/b/backup_100_n1_Lw==";
                    NodeHandlerProcess.previous_checksum := "" |})]> ∅)
    2 1 [].

(** The finished task that [_dispatch_running_tasks] registers for a
    worker that ended with [.CORRECT]. *)
Definition finished_task_of (E : Env) (task : RunningTask) (content : string)
    (now : datetime) : FinishedTask :=
  {| result_path := write_file_path task;
     kb_size := inject_Z (Z.of_nat (String.length content)) / inject_Z 1024;
     timestamp := now;
     checksum := get_hash E content |}.

(** Every slot is taken, and the schedule has a task that is due. *)
Definition st_full : State :=
  set_schedule
    [{| node_name := "n3"; node_address := "127.0.0.1"; node_port := 1234;
        node_path := "/"; frequency := 1; last_checksum := ""; last_backup := None |}]
    st_mixed.

(** A queued triple whose node path is not ASCII. *)
Definition st_non_ascii : State :=
  mkState "/b" db_one [] [] [("n1", "/", ""); ("n1", String (ascii_of_N 233) "", "")]
    2 ∅ ∅ 0 0 [].

(** The request a worker sends: the previous checksum and the node path,
    as a JSON object. *)
Definition backup_request (self : NodeHandlerProcess.t) : NodeHandlerProcess.message :=
  NodeHandlerProcess.Json
    (PDict [("checksum", PStr (NodeHandlerProcess.previous_checksum self));
            ("path", PStr (NodeHandlerProcess.node_path self))]).

(** Whether the loop of [_receive_file_in] takes exactly the given reads
    for an announced size: it reads as long as [file_size] is positive. *)
Fixpoint consumes (file_size : Z) (chunks : list string) : bool :=
  match chunks with
  | [] => (file_size <=? 0)%Z
  | c :: r => (0 <? file_size)%Z && consumes (file_size - Z.of_nat (String.length c)) r
  end.

(* ===================================================================== *)
(** * Part II: properties *)
(* ===================================================================== *)

Example split_first_ex :
  split_first "." "backup_100_n1_Lw==.CORRECT" = "backup_100_n1_Lw==".
Proof. reflexivity. Qed.

Example safe_base64_ex : safe_base64 "/etc" = Some "L2V0Yw==".
Proof. reflexivity. Qed.

Example safe_base64_ex2 : safe_base64 "/" = Some "Lw==".
Proof. reflexivity. Qed.

Example safe_base64_ex3 : safe_base64 "???>>>" = Some "Pz8_Pj4-".
Proof. reflexivity. Qed.

Example py_format_ex :
  py_format WRITE_FILE_PATH_TEMPLATE
    [VStr "/b"; VFloat (utc_timestamp 100750000); VStr "n1"; VStr "Lw=="]
  = Some "/b/backup_100_n1_Lw==".
Proof. reflexivity. Qed.

#[local] Arguments String.append _ _ : simpl nomatch.

(** ** Strings *)

Lemma append_assoc (a b c : string) : (a ++ b) ++ c = a ++ (b ++ c).
Proof. induction a as [|x a IH]; simpl; [reflexivity | now rewrite IH]. Qed.

Lemma append_empty_r (a : string) : a ++ "" = a.
Proof. induction a as [|x a IH]; simpl; [reflexivity | now rewrite IH]. Qed.

Lemma length_append (a b : string) :
  String.length (a ++ b) = (String.length a + String.length b)%nat.
Proof. induction a as [|x a IH]; simpl; [reflexivity | now rewrite IH]. Qed.

Lemma contains_append (c : ascii) (a b : string) :
  contains c (a ++ b) = contains c a || contains c b.
Proof.
  induction a as [|x a IH]; simpl; [reflexivity|].
  rewrite IH. now rewrite orb_assoc.
Qed.

Lemma split_first_absent (sep : ascii) (s : string) :
  contains sep s = false -> split_first sep s = s.
Proof.
  induction s as [|x s IH]; simpl; [reflexivity|].
  intros H. apply orb_false_iff in H as [Hx Hs].
  rewrite Hx. now rewrite IH.
Qed.

Lemma split_first_append (sep : ascii) (s r : string) :
  contains sep s = false -> split_first sep (s ++ String sep r) = s.
Proof.
  induction s as [|x s IH]; simpl.
  - intros _. now rewrite Ascii.eqb_refl.
  - intros H. apply orb_false_iff in H as [Hx Hs].
    rewrite Hx. now rewrite IH.
Qed.

Lemma split_first_length (sep : ascii) (s : string) :
  (String.length (split_first sep s) <= String.length s)%nat.
Proof.
  induction s as [|x s IH]; simpl; [lia|].
  destruct (Ascii.eqb x sep); simpl; lia.
Qed.

Lemma split_first_present (sep : ascii) (s : string) :
  contains sep s = true -> (String.length (split_first sep s) < String.length s)%nat.
Proof.
  induction s as [|x s IH]; simpl; [discriminate|].
  destruct (Ascii.eqb x sep); simpl; [lia|].
  intros H. apply IH in H. lia.
Qed.

Lemma split_first_no_sep (sep : ascii) (s : string) :
  contains sep (split_first sep s) = false.
Proof.
  induction s as [|x s IH]; simpl; [reflexivity|].
  destruct (Ascii.eqb x sep) eqn:Hx; simpl; [reflexivity|].
  now rewrite Hx.
Qed.

Lemma strip_prefix_append (p s : string) : strip_prefix p (p ++ s) = Some s.
Proof. induction p as [|x p IH]; simpl; [reflexivity|]. now rewrite Ascii.eqb_refl. Qed.

Lemma strip_prefix_Some (p s f : string) : strip_prefix p s = Some f -> s = p ++ f.
Proof.
  revert s. induction p as [|x p IH]; intros s; simpl.
  - now intros [= ->].
  - destruct s as [|y s]; [discriminate|].
    destruct (Ascii.eqb_spec x y) as [->|]; [|discriminate].
    intros H. now rewrite (IH _ H).
Qed.

(** ** Decimal numerals have digits only *)

Lemma string_of_uint_no_dot (d : Decimal.uint) :
  contains "." (NilEmpty.string_of_uint d) = false.
Proof. induction d; simpl; auto. Qed.

Lemma str_of_int_no_dot (z : Z) : contains "." (str_of_int z) = false.
Proof.
  unfold str_of_int, NilZero.string_of_int, NilZero.string_of_uint.
  destruct (Z.to_int z) as [d|d]; destruct d; simpl; auto using string_of_uint_no_dot.
Qed.

(** ** [%]-formatting of the templates *)

Lemma format_write_file_path (dir : string) (x : Q) (name encoded : string) :
  py_format WRITE_FILE_PATH_TEMPLATE [VStr dir; VFloat x; VStr name; VStr encoded]
  = Some (dir ++ "/backup_" ++ str_of_int (int_of_float x) ++ "_" ++ name ++ "_" ++ encoded).
Proof.
  unfold WRITE_FILE_PATH_TEMPLATE. simpl. now rewrite append_empty_r.
Qed.

Lemma format_correct (path : string) :
  py_format CORRECT_FILE_FORMAT [VStr path] = Some (path ++ ".CORRECT").
Proof. reflexivity. Qed.

Lemma format_wip (path : string) :
  py_format WIP_FILE_FORMAT [VStr path] = Some (path ++ ".WIP").
Proof. reflexivity. Qed.

Lemma format_same (path : string) :
  py_format SAME_FILE_FORMAT [VStr path] = Some (path ++ ".SAME").
Proof. reflexivity. Qed.

Lemma int_of_float_utc_timestamp (now : datetime) :
  int_of_float (utc_timestamp now) = Z.quot now 1000000.
Proof.
  unfold int_of_float, utc_timestamp. simpl. now rewrite Z.mul_1_r.
Qed.

(** ** Base64 *)

Lemma list_ind3 {A} (P : list A -> Prop) :
  P [] -> (forall a, P [a]) -> (forall a b, P [a; b]) ->
  (forall a b c r, P r -> P (a :: b :: c :: r)) ->
  forall l, P l.
Proof.
  intros H0 H1 H2 H3 l.
  cut (P l /\ (forall a, P (a :: l)) /\ (forall a b, P (a :: b :: l))).
  { intros H; apply H. }
  induction l as [|x l (IHa & IHb & IHc)]; [auto|].
  repeat split; auto.
Qed.

Lemma b64_digit_no_dot (i : N) : Ascii.eqb (b64_digit i) "." = false.
Proof.
  unfold b64_digit. generalize (N.to_nat (i mod 64)). intros n.
  do 64 (destruct n as [|n]; [reflexivity|]). reflexivity.
Qed.

Lemma b2a_base64_no_dot (bs : list N) : contains "." (b2a_base64 bs) = false.
Proof.
  induction bs as [|a|a b|a b c r IH] using list_ind3;
    cbn [b2a_base64 contains]; rewrite ?b64_digit_no_dot, ?IH; reflexivity.
Qed.

Lemma translate_no_dot (s : string) :
  contains "." (translate "-" "_" s) = contains "." s.
Proof.
  induction s as [|c s IH]; simpl; [reflexivity|]. rewrite IH. f_equal.
  destruct (Ascii.eqb_spec c "+") as [->|]; [reflexivity|].
  destruct (Ascii.eqb_spec c "/") as [->|]; reflexivity.
Qed.

Lemma safe_base64_no_dot (text encoded : string) :
  safe_base64 text = Some encoded -> contains "." encoded = false.
Proof.
  unfold safe_base64, b64encode. destruct (bytes_ascii text) as [bs|]; [|discriminate].
  intros [= <-]. rewrite translate_no_dot. apply b2a_base64_no_dot.
Qed.

Lemma translate_no_slash (s : string) : contains "/" (translate "-" "_" s) = false.
Proof.
  induction s as [|c s IH]; simpl; [reflexivity|]. rewrite IH.
  destruct (Ascii.eqb_spec c "+") as [->|]; [reflexivity|].
  destruct (Ascii.eqb_spec c "/") as [->|Hc]; [reflexivity|].
  rewrite orb_false_r. now apply Ascii.eqb_neq.
Qed.

Lemma safe_base64_no_slash (text encoded : string) :
  safe_base64 text = Some encoded -> contains "/" encoded = false.
Proof.
  unfold safe_base64, b64encode. destruct (bytes_ascii text) as [bs|]; [|discriminate].
  intros [= <-]. apply translate_no_slash.
Qed.

(** ** [should_run] *)

Lemma should_run_iff (now : datetime) (t : ScheduledTask) :
  should_run now t = true <->
  last_backup t = None \/
  exists lb, last_backup t = Some lb /\
             SECONDS_TO_MINUTES * frequency t < seconds (datetime_sub now lb).
Proof.
  unfold should_run, Qgtb, Qle_bool, SECONDS_TO_MINUTES.
  destruct (last_backup t) as [lb|]; [|intuition].
  simpl. change (Z.pos (1 * 60)) with 60. rewrite negb_true_iff, Z.leb_gt.
  split.
  - intros H. right. exists lb. split; [reflexivity|].
    lia.
  - intros [|(lb' & [= <-] & H)]; [discriminate|].
    lia.
Qed.

Lemma seconds_range (d : Z) : 0 <= seconds (timedelta_of_micros d) < 86400.
Proof.
  unfold timedelta_of_micros, MICROS_PER_DAY; simpl.
  change (86400 * 1000000) with 86400000000.
  pose proof (Z.mod_pos_bound d 86400000000 ltac:(lia)).
  split; [apply Z.div_pos; lia|].
  apply Z.div_lt_upper_bound; lia.
Qed.

Lemma total_micros (d : Z) :
  (days (timedelta_of_micros d) * 86400 + seconds (timedelta_of_micros d)) * 1000000
  + microseconds (timedelta_of_micros d) = d.
Proof.
  unfold timedelta_of_micros, MICROS_PER_DAY; simpl.
  change (86400 * 1000000) with 86400000000.
  pose proof (Z.div_mod d 86400000000 ltac:(lia)) as Hd.
  pose proof (Z.div_mod (d mod 86400000000) 1000000 ltac:(lia)) as Hs.
  assert (Hm : (d mod 86400000000) mod 1000000 = d mod 1000000).
  { change 86400000000 with (1000000 * 86400).
    rewrite Z.rem_mul_r by lia.
    rewrite (Z.mul_comm 1000000), Z.mod_add by lia. apply Z.mod_mod; lia. }
  lia.
Qed.

Lemma spec_should_run_iff (now : datetime) (t : ScheduledTask) :
  spec_should_run now t = true <->
  last_backup t = None \/
  exists lb, last_backup t = Some lb /\ 60 * 1000000 * frequency t < now - lb.
Proof.
  unfold spec_should_run, elapsed_minutes, Qgtb, Qle_bool, total_seconds, datetime_sub.
  destruct (last_backup t) as [lb|]; [|intuition].
  rewrite total_micros. simpl. change (Z.pos (1 * 1000000 * (1 * 60))) with 60000000.
  rewrite negb_true_iff, Z.leb_gt.
  split.
  - intros H. right. exists lb. split; [reflexivity|]. lia.
  - intros [|(lb' & [= <-] & H)]; [discriminate|]. lia.
Qed.

(** Within a day and for a whole number of seconds, the code and the
    elapsed-minutes reading agree. *)
Lemma should_run_within_a_day (now : datetime) (t : ScheduledTask) (lb : datetime) :
  last_backup t = Some lb ->
  0 <= now - lb < MICROS_PER_DAY ->
  (now - lb) mod 1000000 = 0 ->
  should_run now t = spec_should_run now t.
Proof.
  intros Hlb Hday Hsec.
  apply eq_true_iff_eq. rewrite should_run_iff, spec_should_run_iff.
  pose proof (Z.div_mod (now - lb) 1000000 ltac:(lia)) as Hd.
  assert (Hs : seconds (datetime_sub now lb) = (now - lb) / 1000000).
  { unfold datetime_sub, timedelta_of_micros; simpl. now rewrite (Z.mod_small _ _ Hday). }
  unfold SECONDS_TO_MINUTES.
  split; (intros [H|(lb' & H1 & H2)]; [congruence|]); right; exists lb';
    (split; [exact H1|]); rewrite Hlb in H1; injection H1 as <-;
    rewrite Hs in *; lia.
Qed.

Lemma seconds_after_days (lb k r : Z) :
  0 <= r < MICROS_PER_DAY ->
  seconds (datetime_sub (lb + k * MICROS_PER_DAY + r) lb) = r / 1000000.
Proof.
  intros Hr. unfold datetime_sub, timedelta_of_micros. cbn [seconds].
  replace (lb + k * MICROS_PER_DAY + r - lb) with (r + k * MICROS_PER_DAY) by lia.
  rewrite Z.mod_add by (unfold MICROS_PER_DAY; lia).
  now rewrite Z.mod_small.
Qed.

(** C1 (the code departs from the claim): [k] whole days and [r]
    microseconds after the last backup, with [r] within the frequency,
    [should_run] answers [False] although the elapsed time, in minutes,
    exceeds the frequency: [timedelta.seconds] leaves the days out. *)
Theorem should_run_wraps_after_a_day (t : ScheduledTask) (lb k r : Z) :
  last_backup t = Some lb ->
  1 <= k ->
  0 <= r < MICROS_PER_DAY ->
  r <= 60 * 1000000 * frequency t ->
  60 * 1000000 * frequency t < k * MICROS_PER_DAY + r ->
  let now := lb + k * MICROS_PER_DAY + r in
  should_run now t = false /\
  Qlt (inject_Z (frequency t)) (elapsed_minutes now lb) /\
  spec_should_run now t = true.
Proof.
  intros Hlb Hk Hr Hwithin Helapsed now.
  assert (Hspec : spec_should_run now t = true).
  { apply spec_should_run_iff. right. exists lb. split; [exact Hlb|]. subst now. lia. }
  split; [|split; [|exact Hspec]].
  - destruct (should_run now t) eqn:Hrun; [|reflexivity]. exfalso.
    apply should_run_iff in Hrun as [Hnone|(lb' & Hlb' & Hlt)]; [congruence|].
    rewrite Hlb in Hlb'. injection Hlb' as <-.
    subst now. rewrite seconds_after_days in Hlt by exact Hr.
    unfold SECONDS_TO_MINUTES in Hlt.
    assert (r / 1000000 <= 60 * frequency t); [|lia].
    apply Z.div_le_upper_bound; lia.
  - unfold spec_should_run in Hspec. rewrite Hlb in Hspec.
    unfold Qgtb in Hspec. apply negb_true_iff in Hspec.
    destruct (Qlt_le_dec (inject_Z (frequency t)) (elapsed_minutes now lb)) as [H|H];
      [exact H|].
    apply Qle_bool_iff in H. congruence.
Qed.

Lemma should_run_wraps_after_a_day_witness :
  should_run (MICROS_PER_DAY + 30 * 1000000)
    {| node_name := "n1"; node_address := "127.0.0.1"; node_port := 1234;
       node_path := "/etc"; frequency := 5; last_checksum := "";
       last_backup := Some 0 |} = false.
Proof.
  apply (should_run_wraps_after_a_day
           {| node_name := "n1"; node_address := "127.0.0.1"; node_port := 1234;
              node_path := "/etc"; frequency := 5; last_checksum := "";
              last_backup := Some 0 |} 0 1 (30 * 1000000)).
  - reflexivity.
  - lia.
  - unfold MICROS_PER_DAY. lia.
  - simpl. lia.
  - unfold MICROS_PER_DAY. simpl. lia.
Defined.

(** ** The artifact GC *)

Lemma foldl_union_elem {A} (g : A -> string) (l : list A) (acc : gset string) (x : string) :
  x ∈ foldl (fun acc a => acc ∪ {[ g a ]}) acc l <-> x ∈ acc \/ exists a, a ∈ l /\ x = g a.
Proof.
  revert acc. induction l as [|a l IH]; intros acc; simpl.
  - split; [auto|]. intros [H|(a & Ha & _)]; [exact H|]. inversion Ha.
  - rewrite IH. rewrite elem_of_union, elem_of_singleton. split.
    + intros [[H| ->]|(b & Hb & ->)]; [auto| |].
      * right. exists a. split; [left|reflexivity].
      * right. exists b. split; [now right|reflexivity].
    + intros [H|(b & Hb & ->)]; [auto|].
      apply elem_of_cons in Hb as [->|Hb]; [auto|]. right. now exists b.
Qed.

Lemma foldl_nested_elem {A} (inner : gset string -> A -> gset string)
    (P : A -> string -> Prop) (l : list A) (acc : gset string) (x : string) :
  (forall acc a x, x ∈ inner acc a <-> x ∈ acc \/ P a x) ->
  x ∈ foldl inner acc l <-> x ∈ acc \/ exists a, a ∈ l /\ P a x.
Proof.
  intros Hinner. revert acc. induction l as [|a l IH]; intros acc; simpl.
  - split; [auto|]. intros [H|(a & Ha & _)]; [exact H|]. inversion Ha.
  - rewrite IH, Hinner. split.
    + intros [[H|H]|(b & Hb & H)]; [auto| |].
      * right. exists a. split; [left|exact H].
      * right. exists b. split; [now right|exact H].
    + intros [H|(b & Hb & H)]; [auto|].
      apply elem_of_cons in Hb as [->|Hb]; [auto|]. right. now exists b.
Qed.

Lemma valid_file_prefixes_spec (db : Database) (running : list (node_data * RunningTask))
    (x : string) :
  x ∈ valid_file_prefixes db running <-> Valid db running x.
Proof.
  unfold valid_file_prefixes, Valid.
  rewrite elem_of_union, elem_of_list_to_set, list_elem_of_fmap.
  rewrite (foldl_nested_elem _
             (fun name x => exists task ft,
                  task ∈ get_tasks_for_node db name /\
                  ft ∈ take MAX_FINISHED_TASKS_TO_STORE
                         (get_node_finished_tasks db name (fst task)) /\
                  x = result_path ft)).
  - split.
    + intros [[H|(name & Hn & task & ft & Ht & Hf & ->)]|(e & -> & He)].
      * now apply elem_of_empty in H.
      * left. now exists name, task, ft.
      * right. now exists e.
    + intros [(name & task & ft & Hn & Ht & Hf & ->)|(e & He & ->)].
      * left. right. exists name. split; [exact Hn|]. now exists task, ft.
      * right. now exists e.
  - intros acc name y.
    rewrite (foldl_nested_elem _
               (fun task x => exists ft,
                    ft ∈ take MAX_FINISHED_TASKS_TO_STORE
                           (get_node_finished_tasks db name (fst task)) /\
                    x = result_path ft)).
    + split.
      * intros [H|(task & Ht & ft & Hf & ->)]; [auto|]. right. now exists task, ft.
      * intros [H|(task & ft & Ht & Hf & ->)]; [auto|]. right. exists task. split; [exact Ht|].
        now exists ft.
    + intros acc' task z. apply foldl_union_elem.
Qed.

Lemma dir_entries_spec (dir : string) (files : gmap string string) (f : string) :
  f ∈ dir_entries dir files <->
  entry_name f = true /\ is_Some (files !! (dir ++ "/" ++ f)).
Proof.
  unfold dir_entries. rewrite list_elem_of_omap. split.
  - intros (path & Hin & H).
    apply elem_of_elements, elem_of_dom in Hin.
    destruct (strip_prefix (dir ++ "/") path) as [g|] eqn:Hstrip; [|discriminate].
    destruct (entry_name g) eqn:Hname; [|discriminate].
    injection H as ->. apply strip_prefix_Some in Hstrip. subst path.
    now rewrite append_assoc in Hin.
  - intros [Hname Hfile]. exists (dir ++ "/" ++ f). split.
    + now apply elem_of_elements, elem_of_dom.
    + rewrite <- append_assoc, strip_prefix_append. now rewrite Hname.
Qed.

Lemma dir_entries_NoDup (dir : string) (files : gmap string string) :
  NoDup (dir_entries dir files).
Proof.
  unfold dir_entries. generalize (NoDup_elements (dom files)).
  generalize (elements (dom files)). intros l Hl.
  induction Hl as [|path l Hnotin Hl IH]; simpl; [constructor|].
  destruct (strip_prefix (dir ++ "/") path) as [g|] eqn:Hstrip; [|exact IH].
  destruct (entry_name g) eqn:Hname; [|exact IH].
  constructor; [|exact IH].
  intros Hin. apply list_elem_of_omap in Hin as (path' & Hin' & H).
  destruct (strip_prefix (dir ++ "/") path') as [g'|] eqn:Hstrip'; [|discriminate].
  destruct (entry_name g'); [|discriminate]. injection H as ->.
  apply strip_prefix_Some in Hstrip, Hstrip'. now subst.
Qed.

Lemma foldr_delete_delete (p : string) (paths : list string) (m : gmap string string) :
  foldr delete (delete p m) paths = delete p (foldr delete m paths).
Proof.
  symmetry. apply delete_foldr_delete.
Qed.

(** Removing, one after the other, distinct files that exist. *)
Lemma for_each_os_remove (paths : list string) (st : State) :
  NoDup paths ->
  (forall p, p ∈ paths -> is_Some (fs st !! p)) ->
  for_each paths os_remove st = (Return tt, set_fs (foldr delete (fs st) paths) st).
Proof.
  revert st. induction paths as [|p paths IH]; intros st Hnd Hex; simpl.
  - now destruct st.
  - apply NoDup_cons in Hnd as [Hp Hnd].
    unfold bind, os_remove.
    destruct (Hex p) as [c Hc]; [left|]. rewrite Hc.
    rewrite IH; [|exact Hnd|].
    + simpl. f_equal. unfold set_fs; simpl. f_equal. apply foldr_delete_delete.
    + intros q Hq. simpl. rewrite lookup_delete_ne; [apply Hex; now right|].
      intros ->. contradiction.
Qed.


Lemma clean_backup_path_eq (st : State) :
  _clean_backup_path st = (Return tt, set_fs (foldr delete (fs st) (doomed st)) st).
Proof.
  unfold _clean_backup_path, bind, gets, listdir. simpl.
  set (valid := valid_file_prefixes (database st) (running_tasks st)).
  set (dir := backup_path st).
  set (del := files_to_delete dir valid (dir_entries dir (fs st))).
  assert (Heq : forall l st', for_each l (fun f => os_remove (dir ++ "/" ++ f)) st'
                         = for_each (map (fun f => dir ++ "/" ++ f) l) os_remove st').
  { induction l as [|a l IH]; intros st'; simpl; [reflexivity|].
    unfold bind. destruct (os_remove _ st') as [[[]|e] st'']; [apply IH|reflexivity]. }
  rewrite Heq. apply for_each_os_remove.
  - apply NoDup_fmap_2.
    + intros a b H. apply (String.app_inj dir), (String.app_inj "/") in H. exact H.
    + apply NoDup_filter, dir_entries_NoDup.
  - intros p Hp. apply list_elem_of_fmap in Hp as (f & -> & Hf).
    apply list_elem_of_filter in Hf as [_ Hf]. now apply dir_entries_spec in Hf.
Qed.

Lemma doomed_spec (st : State) (p : string) :
  p ∈ doomed st <->
  exists f, p = backup_path st ++ "/" ++ f /\
            f ∈ dir_entries (backup_path st) (fs st) /\
            ~ Valid (database st) (running_tasks st) (prefix_of_entry (backup_path st) f).
Proof.
  unfold doomed, files_to_delete, prefix_of_entry.
  rewrite list_elem_of_fmap. split.
  - intros (f & -> & Hf). apply list_elem_of_filter in Hf as [Hv Hf].
    exists f. repeat split; [exact Hf|]. now rewrite <- valid_file_prefixes_spec.
  - intros (f & -> & Hf & Hv). exists f. split; [reflexivity|].
    apply list_elem_of_filter. split; [|exact Hf]. now rewrite valid_file_prefixes_spec.
Qed.

Lemma clean_backup_path_lookup (st : State) (p : string) :
  fs (snd (_clean_backup_path st)) !! p
  = if decide (p ∈ doomed st) then None else fs st !! p.
Proof.
  rewrite clean_backup_path_eq. simpl. destruct (decide (p ∈ doomed st)) as [H|H].
  - now apply lookup_foldr_delete.
  - now apply lookup_foldr_delete_not_elem_of.
Qed.


Lemma doomed_entry (st : State) (f : string) :
  backup_path st ++ "/" ++ f ∈ doomed st <->
  f ∈ dir_entries (backup_path st) (fs st) /\
  ~ Valid (database st) (running_tasks st) (prefix_of_entry (backup_path st) f).
Proof.
  rewrite doomed_spec. split.
  - intros (g & Heq & Hg).
    apply (String.app_inj (backup_path st)), (String.app_inj "/") in Heq. now subst g.
  - intros H. now exists f.
Qed.


(** The GC deletes the entries whose prefix is not valid. *)
Lemma gc_deletes_invalid_entry (st : State) (f : string) :
  f ∈ dir_entries (backup_path st) (fs st) ->
  ~ Valid (database st) (running_tasks st) (prefix_of_entry (backup_path st) f) ->
  fs (snd (_clean_backup_path st)) !! (backup_path st ++ "/" ++ f) = None.
Proof.
  intros Hf Hv. rewrite clean_backup_path_lookup.
  rewrite decide_True; [reflexivity|]. now apply doomed_entry.
Qed.



Lemma string_of_uint_no_slash (d : Decimal.uint) :
  contains "/" (NilEmpty.string_of_uint d) = false.
Proof. induction d; simpl; auto. Qed.

Lemma str_of_int_no_slash (z : Z) : contains "/" (str_of_int z) = false.
Proof.
  unfold str_of_int, NilZero.string_of_int, NilZero.string_of_uint.
  destruct (Z.to_int z) as [d|d]; destruct d; simpl; auto using string_of_uint_no_slash.
Qed.

Lemma b64_digit_safe (i : N) :
  contains (if Ascii.eqb (b64_digit i) "+" then "-"%char
            else if Ascii.eqb (b64_digit i) "/" then "_"%char else b64_digit i)
           safe_alphabet = true.
Proof.
  unfold b64_digit. generalize (N.to_nat (i mod 64)). intros n.
  do 64 (destruct n as [|n]; [reflexivity|]). reflexivity.
Qed.

Lemma b64encode_safe (bs : list N) :
  string_forall (fun c => contains c safe_alphabet) (b64encode bs "-" "_") = true.
Proof.
  unfold b64encode.
  induction bs as [|a|a b|a b c r IH] using list_ind3;
    cbn [b2a_base64 translate string_forall]; rewrite ?b64_digit_safe, ?IH; reflexivity.
Qed.

Lemma safe_base64_alphabet (text encoded : string) :
  safe_base64 text = Some encoded ->
  string_forall (fun c => contains c safe_alphabet) encoded = true.
Proof.
  unfold safe_base64. destruct (bytes_ascii text) as [bs|]; [|discriminate].
  intros [= <-]. apply b64encode_safe.
Qed.

Lemma basename_absent (c : ascii) (s : string) :
  contains c s = false -> contains c (basename s) = false.
Proof.
  induction s as [|x s IH]; [reflexivity|].
  cbn [basename contains]. intros H. apply orb_false_iff in H as [Hx Hs].
  destruct (contains "/" s); [now apply IH|].
  destruct (Ascii.eqb x "/"); [exact Hs|].
  cbn [contains]. now rewrite Hx, Hs.
Qed.

Lemma basename_in_dir (c : ascii) (dir f : string) :
  contains c f = false -> contains c (basename (dir ++ "/" ++ f)) = false.
Proof.
  intros Hf. change ("/" ++ f) with (String "/" f).
  induction dir as [|x dir IH].
  - change ("" ++ String "/" f) with (String "/" f). cbn [basename].
    destruct (contains "/" f); [now apply basename_absent|].
    now rewrite Ascii.eqb_refl.
  - change (String x dir ++ String "/" f) with (String x (dir ++ String "/" f)).
    cbn [basename]. rewrite contains_append. cbn [contains].
    rewrite Ascii.eqb_refl, orb_true_r. exact IH.
Qed.

Lemma split_first_append_present (sep : ascii) (s r : string) :
  contains sep s = true -> split_first sep (s ++ r) = split_first sep s.
Proof.
  induction s as [|x s IH]; simpl; [discriminate|].
  destruct (Ascii.eqb x sep); [reflexivity|]. simpl. intros H. now rewrite IH.
Qed.

Lemma sentinel_prefix (dir f sfx : string) :
  contains "." f = false -> sfx ∈ sentinel_suffixes ->
  prefix_of_entry dir (f ++ sfx) = dir ++ "/" ++ f.
Proof.
  intros Hf Hs. unfold prefix_of_entry. do 2 f_equal.
  unfold sentinel_suffixes in Hs. repeat (apply elem_of_cons in Hs as [->|Hs]).
  - rewrite append_empty_r. now apply split_first_absent.
  - now apply split_first_append.
  - now apply split_first_append.
  - now apply split_first_append.
  - inversion Hs.
Qed.

Lemma dotted_prefix (dir f sfx : string) :
  contains "." f = true -> prefix_of_entry dir (f ++ sfx) <> dir ++ "/" ++ f.
Proof.
  intros Hf H. unfold prefix_of_entry in H.
  apply (String.app_inj dir), (String.app_inj "/") in H.
  rewrite split_first_append_present in H by exact Hf.
  pose proof (split_first_present "." f Hf) as Hlt. rewrite H in Hlt. lia.
Qed.

(** ** Dictionaries *)


(** ** The write path *)


Lemma artifact_name_contains (c : ascii) (x : Q) (name encoded : string) :
  contains c "backup_" = false ->
  contains c (str_of_int (int_of_float x)) = false ->
  contains c encoded = false ->
  contains c (artifact_name x name encoded) = contains c name.
Proof.
  intros Hb Hi He. unfold artifact_name.
  assert (Hu : contains c "_" = false).
  { cbn [contains] in *. do 6 (apply orb_false_iff in Hb as [_ Hb]). exact Hb. }
  rewrite !contains_append, Hb, Hi, He, Hu. cbn [orb]. now rewrite orb_false_r.
Qed.

(** C10: the name of a dispatched artifact has a dot exactly when the node
    name has one.  Without a dot in the node name, the base name of the
    write path has none, and the prefix the GC computes for the artifact and
    for each of its sentinels is the write path itself.  With a dot, that
    prefix is never the write path, and the GC deletes the artifact of a
    running task whenever the shortened prefix is not itself valid. *)
Theorem prefix_recovers_write_file_path
    (dir : string) (x : Q) (name path encoded file_path : string) :
  safe_base64 path = Some encoded ->
  py_format WRITE_FILE_PATH_TEMPLATE [VStr dir; VFloat x; VStr name; VStr encoded]
  = Some file_path ->
  let f := artifact_name x name encoded in
  file_path = dir ++ "/" ++ f /\
  string_forall (fun c => contains c safe_alphabet) encoded = true /\
  (contains "." name = false ->
     contains "." (basename file_path) = false /\
     forall sfx, sfx ∈ sentinel_suffixes -> prefix_of_entry dir (f ++ sfx) = file_path) /\
  (contains "." name = true ->
     (forall sfx, sfx ∈ sentinel_suffixes -> prefix_of_entry dir (f ++ sfx) <> file_path) /\
     forall (st : State) (key : node_data) (p : nat),
       backup_path st = dir ->
       contains "/" name = false ->
       (key, {| write_file_path := file_path; process := p |}) ∈ running_tasks st ->
       is_Some (procs st !! p) ->
       is_Some (fs st !! file_path) ->
       ~ Valid (database st) (running_tasks st) (prefix_of_entry dir f) ->
       fs (snd (_clean_backup_path st)) !! file_path = None).
Proof.
  intros Henc Hfmt f. rewrite format_write_file_path in Hfmt. injection Hfmt as <-.
  assert (Hdot : contains "." f = contains "." name).
  { apply artifact_name_contains;
      [reflexivity | apply str_of_int_no_dot | now apply (safe_base64_no_dot path)]. }
  split; [reflexivity|]. split; [now apply (safe_base64_alphabet path)|]. split.
  - intros Hname. rewrite Hname in Hdot. split.
    + now apply basename_in_dir.
    + intros sfx Hs. now apply sentinel_prefix.
  - intros Hname. rewrite Hname in Hdot. split.
    + intros sfx _. now apply dotted_prefix.
    + intros st key p Hdir Hslash Hrun Halive Hfile Hvalid. subst dir.
      apply gc_deletes_invalid_entry; [|exact Hvalid].
      apply dir_entries_spec. split; [|exact Hfile].
      unfold entry_name. apply andb_true_iff. split; [reflexivity|].
      apply negb_true_iff. change (contains "/" (artifact_name x name encoded) = false).
      rewrite artifact_name_contains;
        [exact Hslash | reflexivity | apply str_of_int_no_slash
        | now apply (safe_base64_no_slash path)].
Qed.


Lemma prefix_recovers_write_file_path_witness :
  (contains "." (basename "/b/backup_100_n1_Lw==") = false /\
   prefix_of_entry "/b" ("backup_100_n1_Lw==" ++ ".CORRECT") = "/b/backup_100_n1_Lw==") /\
  fs (snd (_clean_backup_path st_dotted)) !! "/b/backup_100_n.1_Lw==" = None.
Proof.
  split.
  - destruct (prefix_recovers_write_file_path "/b" (utc_timestamp 100750000) "n1" "/"
                "Lw==" "/b/backup_100_n1_Lw==" eq_refl eq_refl) as (_ & _ & H & _).
    destruct (H eq_refl) as [Hb Hs]. split; [exact Hb|].
    apply (Hs ".CORRECT"). unfold sentinel_suffixes. right; right; left.
  - destruct (prefix_recovers_write_file_path "/b" (utc_timestamp 100750000) "n.1" "/"
                "Lw==" "/b/backup_100_n.1_Lw==" eq_refl eq_refl) as (_ & _ & _ & H).
    destruct (H eq_refl) as [_ Hgc].
    apply (Hgc st_dotted ("n.1", "/") 0%nat); try reflexivity.
    + left.
    + vm_compute. eauto.
    + vm_compute. eauto.
    + intros Hv. apply valid_file_prefixes_spec in Hv. revert Hv. vm_compute.
      intros Hv. discriminate Hv.
Defined.

Lemma launch_eq (E : Env) (st : State) (q : list (string * string * string))
    (name path cs : string) (address : string * Z) (encoded : string) :
  pop_right (task_queue st) = Some (q, (name, path, cs)) ->
  get_node_address (database st) name = Some address ->
  safe_base64 path = Some encoded ->
  let file_path :=
    backup_path st ++ "/backup_" ++ str_of_int (Z.quot (clock E (ticks st)) 1000000)
    ++ "_" ++ name ++ "_" ++ encoded in
  let handler :=
    {| NodeHandlerProcess.node_address := fst address;
       NodeHandlerProcess.node_path := path;
       NodeHandlerProcess.node_port := snd address;
       NodeHandlerProcess.write_file_path := file_path;
       NodeHandlerProcess.previous_checksum := cs |} in
  launch E st =
  (Return tt,
   mkState (backup_path st) (database st) (schedule st)
     (dict_set (name, path) {| write_file_path := file_path; process := next_pid st |}
        (running_tasks st))
     q (max_processes st) (fs st)
     (<[next_pid st := ((name, path), handler)]> (procs st))
     (S (next_pid st)) (S (ticks st)) (sent st)).
Proof.
  intros Hpop Haddr Henc file_path handler.
  unfold launch, bind, queue_pop, node_address_of, gets, datetime_now, fmt, start_process,
    modify, ret.
  rewrite Hpop. cbn -[py_format utc_timestamp]. rewrite Haddr, Henc.
  cbn -[py_format utc_timestamp].
  rewrite format_write_file_path, int_of_float_utc_timestamp. reflexivity.
Qed.





(** ** Statements and the properties they keep *)

Section Preserves.
Context (P : State -> Prop).

Lemma preserves_ret {A} (a : A) : preserves P (ret a).
Proof. intros st H. exact H. Qed.

Lemma preserves_raise {A} (e : exn) : preserves P (@raise A e).
Proof. intros st H. exact H. Qed.

Lemma preserves_gets {A} (f : State -> A) : preserves P (gets f).
Proof. intros st H. exact H. Qed.

Lemma preserves_modify (f : State -> State) :
  (forall st, P st -> P (f st)) -> preserves P (modify f).
Proof. intros Hf st H. now apply Hf. Qed.

Lemma preserves_bind {A B} (m : M A) (k : A -> M B) :
  preserves P m -> (forall a, preserves P (k a)) -> preserves P (bind m k).
Proof.
  intros Hm Hk st H. unfold bind. specialize (Hm st H).
  destruct (m st) as [[a|e] st']; simpl in *; [now apply Hk | exact Hm].
Qed.

Lemma preserves_for_each {X} (l : list X) (body : X -> M unit) :
  (forall x, preserves P (body x)) -> preserves P (for_each l body).
Proof.
  intros Hb. induction l as [|x l IH]; simpl; [apply preserves_ret|].
  apply preserves_bind; [apply Hb | intros _; exact IH].
Qed.

Lemma preserves_fold_m {X B} (body : B -> X -> M B) (l : list X) (acc : B) :
  (forall acc x, preserves P (body acc x)) -> preserves P (fold_m body acc l).
Proof.
  intros Hb. revert acc. induction l as [|x l IH]; intros acc; simpl;
    [apply preserves_ret|].
  apply preserves_bind; [apply Hb | intros acc'; apply IH].
Qed.

Lemma preserves_when (b : bool) (m : M unit) : preserves P m -> preserves P (when b m).
Proof. intros Hm. destruct b; [exact Hm | apply preserves_ret]. Qed.

Lemma preserves_fmt (template : string) (args : list pyval) :
  preserves P (fmt template args).
Proof.
  unfold fmt. destruct (py_format template args); [apply preserves_ret | apply preserves_raise].
Qed.

Lemma preserves_isfile (path : string) : preserves P (isfile path).
Proof. apply preserves_gets. Qed.

Lemma preserves_is_running (t : RunningTask) : preserves P (is_running t).
Proof. apply preserves_gets. Qed.

Lemma preserves_read_file (path : string) : preserves P (read_file path).
Proof. intros st H. unfold read_file. now destruct (fs st !! path). Qed.

Lemma preserves_node_address_of (name : string) : preserves P (node_address_of name).
Proof. intros st H. unfold node_address_of. now destruct (get_node_address _ _). Qed.

Lemma preserves_os_remove (path : string) : ignores_fs P -> preserves P (os_remove path).
Proof. intros Hfs st H. unfold os_remove. destruct (fs st !! path); [now apply Hfs | exact H]. Qed.

Lemma preserves_datetime_now (E : Env) : ignores_ticks P -> preserves P (datetime_now E).
Proof. intros Ht st H. now apply Ht. Qed.

Lemma preserves_send (status : string) (data : pyobj) :
  ignores_sent P -> preserves P (send status data).
Proof. intros Hs st H. now apply Hs. Qed.

Lemma preserves_backup_is_correct (t : RunningTask) :
  ignores_fs P -> preserves P (backup_is_correct t).
Proof.
  intros Hfs. unfold backup_is_correct.
  apply preserves_bind; [apply preserves_fmt|]. intros correct.
  apply preserves_bind; [apply preserves_isfile|]. intros [|].
  - apply preserves_bind; [apply preserves_fmt|]. intros correct'.
    apply preserves_bind; [now apply preserves_os_remove|]. intros _. apply preserves_ret.
  - apply preserves_bind; [apply preserves_isfile|]. intros a.
    apply preserves_bind; [now apply preserves_when, preserves_os_remove|]. intros _.
    apply preserves_bind; [apply preserves_fmt|]. intros wip.
    apply preserves_bind; [apply preserves_isfile|]. intros w.
    apply preserves_bind; [|intros _; apply preserves_ret].
    apply preserves_when, preserves_bind; [apply preserves_fmt|]. intros wip'.
    now apply preserves_os_remove.
Qed.

Lemma preserves_backup_is_same (t : RunningTask) :
  ignores_fs P -> preserves P (backup_is_same t).
Proof.
  intros Hfs. unfold backup_is_same.
  apply preserves_bind; [apply preserves_fmt|]. intros same.
  apply preserves_bind; [apply preserves_isfile|]. intros [|]; [|apply preserves_ret].
  apply preserves_bind; [apply preserves_fmt|]. intros same'.
  apply preserves_bind; [now apply preserves_os_remove|]. intros _. apply preserves_ret.
Qed.

Lemma preserves_clean_backup_path : ignores_fs P -> preserves P _clean_backup_path.
Proof.
  intros Hfs. unfold _clean_backup_path.
  apply preserves_bind; [apply preserves_gets|]. intros valid.
  apply preserves_bind; [apply preserves_gets|]. intros dir.
  apply preserves_bind; [apply preserves_gets|]. intros files.
  apply preserves_for_each. intros f. now apply preserves_os_remove.
Qed.
End Preserves.

Lemma preserves_reload_schedule (P : State -> Prop) :
  ignores_schedule P -> preserves P _reload_schedule.
Proof.
  intros Hs. unfold _reload_schedule.
  apply preserves_bind; [apply preserves_modify; intros st H; now apply Hs|]. intros _.
  apply preserves_bind; [apply preserves_gets|]. intros names.
  apply preserves_for_each. intros name.
  apply preserves_bind; [apply preserves_node_address_of|]. intros address.
  apply preserves_bind; [apply preserves_gets|]. intros tasks.
  apply preserves_for_each. intros task.
  apply preserves_bind; [apply preserves_gets|]. intros finished_tasks.
  apply preserves_modify. intros st H. now apply Hs.
Qed.

(** ** Control requests *)

Lemma client_request_try_sent (E : Env) (request : pyobj) (st : State) :
  sent (snd (client_request_try E request st)) = sent st.
Proof.
  unfold client_request_try.
  destruct (unpack2 request) as [[command args]|e]; [|reflexivity].
  destruct (parse_command E command args (database st)) as [db' [[data changed]|e]];
    [|reflexivity].
  set (st1 := set_database db' st).
  assert (H : sent (snd (when changed (_reload_schedule ;; _clean_backup_path) st1)) = sent st).
  { apply (preserves_when (fun s => sent s = sent st)); [|reflexivity].
    apply preserves_bind.
    - apply preserves_reload_schedule. intros s v Hs. exact Hs.
    - intros _. apply preserves_clean_backup_path. intros s v Hs. exact Hs. }
  destruct (when changed (_reload_schedule ;; _clean_backup_path) st1) as [[[]|e] st2];
    exact H.
Qed.

Lemma client_request_try_returns (E : Env) (request : pyobj) (st : State) :
  exists r, fst (client_request_try E request st) = Return r.
Proof.
  unfold client_request_try.
  destruct (unpack2 request) as [[command args]|e]; [|eauto].
  destruct (parse_command E command args (database st)) as [db' [[data changed]|e]];
    [|eauto].
  destruct (when changed (_reload_schedule ;; _clean_backup_path) (set_database db' st))
    as [[[]|e] st2]; eauto.
Qed.

(** What [_handle_client_request] sends, by the way its [try] block ends. *)
Lemma handle_client_request_sent (E : Env) (request : pyobj) (st : State)
    (data : pyobj) (caught : option exn) :
  fst (client_request_try E request st) = Return (data, caught) ->
  sent (snd (_handle_client_request E request st))
  = (sent st ++ match caught with
                | Some e => [(("Error " ++ str_exn e ++ ":")%string, data); ("OK", data)]
                | None => [("OK", data)]
                end)%list.
Proof.
  intros Htry. unfold _handle_client_request, bind.
  pose proof (client_request_try_sent E request st) as Hsent.
  destruct (client_request_try E request st) as [r st1]. simpl in Htry, Hsent.
  subst r. cbn [snd fst]. destruct caught as [e|]; simpl.
  - rewrite Hsent, <- app_assoc. reflexivity.
  - now rewrite Hsent.
Qed.

(** C2 (the code departs from the claim): when the adapter raises, the
    request gets two replies, the error envelope and then an ["OK"] with
    the same data. *)
Theorem handle_client_request_error_replies (E : Env) (request command args : pyobj)
    (st : State) (db' : Database) (e : exn) :
  unpack2 request = Return (command, args) ->
  parse_command E command args (database st) = (db', Raise e) ->
  fst (_handle_client_request E request st) = Return tt /\
  sent (snd (_handle_client_request E request st))
  = (sent st ++ [(("Error " ++ str_exn e ++ ":")%string, PNone); ("OK", PNone)])%list.
Proof.
  intros Hunpack Hparse. split.
  - unfold _handle_client_request, bind, client_request_try. now rewrite Hunpack, Hparse.
  - apply (handle_client_request_sent E request st PNone (Some e)).
    unfold client_request_try. now rewrite Hunpack, Hparse.
Qed.

(** When the [try] block ends normally, the only reply is [("OK", data)]. *)
Lemma handle_client_request_ok_reply (E : Env) (request command args : pyobj)
    (st : State) (db' : Database) (data : pyobj) :
  unpack2 request = Return (command, args) ->
  parse_command E command args (database st) = (db', Return (data, false)) ->
  sent (snd (_handle_client_request E request st)) = (sent st ++ [("OK", data)])%list.
Proof.
  intros Hunpack Hparse.
  apply (handle_client_request_sent E request st data None).
  unfold client_request_try. now rewrite Hunpack, Hparse.
Qed.

Lemma handle_client_request_error_replies_witness :
  sent (snd (_handle_client_request (env_at 0)
               (PTuple [PStr "dummy"; PDict [("one", PStr "one")]])
               (__init__ "/b" db_one 2 ∅)))
  = [("Error unknown command:", PNone); ("OK", PNone)].
Proof.
  apply (handle_client_request_error_replies (env_at 0)
           (PTuple [PStr "dummy"; PDict [("one", PStr "one")]])
           (PStr "dummy") (PDict [("one", PStr "one")])
           (__init__ "/b" db_one 2 ∅) db_one (CommandError "unknown command")
           eq_refl eq_refl).
Defined.

(** ** Reaping *)

Lemma append_neq_self (a b : string) : b <> "" -> a ++ b <> a.
Proof.
  intros Hb H. apply (f_equal String.length) in H. rewrite length_append in H.
  destruct b; [congruence|]. simpl in H. lia.
Qed.

(** Without a [.CORRECT] sentinel, [backup_is_correct] answers [False] and
    touches the artifact and the [.WIP] sentinel only. *)
Lemma backup_is_correct_absent (t : RunningTask) (st : State) :
  fs st !! (write_file_path t ++ ".CORRECT") = None ->
  exists files,
    backup_is_correct t st = (Return false, set_fs files st) /\
    forall p, p <> write_file_path t -> p <> write_file_path t ++ ".WIP" ->
              files !! p = fs st !! p.
Proof.
  intros Hc. unfold backup_is_correct, bind, fmt, isfile, gets, when, os_remove, ret.
  rewrite format_correct, format_wip. cbn [fst snd]. rewrite Hc.
  rewrite bool_decide_eq_false_2 by (intros [? ?]; discriminate).
  destruct (fs st !! write_file_path t) as [a|] eqn:Ha.
  - rewrite bool_decide_eq_true_2 by eauto. rewrite Ha. cbn [fs set_fs].
    destruct (delete (write_file_path t) (fs st) !! (write_file_path t ++ ".WIP"))
      as [w|] eqn:Hw.
    + rewrite bool_decide_eq_true_2 by eauto. cbn. rewrite Hw.
      eexists. split; [reflexivity|].
      intros p H1 H2. now rewrite !lookup_delete_ne by congruence.
    + rewrite bool_decide_eq_false_2 by (intros [? ?]; discriminate).
      eexists. split; [reflexivity|].
      intros p H1 H2. now rewrite lookup_delete_ne by congruence.
  - rewrite bool_decide_eq_false_2 by (intros [? ?]; discriminate).
    destruct (fs st !! (write_file_path t ++ ".WIP")) as [w|] eqn:Hw.
    + rewrite bool_decide_eq_true_2 by eauto. rewrite Hw.
      eexists. split; [reflexivity|].
      intros p H1 H2. now rewrite lookup_delete_ne by congruence.
    + rewrite bool_decide_eq_false_2 by (intros [? ?]; discriminate).
      exists (fs st). split; [destruct st; reflexivity|]. reflexivity.
Qed.

Lemma backup_is_same_present (t : RunningTask) (st : State) :
  is_Some (fs st !! (write_file_path t ++ ".SAME")) ->
  backup_is_same t st
  = (Return true, set_fs (delete (write_file_path t ++ ".SAME") (fs st)) st).
Proof.
  intros [s Hs]. unfold backup_is_same, bind, fmt, isfile, gets, os_remove, ret.
  rewrite format_same. cbn [fst snd]. rewrite Hs.
  rewrite bool_decide_eq_true_2 by eauto. now rewrite Hs.
Qed.

Lemma reap_same_without_history (E : Env) (key : node_data) (task : RunningTask)
    (st : State) :
  fs st !! (write_file_path task ++ ".CORRECT") = None ->
  is_Some (fs st !! (write_file_path task ++ ".SAME")) ->
  get_node_finished_tasks (database st) (fst key) (snd key) = [] ->
  fst (reap E key task st) = Raise (IndexError "list index out of range").
Proof.
  intros Hc Hs Hdb. unfold reap, bind.
  destruct (backup_is_correct_absent task st Hc) as (files & -> & Hfiles).
  rewrite backup_is_same_present.
  - unfold gets. cbn. now rewrite Hdb.
  - cbn. rewrite Hfiles; [exact Hs| |].
    + apply append_neq_self. discriminate.
    + intros H. apply String.app_inj in H. discriminate.
Qed.

(** The tasks that are still running go to the new dictionary; the state
    does not change. *)
Lemma dispatch_alive_prefix (E : Env) (pre rest : list (node_data * RunningTask))
    (acc : list (node_data * RunningTask)) (st : State) :
  Forall (fun entry => is_Some (procs st !! process (snd entry))) pre ->
  let body := fun now_running entry =>
                alive <- is_running (snd entry) ;;
                if negb alive
                then reap E (fst entry) (snd entry) ;; ret now_running
                else ret (dict_set (fst entry) (snd entry) now_running) in
  exists acc', fold_m body acc (pre ++ rest)%list st = fold_m body acc' rest st.
Proof.
  intros Hpre body. revert acc.
  induction Hpre as [|entry pre Halive Hpre IH]; intros acc; [now exists acc|].
  simpl. unfold bind at 1. unfold body at 1, bind, is_running, gets.
  rewrite bool_decide_eq_true_2 by exact Halive. cbn. apply IH.
Qed.

(** C8: when the scheduler reaps a worker that has ended and left a
    [.SAME] sentinel (and no [.CORRECT] one) while the store has no finished
    task for its (node, path), taking the head of the empty history raises
    [IndexError], which ends the turn of the loop. *)
Theorem same_without_history_is_fatal (E : Env) (st : State) (key : node_data)
    (task : RunningTask) (pre post : list (node_data * RunningTask)) :
  running_tasks st = (pre ++ (key, task) :: post)%list ->
  Forall (fun entry => is_Some (procs st !! process (snd entry))) pre ->
  procs st !! process task = None ->
  fs st !! (write_file_path task ++ ".CORRECT") = None ->
  is_Some (fs st !! (write_file_path task ++ ".SAME")) ->
  get_node_finished_tasks (database st) (fst key) (snd key) = [] ->
  fst (reap E key task st) = Raise (IndexError "list index out of range") /\
  fst (_dispatch_running_tasks E st) = Raise (IndexError "list index out of range") /\
  fst (iteration E None st) = Raise (IndexError "list index out of range").
Proof.
  intros Hrun Hpre Hdead Hc Hs Hdb.
  pose proof (reap_same_without_history E key task st Hc Hs Hdb) as Hreap.
  assert (Hd : fst (_dispatch_running_tasks E st) = Raise (IndexError "list index out of range")).
  { unfold _dispatch_running_tasks. unfold bind at 1. unfold gets at 1. rewrite Hrun.
    unfold bind at 1.
    destruct (dispatch_alive_prefix E pre ((key, task) :: post) [] st Hpre) as [acc' ->].
    simpl. unfold bind at 1. unfold bind at 1. unfold is_running, gets. cbn [snd fst].
    rewrite Hdead. rewrite bool_decide_eq_false_2 by (intros [? ?]; discriminate).
    cbn [negb]. unfold bind at 1.
    destruct (reap E key task st) as [[[]|e] st']; simpl in Hreap; [discriminate|].
    now injection Hreap as ->. }
  split; [exact Hreap|]. split; [exact Hd|].
  unfold iteration. unfold bind at 1. unfold ret at 1. unfold bind at 1.
  destruct (_dispatch_running_tasks E st) as [[[]|e] st']; simpl in Hd; [discriminate|].
  now injection Hd as ->.
Qed.


Lemma same_without_history_is_fatal_witness :
  fst (iteration (env_at 100750000) None st_same)
  = Raise (IndexError "list index out of range").
Proof.
  apply (same_without_history_is_fatal (env_at 100750000) st_same ("n1", "/")
           {| write_file_path := "/b/backup_100_n1_Lw=="; process := 0 |} [] []).
  - reflexivity.
  - constructor.
  - reflexivity.
  - reflexivity.
  - vm_compute. eauto.
  - reflexivity.
Defined.

(** ** Rules for triples *)

Section Hoare.
Context (X : State -> Prop).

Lemma hoare_ret {A} (P : State -> Prop) (a : A) : hoare P (ret a) (fun b st => b = a /\ P st) X.
Proof. intros st H. now split. Qed.

Lemma hoare_raise {A} (e : exn) : hoare X (@raise A e) (fun _ _ => False) X.
Proof. intros st H. exact H. Qed.

Lemma hoare_gets {A} (P : State -> Prop) (f : State -> A) :
  hoare P (gets f) (fun a st => a = f st /\ P st) X.
Proof. intros st H. now split. Qed.


Lemma hoare_bind {A B} (P : State -> Prop) (Q : A -> State -> Prop)
    (R : B -> State -> Prop) (m : M A) (k : A -> M B) :
  hoare P m Q X -> (forall a, hoare (Q a) (k a) R X) -> hoare P (bind m k) R X.
Proof.
  intros Hm Hk st H. unfold bind. specialize (Hm st H).
  destruct (m st) as [[a|e] st']; [now apply Hk | exact Hm].
Qed.

Lemma hoare_conseq {A} (P P' : State -> Prop) (Q Q' : A -> State -> Prop) (m : M A) :
  hoare P' m Q' X -> (forall st, P st -> P' st) -> (forall a st, Q' a st -> Q a st) ->
  hoare P m Q X.
Proof.
  intros Hm HP HQ st H. specialize (Hm st (HP st H)).
  destruct (m st) as [[a|e] st']; [now apply HQ | exact Hm].
Qed.

(** A fact in the precondition that does not depend on the state. *)
Lemma hoare_assume {A} (fact : Prop) (P : State -> Prop) (Q : A -> State -> Prop)
    (m : M A) :
  (fact -> hoare P m Q X) -> hoare (fun st => fact /\ P st) m Q X.
Proof. intros Hm st [Hf H]. now apply Hm. Qed.

(** A statement that keeps [P], when [P] is also what must hold if it
    raises. *)
Lemma hoare_preserves {A} (P : State -> Prop) (m : M A) :
  preserves P m -> (forall st, P st -> X st) -> hoare P m (fun _ => P) X.
Proof.
  intros Hm HX st H. specialize (Hm st H).
  destruct (m st) as [[a|e] st']; [exact Hm | now apply HX].
Qed.

Lemma hoare_for_each {T} (I : State -> Prop) (l : list T) (body : T -> M unit) :
  (forall x, x ∈ l -> hoare I (body x) (fun _ => I) X) ->
  hoare I (for_each l body) (fun _ => I) X.
Proof.
  induction l as [|x l IH]; intros Hb; simpl.
  - intros st H. exact H.
  - apply hoare_bind with (Q := fun _ => I); [apply Hb; left|].
    intros _. apply IH. intros y Hy. apply Hb. now right.
Qed.

Lemma hoare_fold_m {T B} (I : list T -> B -> State -> Prop) (body : B -> T -> M B)
    (l : list T) :
  forall done acc,
  (forall pre x post acc, done ++ l = pre ++ x :: post ->
      hoare (I pre acc) (body acc x) (fun acc' => I (pre ++ [x]) acc') X)%list ->
  hoare (I done acc) (fold_m body acc l) (fun acc' => I (done ++ l)%list acc') X.
Proof.
  induction l as [|x l IH]; intros done acc Hb; simpl.
  - intros st H. now rewrite app_nil_r.
  - apply hoare_bind with (Q := fun acc' => I (done ++ [x])%list acc').
    + now apply (Hb done x l).
    + intros acc'. replace (done ++ x :: l)%list with ((done ++ [x]) ++ l)%list
        by now rewrite <- app_assoc.
      apply IH. intros pre y post acc'' Heq. apply (Hb pre y post).
      now rewrite <- Heq, <- app_assoc.
Qed.
End Hoare.

(** A triple gives what holds in the final state. *)
Lemma hoare_final {A} (P Q : State -> Prop) (m : M A) (st : State) :
  hoare P m (fun _ => Q) Q -> P st -> Q (snd (m st)).
Proof. intros Hm H. specialize (Hm st H). now destruct (m st) as [[a|e] st']. Qed.

Lemma preserves_reap (P : State -> Prop) (E : Env) (key : node_data) (task : RunningTask) :
  ignores_fs P -> ignores_ticks P -> ignores_schedule P -> ignores_database P ->
  preserves P (reap E key task).
Proof.
  intros Hfs Hticks Hsched Hdb. unfold reap.
  apply preserves_bind; [now apply preserves_backup_is_correct|]. intros [|].
  - apply preserves_bind; [apply preserves_read_file|]. intros sized.
    apply preserves_bind; [now apply preserves_datetime_now|]. intros now.
    apply preserves_bind; [apply preserves_read_file|]. intros hashed.
    apply preserves_bind; [apply preserves_modify; intros st H; now apply Hdb|]. intros _.
    apply preserves_bind; [now apply preserves_reload_schedule|]. intros _.
    now apply preserves_clean_backup_path.
  - apply preserves_bind; [now apply preserves_backup_is_same|]. intros [|];
      [|apply preserves_ret].
    apply preserves_bind; [apply preserves_gets|]. intros [|ft fts];
      [apply preserves_raise|].
    apply preserves_bind; [now apply preserves_datetime_now|]. intros now.
    apply preserves_bind; [apply preserves_modify; intros st H; now apply Hdb|]. intros _.
    apply preserves_bind; [now apply preserves_reload_schedule|]. intros _.
    now apply preserves_clean_backup_path.
Qed.

Lemma preserves_startup (P : State -> Prop) :
  ignores_fs P -> ignores_schedule P -> preserves P startup.
Proof.
  intros Hfs Hsched. unfold startup.
  apply preserves_bind; [now apply preserves_reload_schedule|]. intros _.
  now apply preserves_clean_backup_path.
Qed.

Lemma preserves_client_request_try (P : State -> Prop) (E : Env) (request : pyobj) :
  ignores_fs P -> ignores_schedule P -> ignores_database P ->
  preserves P (client_request_try E request).
Proof.
  intros Hfs Hsched Hdb st H. unfold client_request_try.
  destruct (unpack2 request) as [[command args]|e]; [|exact H].
  destruct (parse_command E command args (database st)) as [db' [[data changed]|e]];
    [|now apply Hdb].
  assert (H1 : P (snd (when changed (_reload_schedule ;; _clean_backup_path)
                         (set_database db' st)))).
  { apply preserves_when; [|now apply Hdb].
    apply preserves_bind; [now apply preserves_reload_schedule|]. intros _.
    now apply preserves_clean_backup_path. }
  now destruct (when changed (_reload_schedule ;; _clean_backup_path) (set_database db' st))
    as [[[]|e] st2].
Qed.

Lemma preserves_handle_client_request (P : State -> Prop) (E : Env) (request : pyobj) :
  ignores_fs P -> ignores_schedule P -> ignores_database P -> ignores_sent P ->
  preserves P (_handle_client_request E request).
Proof.
  intros Hfs Hsched Hdb Hsent. unfold _handle_client_request.
  apply preserves_bind; [now apply preserves_client_request_try|]. intros [data caught].
  apply preserves_bind; [|intros _; now apply preserves_send].
  destruct caught as [e|]; [|apply preserves_ret].
  apply preserves_bind; [apply preserves_fmt|]. intros status. now apply preserves_send.
Qed.

(** ** The concurrency bound *)

Lemma dict_set_length {K V} `{EqDecision K} (k : K) (v : V) (d : list (K * V)) :
  (length (dict_set k v d) <= S (length d))%nat.
Proof.
  induction d as [|[k' v'] d IH]; simpl; [lia|].
  destruct (decide (k = k')); simpl; lia.
Qed.

Lemma pop_right_None {A} (l : list A) : pop_right l = None -> l = [].
Proof.
  destruct l as [|y l]; [reflexivity|]. simpl.
  destruct (pop_right l) as [[r z]|]; discriminate.
Qed.

Lemma pop_right_app {A} (q : list A) (x : A) : pop_right (q ++ [x])%list = Some (q, x).
Proof. induction q as [|y q IH]; simpl; [reflexivity|]. now rewrite IH. Qed.

Lemma pop_right_spec {A} (l q : list A) (x : A) :
  pop_right l = Some (q, x) <-> l = (q ++ [x])%list.
Proof.
  split; [|intros ->; apply pop_right_app].
  revert q. induction l as [|y l IH]; intros q; simpl; [discriminate|].
  destruct (pop_right l) as [[r z]|] eqn:Hpop.
  - intros [= <- <-]. simpl. f_equal. now apply IH.
  - intros [= <- <-]. apply pop_right_None in Hpop. now subst l.
Qed.

(** How a call of [launch] ends: it raises with nothing but the queue and
    the clock touched, or it returns with the task started. *)
Lemma launch_cases (E : Env) (st : State) :
  (exists e, launch E st = (Raise e, st)) \/
  exists q name path cs,
    pop_right (task_queue st) = Some (q, (name, path, cs)) /\
    ((exists e, launch E st = (Raise e, set_task_queue q st)) \/
     (exists e, launch E st = (Raise e, set_ticks (S (ticks st)) (set_task_queue q st))) \/
     exists address encoded,
       get_node_address (database st) name = Some address /\
       safe_base64 path = Some encoded /\
       launch E st =
       (Return tt,
        mkState (backup_path st) (database st) (schedule st)
          (dict_set (name, path)
             {| write_file_path :=
                  backup_path st ++ "/backup_"
                  ++ str_of_int (Z.quot (clock E (ticks st)) 1000000)
                  ++ "_" ++ name ++ "_" ++ encoded;
                process := next_pid st |}
             (running_tasks st))
          q (max_processes st) (fs st)
          (<[next_pid st :=
               ((name, path),
                {| NodeHandlerProcess.node_address := fst address;
                   NodeHandlerProcess.node_path := path;
                   NodeHandlerProcess.node_port := snd address;
                   NodeHandlerProcess.write_file_path :=
                     backup_path st ++ "/backup_"
                     ++ str_of_int (Z.quot (clock E (ticks st)) 1000000)
                     ++ "_" ++ name ++ "_" ++ encoded;
                   NodeHandlerProcess.previous_checksum := cs |})]> (procs st))
          (S (next_pid st)) (S (ticks st)) (sent st))).
Proof.
  destruct (pop_right (task_queue st)) as [[q [[name path] cs]]|] eqn:Hpop.
  - right. exists q, name, path, cs. split; [reflexivity|].
    destruct (get_node_address (database st) name) as [address|] eqn:Haddr.
    + destruct (safe_base64 path) as [encoded|] eqn:Henc.
      * right. right. exists address, encoded. repeat split; try assumption.
        now apply launch_eq.
      * right. left. eexists.
        unfold launch, bind, queue_pop, node_address_of, gets, datetime_now.
        rewrite Hpop. cbn -[py_format utc_timestamp]. rewrite Haddr, Henc. reflexivity.
    + left. eexists.
      unfold launch, bind, queue_pop, node_address_of.
      rewrite Hpop. cbn. rewrite Haddr. reflexivity.
  - left. eexists. unfold launch, bind, queue_pop. rewrite Hpop. reflexivity.
Qed.

Lemma launch_length (E : Env) (st : State) :
  (length (running_tasks (snd (launch E st))) <= S (length (running_tasks st)))%nat /\
  max_processes (snd (launch E st)) = max_processes st.
Proof.
  destruct (launch_cases E st) as [[e ->]|(q & name & path & cs & _ & H)].
  - simpl. lia.
  - destruct H as [[e ->]|[[e ->]|(address & encoded & _ & _ & ->)]]; simpl;
      try (split; [lia|reflexivity]).
    split; [apply dict_set_length|reflexivity].
Qed.

Lemma launches_length (E : Env) (n : nat) (a : nat) (st : State) :
  let st' := snd (for_each (seq a n) (fun _ => launch E) st) in
  (length (running_tasks st') <= length (running_tasks st) + n)%nat /\
  max_processes st' = max_processes st.
Proof.
  revert a st. induction n as [|n IH]; intros a st; simpl; [lia|].
  unfold bind. pose proof (launch_length E st) as [Hl Hm].
  destruct (launch E st) as [[[]|e] st1]; simpl in *.
  - destruct (IH (S a) st1) as [Hl' Hm']. split; [lia|congruence].
  - split; [lia|exact Hm].
Qed.

Lemma dispatch_running_tasks_length (E : Env) (st : State) :
  (length (running_tasks (snd (_dispatch_running_tasks E st)))
   <= length (running_tasks st))%nat /\
  max_processes (snd (_dispatch_running_tasks E st)) = max_processes st.
Proof.
  set (r0 := running_tasks st). set (m0 := max_processes st).
  set (Q := fun s : State =>
              (length (running_tasks s) <= length r0)%nat /\ max_processes s = m0).
  set (P := fun s : State => running_tasks s = r0 /\ max_processes s = m0).
  assert (HPQ : forall s, P s -> Q s).
  { intros s [Hr Hm]. split; [rewrite Hr; lia|exact Hm]. }
  apply (hoare_final P Q); [|now split].
  unfold _dispatch_running_tasks.
  apply hoare_bind with (Q := fun running s => running = r0 /\ P s).
  { eapply hoare_conseq; [apply hoare_gets| |]; [intros s H; exact H|].
    intros a s [-> H]. split; [apply H|exact H]. }
  intros running. apply hoare_assume. intros ->.
  apply hoare_bind
    with (Q := fun acc s => (length acc <= length r0)%nat /\ P s).
  - eapply hoare_conseq.
    + apply (hoare_fold_m Q
               (fun (done : list (node_data * RunningTask)) acc s =>
                  (length acc <= length done)%nat /\ P s) _ r0 [] []).
      intros pre x post acc _.
      apply hoare_bind with (Q := fun _ s => (length acc <= length pre)%nat /\ P s).
      * apply hoare_preserves; [apply preserves_is_running|].
        intros s [_ H]. now apply HPQ.
      * intros alive. destruct (negb alive).
        -- apply hoare_bind with (Q := fun _ s => (length acc <= length pre)%nat /\ P s).
           ++ apply hoare_preserves; [|intros s [_ H]; now apply HPQ].
              apply preserves_reap; intros s v H; exact H.
           ++ intros _. eapply hoare_conseq; [apply hoare_ret| |]; [intros s H; exact H|].
              intros a s [-> [Hl H]]. split; [|exact H]. rewrite length_app. simpl. lia.
        -- eapply hoare_conseq; [apply hoare_ret| |]; [intros s H; exact H|].
           intros a s [-> [Hl H]]. split; [|exact H]. rewrite length_app. simpl.
           pose proof (dict_set_length (fst x) (snd x) acc). lia.
    + intros s H. split; [simpl; lia|exact H].
    + intros acc s [Hl H]. split; [exact Hl|exact H].
  - intros acc. intros s [Hl [Hr Hm]]. simpl. split; [exact Hl|exact Hm].
Qed.

Lemma run_new_tasks_within_bound (E : Env) (st : State) :
  within_bound st -> within_bound (snd (_run_new_tasks E st)).
Proof.
  apply (hoare_final within_bound within_bound).
  unfold _run_new_tasks.
  apply hoare_bind with (Q := fun _ => within_bound).
  { apply hoare_preserves; [apply preserves_gets|auto]. }
  intros sched. apply hoare_for_each. intros sched_task _.
  intros s H. unfold bind at 1. unfold gets at 1.
  destruct (dict_mem _ _); [exact H|].
  unfold bind at 1.
  assert (Hdue : forall s1, within_bound s1 ->
            match should_run_now E sched_task s1 with
            | (Return _, s2) => within_bound s2
            | (Raise _, s2) => within_bound s2
            end).
  { intros s1 H1. unfold should_run_now.
    destruct (last_backup sched_task); [|exact H1]. exact H1. }
  specialize (Hdue s H). destruct (should_run_now E sched_task s) as [[due|e] s1];
    [|exact Hdue].
  unfold bind at 1. unfold gets at 1. unfold bind at 1.
  set (s2 := snd (when (due && negb (bool_decide
                 ((node_name sched_task, node_path sched_task, last_checksum sched_task)
                    ∈ task_queue s1)))
               (modify (fun st0 => set_task_queue
                  ((node_name sched_task, node_path sched_task, last_checksum sched_task)
                     :: task_queue st0) st0)) s1)).
  assert (H2 : within_bound s2 /\
               when (due && negb (bool_decide
                 ((node_name sched_task, node_path sched_task, last_checksum sched_task)
                    ∈ task_queue s1)))
               (modify (fun st0 => set_task_queue
                  ((node_name sched_task, node_path sched_task, last_checksum sched_task)
                     :: task_queue st0) st0)) s1 = (Return tt, s2)).
  { subst s2. destruct (due && _); simpl; split; auto. }
  destruct H2 as [H2 ->]. unfold bind at 1. unfold gets at 1.
  unfold bind at 1. unfold gets at 1.
  set (rounds := Z.min _ _).
  pose proof (launches_length E (Z.to_nat rounds) 0 s2) as [Hl Hm].
  assert (Hfinal : within_bound
            (snd (for_each (seq 0 (Z.to_nat rounds)) (fun _ => launch E) s2))).
  { unfold within_bound in *. rewrite Hm. subst rounds. lia. }
  now destruct (for_each (seq 0 (Z.to_nat rounds)) (fun _ => launch E) s2) as [[[]|e] s3].
Qed.

Lemma step_within_bound (E : Env) (st st' : State) :
  step E st st' -> within_bound st -> within_bound st'.
Proof.
  intros Hstep H. destruct Hstep as [st|st request|st|st|st st' Henv].
  - apply preserves_startup; [| |exact H]; intros s v Hs; exact Hs.
  - apply preserves_handle_client_request; [| | | |exact H]; intros s v Hs; exact Hs.
  - destruct (dispatch_running_tasks_length E st) as [Hl Hm].
    unfold within_bound in *. rewrite Hm. lia.
  - now apply run_new_tasks_within_bound.
  - destruct Henv as [st files live _]. exact H.
Qed.

(** C3: with a bound that is not negative, every state the scheduler
    reaches from its initial state, through any interleaving of its
    statements with the workers, has at most [max_processes] running tasks;
    this holds as well in the state in which a statement raises. *)
Theorem running_tasks_within_bound (E : Env) (st0 st : State) :
  initial st0 ->
  0 <= max_processes st0 ->
  reachable E st0 st ->
  Z.of_nat (length (running_tasks st)) <= max_processes st.
Proof.
  intros (dir & db & bound & files & ->) Hbound Hreach.
  change (within_bound st).
  induction Hreach as [|st st' Hreach IH Hstep]; [exact Hbound|].
  now apply (step_within_bound E st st').
Qed.

(** The bound holds after each single dispatch of the inner loop as well. *)
Lemma launch_within_bound (E : Env) (st : State) (n a : nat) :
  (Z.of_nat (length (running_tasks st)) + Z.of_nat n <= max_processes st) ->
  within_bound (snd (for_each (seq a n) (fun _ => launch E) st)).
Proof.
  intros H. destruct (launches_length E n a st) as [Hl Hm].
  unfold within_bound. rewrite Hm. lia.
Qed.

(** ** Dictionaries, continued *)






(** ** One running task per (node, path) *)

Lemma queue_inv_ignores_ticks : ignores_ticks queue_inv.
Proof. intros st v H. exact H. Qed.
Lemma queue_inv_ignores_sent : ignores_sent queue_inv.
Proof. intros st v H. exact H. Qed.
Lemma schedule_inv_ignores_fs : ignores_fs schedule_inv.
Proof. intros st v H. exact H. Qed.
Lemma schedule_inv_ignores_ticks : ignores_ticks schedule_inv.
Proof. intros st v H. exact H. Qed.
Lemma schedule_inv_ignores_sent : ignores_sent schedule_inv.
Proof. intros st v H. exact H. Qed.






















(** A turn of the loop of [__call__] is made of steps. *)
Lemma iteration_reachable (E : Env) (request : option pyobj) (st0 st : State) :
  reachable E st0 st -> reachable E st0 (snd (iteration E request st)).
Proof.
  intros Hreach. unfold iteration.
  assert (H1 : reachable E st0
                 (snd (match request with
                       | Some r => _handle_client_request E r
                       | None => ret tt
                       end st))).
  { destruct request as [r|]; [|exact Hreach].
    eapply reach_step; [exact Hreach|apply step_client]. }
  unfold bind at 1.
  destruct (match request with
            | Some r => _handle_client_request E r
            | None => ret tt
            end st) as [[[]|e] st1]; [|exact H1].
  simpl in H1.
  assert (H2 : reachable E st0 (snd (_dispatch_running_tasks E st1))).
  { eapply reach_step; [exact H1|apply step_reap]. }
  unfold bind at 1. destruct (_dispatch_running_tasks E st1) as [[[]|e] st2]; [|exact H2].
  simpl in H2. eapply reach_step; [exact H2|apply step_run].
Qed.

Lemma running_tasks_within_bound_witness :
  Z.of_nat (length (running_tasks st_c2)) <= max_processes st_c2.
Proof.
  apply (running_tasks_within_bound env_forget st_c0 st_c2).
  - exists "/b", db_three, 2, ∅. reflexivity.
  - simpl. lia.
  - apply iteration_reachable. eapply reach_step; [apply reach_init|apply step_startup].
Defined.





(** ** The worker *)

Example worker_same :
  let w := {| NodeHandlerProcess.sock := connection [NodeHandlerProcess.Data "SAME"];
              NodeHandlerProcess.files := ∅ |} in
  exists w', NodeHandlerProcess.__call__ (fun c => c) 0 test_handler w = Some (Return tt, w') /\
             NodeHandlerProcess.observed test_handler w' = NodeHandlerProcess.SAME.
Proof. eexists. split; [vm_compute; reflexivity|]. vm_compute. reflexivity. Qed.

Example worker_correct :
  let w := {| NodeHandlerProcess.sock :=
                connection [NodeHandlerProcess.Data "DIFF"; NodeHandlerProcess.Data "10";
                            NodeHandlerProcess.Data "abcd"; NodeHandlerProcess.Data "efghij";
                            NodeHandlerProcess.Data "abcdefghij
"];
              NodeHandlerProcess.files := ∅ |} in
  exists w', NodeHandlerProcess.__call__ (fun c => c) 2 test_handler w = Some (Return tt, w') /\
             NodeHandlerProcess.observed test_handler w' = NodeHandlerProcess.CORRECT /\
             NodeHandlerProcess.files w' !! "/tmp/backup_output/out" = Some "abcdefghij" /\
             NodeHandlerProcess.files w' !! "/tmp/backup_output/out.WIP" = None.
Proof. eexists. split; [vm_compute; reflexivity|]. vm_compute. repeat split. Qed.

(** At the end of the stream [recv] returns no byte and leaves the
    connection as it is. *)
Lemma recv_end_of_stream (bufsize : nat) (w : NodeHandlerProcess.world) :
  NodeHandlerProcess.incoming (NodeHandlerProcess.sock w) = [] ->
  NodeHandlerProcess.recv bufsize w = Some (Return "", w).
Proof. intros H. unfold NodeHandlerProcess.recv. now rewrite H. Qed.

Lemma recv_chunk (bufsize : nat) (w : NodeHandlerProcess.world) (b : string)
    (rest : list NodeHandlerProcess.recv_result) :
  NodeHandlerProcess.incoming (NodeHandlerProcess.sock w) = NodeHandlerProcess.Data b :: rest ->
  (String.length b <= bufsize)%nat ->
  exists w', NodeHandlerProcess.recv bufsize w = Some (Return b, w') /\
             NodeHandlerProcess.incoming (NodeHandlerProcess.sock w') = rest /\
             NodeHandlerProcess.connect_error (NodeHandlerProcess.sock w')
             = NodeHandlerProcess.connect_error (NodeHandlerProcess.sock w) /\
             NodeHandlerProcess.send_errors (NodeHandlerProcess.sock w')
             = NodeHandlerProcess.send_errors (NodeHandlerProcess.sock w).
Proof.
  intros H Hlen. unfold NodeHandlerProcess.recv. rewrite H.
  apply Nat.leb_le in Hlen. rewrite Hlen. eexists. split; [reflexivity|].
  repeat split.
Qed.

(** The loop of [_receive_file_in] with bytes still to come and the stream
    at its end: whatever the number of iterations allowed, the loop is still
    running. *)
Lemma receive_loop_end_of_stream (fuel : nat) (file : string) (file_size : Z)
    (w : NodeHandlerProcess.world) :
  0 < file_size ->
  NodeHandlerProcess.incoming (NodeHandlerProcess.sock w) = [] ->
  NodeHandlerProcess.receive_loop fuel file file_size w = None.
Proof.
  intros Hsize. revert w. induction fuel as [|fuel IH]; intros w Hin; simpl.
  - destruct (file_size >? 0) eqn:Hgt; [reflexivity|]. lia.
  - destruct (file_size >? 0) eqn:Hgt; [|lia].
    unfold NodeHandlerProcess.bind. rewrite recv_end_of_stream by exact Hin.
    unfold NodeHandlerProcess.write. cbn [String.length Z.of_nat].
    rewrite Z.sub_0_r. apply IH. exact Hin.
Qed.

Lemma receive_loop_short (chunks : list string) (fuel : nat) (file : string)
    (file_size : Z) (w : NodeHandlerProcess.world) :
  NodeHandlerProcess.incoming (NodeHandlerProcess.sock w)
  = map NodeHandlerProcess.Data chunks ->
  Forall (fun c => (String.length c <= Z.to_nat DEFAULT_SOCKET_BUFFER_SIZE)%nat) chunks ->
  Z.of_nat (total_length chunks) < file_size ->
  NodeHandlerProcess.receive_loop fuel file file_size w = None.
Proof.
  revert fuel file_size w. induction chunks as [|c chunks IH]; intros fuel file_size w Hin Hlen Hsize.
  - apply receive_loop_end_of_stream; [simpl in Hsize; lia|exact Hin].
  - simpl in Hsize. destruct fuel as [|fuel]; simpl.
    + destruct (file_size >? 0) eqn:Hgt; [reflexivity|]. lia.
    + destruct (file_size >? 0) eqn:Hgt; [|lia].
      apply Forall_cons in Hlen as [Hc Hlen].
      destruct (recv_chunk _ w c (map NodeHandlerProcess.Data chunks) Hin Hc)
        as (w' & Hrecv & Hin' & _).
      unfold NodeHandlerProcess.bind at 1. rewrite Hrecv.
      unfold NodeHandlerProcess.bind at 1. unfold NodeHandlerProcess.write at 1.
      apply IH; [exact Hin'|exact Hlen|lia].
Qed.

(** C6 (the code departs from the claim): the node agent answers, announces
    [n] bytes, delivers fewer and closes the connection.  Every further
    [recv] returns no byte, [file_size] stays positive, and the worker never
    ends: whatever the number of iterations allowed, the call is still
    running. *)
Theorem worker_never_ends_on_short_payload
    (get_hash : string -> string) (self : NodeHandlerProcess.t)
    (files0 : gmap string string) (reply size_msg : string) (n : Z)
    (chunks : list string) :
  (String.length reply <= 1024)%nat ->
  (String.length size_msg <= 1024)%nat ->
  decode_utf8 reply = Return reply ->
  reply <> "SAME" ->
  py_int size_msg = Some n ->
  Forall (fun c => (String.length c <= Z.to_nat DEFAULT_SOCKET_BUFFER_SIZE)%nat) chunks ->
  Z.of_nat (total_length chunks) < n ->
  forall fuel,
    NodeHandlerProcess.__call__ get_hash fuel self
      {| NodeHandlerProcess.sock :=
           connection (NodeHandlerProcess.Data reply :: NodeHandlerProcess.Data size_msg
                       :: map NodeHandlerProcess.Data chunks);
         NodeHandlerProcess.files := files0 |}
    = None.
Proof.
  intros Hreply Hsize Hdecode Hsame Hint Hchunks Hshort fuel.
  apply Nat.leb_le in Hreply, Hsize. apply String.eqb_neq in Hsame.
  unfold NodeHandlerProcess.__call__.
  unfold NodeHandlerProcess.bind at 1.
  cbn [NodeHandlerProcess.try NodeHandlerProcess.bind NodeHandlerProcess.connect
       NodeHandlerProcess.sendall NodeHandlerProcess.sock connection
       NodeHandlerProcess.connect_error NodeHandlerProcess.send_errors
       NodeHandlerProcess.set_sock NodeHandlerProcess.incoming
       NodeHandlerProcess.outgoing NodeHandlerProcess.files].
  unfold NodeHandlerProcess.bind at 1.
  cbn [NodeHandlerProcess.recv NodeHandlerProcess.sock NodeHandlerProcess.incoming
       NodeHandlerProcess.set_sock NodeHandlerProcess.connect_error
       NodeHandlerProcess.send_errors NodeHandlerProcess.outgoing NodeHandlerProcess.files].
  rewrite Hreply.
  unfold NodeHandlerProcess.bind at 1. unfold NodeHandlerProcess.lift at 1.
  rewrite Hdecode, Hsame.
  unfold NodeHandlerProcess.bind at 1. unfold NodeHandlerProcess.fmt at 1.
  rewrite format_wip. unfold NodeHandlerProcess.ret at 1.
  unfold NodeHandlerProcess.bind at 1. unfold NodeHandlerProcess.touch at 1.
  unfold NodeHandlerProcess.bind at 1.
  set (w1 := NodeHandlerProcess.set_files _ _).
  assert (Hopen : exists w2,
            NodeHandlerProcess.open_append (NodeHandlerProcess.write_file_path self) w1
            = Some (Return tt, w2) /\
            NodeHandlerProcess.sock w2 = NodeHandlerProcess.sock w1).
  { unfold NodeHandlerProcess.open_append.
    destruct (NodeHandlerProcess.files w1 !! NodeHandlerProcess.write_file_path self);
      eexists; split; reflexivity. }
  destruct Hopen as (w2 & -> & Hsock).
  unfold NodeHandlerProcess.bind at 1. unfold NodeHandlerProcess.try at 1.
  unfold NodeHandlerProcess.bind at 1. unfold NodeHandlerProcess._receive_file_in at 1.
  unfold NodeHandlerProcess.bind at 1.
  destruct (recv_chunk 1024 w2 size_msg (map NodeHandlerProcess.Data chunks))
    as (w3 & -> & Hin3 & Hc3 & Hs3).
  { rewrite Hsock. reflexivity. }
  { now apply Nat.leb_le. }
  rewrite Hint. unfold NodeHandlerProcess.bind at 1. unfold NodeHandlerProcess.ret at 1.
  unfold NodeHandlerProcess.bind at 1. unfold NodeHandlerProcess.sendall at 1.
  rewrite Hs3, Hsock. subst w1.
  cbn [NodeHandlerProcess.send_errors NodeHandlerProcess.sock NodeHandlerProcess.set_files
       NodeHandlerProcess.set_sock].
  rewrite receive_loop_short with (chunks := chunks); [reflexivity| |exact Hchunks|exact Hshort].
  cbn. exact Hin3.
Qed.

Lemma worker_never_ends_on_short_payload_witness :
  NodeHandlerProcess.__call__ (fun c => c) 1000 test_handler
    {| NodeHandlerProcess.sock :=
         connection [NodeHandlerProcess.Data "DIFF"; NodeHandlerProcess.Data "10";
                     NodeHandlerProcess.Data "abcd"];
       NodeHandlerProcess.files := ∅ |}
  = None.
Proof.
  apply (worker_never_ends_on_short_payload (fun c => c) test_handler ∅ "DIFF" "10" 10
           ["abcd"]).
  - simpl. lia.
  - simpl. lia.
  - reflexivity.
  - discriminate.
  - reflexivity.
  - constructor; [vm_compute; lia|constructor].
  - simpl. lia.
Defined.

(** When the announced number of bytes does arrive, the loop ends. *)
Lemma receive_loop_ends_when_served (chunks : list string)
    (rest : list NodeHandlerProcess.recv_result) (file : string) (file_size : Z)
    (w : NodeHandlerProcess.world) :
  NodeHandlerProcess.incoming (NodeHandlerProcess.sock w)
  = (map NodeHandlerProcess.Data chunks ++ rest)%list ->
  Forall (fun c => (String.length c <= Z.to_nat DEFAULT_SOCKET_BUFFER_SIZE)%nat) chunks ->
  file_size <= Z.of_nat (total_length chunks) ->
  exists fuel w', NodeHandlerProcess.receive_loop fuel file file_size w = Some (Return tt, w').
Proof.
  revert file_size w. induction chunks as [|c chunks IH]; intros file_size w Hin Hlen Hsize.
  - exists 0%nat, w. simpl in *. destruct (file_size >? 0) eqn:Hgt; [lia|reflexivity].
  - destruct (Z_le_gt_dec file_size 0) as [Hle|Hgt].
    + exists 0%nat, w. simpl. destruct (file_size >? 0) eqn:Hgt; [lia|reflexivity].
    + apply Forall_cons in Hlen as [Hc Hlen].
      destruct (recv_chunk _ w c (map NodeHandlerProcess.Data chunks ++ rest)%list Hin Hc)
        as (w1 & Hrecv & Hin1 & _).
      set (w2 := NodeHandlerProcess.set_files
                   (<[file := default EmptyString (NodeHandlerProcess.files w1 !! file) ++ c]>
                      (NodeHandlerProcess.files w1)) w1).
      destruct (IH (file_size - Z.of_nat (String.length c)) w2) as (fuel & w' & Hloop);
        [exact Hin1|exact Hlen|simpl in Hsize; lia|].
      exists (S fuel), w'. simpl. destruct (file_size >? 0) eqn:Hgt'; [|lia].
      unfold NodeHandlerProcess.bind at 1. rewrite Hrecv.
      unfold NodeHandlerProcess.bind at 1. unfold NodeHandlerProcess.write at 1.
      exact Hloop.
Qed.

(** ** The scenarios of the specification *)

(** A fresh task is dispatched. *)
Example scenario_fresh_dispatch :
  running_tasks st_fresh
  = [(("n1", "/"), {| write_file_path := "/b/backup_100_n1_Lw=="; process := 0 |})] /\
  task_queue st_fresh = [] /\
  fst <$> procs st_fresh !! 0%nat = Some ("n1", "/").
Proof. vm_compute. repeat split. Qed.

(** A worker that ended with [.CORRECT] is reaped: the sentinel goes, the
    finished task is recorded, the artifact stays. *)
Example scenario_successful_reap :
  let st := snd (iteration (env_at 100750000) None
                   (st_ended [("/b/backup_100_n1_Lw==", "payload");
                              ("/b/backup_100_n1_Lw==.CORRECT", "")])) in
  running_tasks st = [] /\
  map_to_list (fs st) = [("/b/backup_100_n1_Lw==", "payload")] /\
  map (fun ft => (result_path ft, timestamp ft, checksum ft))
      (get_node_finished_tasks (database st) "n1" "/")
  = [("/b/backup_100_n1_Lw==", 100750000, "payload")].
Proof. vm_compute. repeat split. Qed.

(** A worker that ended without sentinel is reaped: the partial files go,
    nothing is recorded, and the task is dispatched again. *)
Example scenario_failed_reap :
  let st := snd (iteration (env_at 100750000) None
                   (st_ended [("/b/backup_100_n1_Lw==", "part");
                              ("/b/backup_100_n1_Lw==.WIP", "")])) in
  map_to_list (fs st) = [] /\
  get_node_finished_tasks (database st) "n1" "/" = [] /\
  running_tasks st
  = [(("n1", "/"), {| write_file_path := "/b/backup_100_n1_Lw=="; process := 1 |})].
Proof. vm_compute. repeat split. Qed.

(** Five due tasks and two slots: two tasks run and three wait. *)
Example scenario_concurrency_bound :
  let st := snd (iteration (env_at 100750000) None (snd (startup (__init__ "/b" db_five 2 ∅)))) in
  map fst (running_tasks st) = [("n1", "/a"); ("n1", "/b")] /\
  task_queue st = [("n1", "/e", ""); ("n1", "/d", ""); ("n1", "/c", "")].
Proof. vm_compute. repeat split. Qed.

(** The GC keeps the tracked artifact and its sentinel and deletes the
    unreferenced file. *)
Example scenario_gc :
  let files : gmap string string :=
    list_to_map [("/b/backup_100_n1_Lw==", "x"); ("/b/backup_100_n1_Lw==.CORRECT", "");
                 ("/b/backup_200_n1_Lw==", "y")] in
  let st := snd (_clean_backup_path (__init__ "/b" db_gc 2 files)) in
  dir_entries "/b" (fs st) = ["backup_100_n1_Lw==.CORRECT"; "backup_100_n1_Lw=="].
Proof. vm_compute. reflexivity. Qed.

(** A worker that ended with [.SAME] is reaped: the newest finished task is
    recorded again with the time of the reap. *)
Example scenario_same :
  let st1 := snd (iteration (env_at 300000000) None (snd (startup (__init__ "/b" db_gc 2 ∅)))) in
  let st2 := set_fs (list_to_map [("/b/backup_300_n1_Lw==.SAME", "")])
               (set_procs ∅ (next_pid st1) st1) in
  let st := snd (iteration (env_at 300000000) None st2) in
  running_tasks st1
  = [(("n1", "/"), {| write_file_path := "/b/backup_300_n1_Lw=="; process := 0 |})] /\
  running_tasks st = [] /\
  map_to_list (fs st) = [] /\
  map (fun ft => (result_path ft, timestamp ft, checksum ft))
      (get_node_finished_tasks (database st) "n1" "/")
  = [("/b/backup_100_n1_Lw==", 300000000, "c"); ("/b/backup_100_n1_Lw==", 100000000, "c")].
Proof. vm_compute. repeat split. Qed.

(** ** [safe_base64] loses nothing *)

Lemma safe_index_digit (i : N) :
  safe_index (safe_digit i) = (i mod 64)%N /\ Ascii.eqb (safe_digit i) "=" = false.
Proof.
  unfold safe_digit, b64_digit.
  assert (H : (i mod 64 < 64)%N) by (apply N.mod_lt; discriminate).
  rewrite <- (N2Nat.id (i mod 64)) at 4.
  assert (Hn : (N.to_nat (i mod 64) < 64)%nat) by lia.
  revert Hn. generalize (N.to_nat (i mod 64)). intros n Hn.
  do 64 (destruct n as [|n]; [split; reflexivity|]). lia.
Qed.

Local Open Scope N_scope.

Lemma div_is (x d q r : N) : (r < d -> x = d * q + r -> x / d = q)%N.
Proof. intros H1 H2. symmetry. apply (N.div_unique x d q r); assumption. Qed.
Lemma mod_is (x d q r : N) : (r < d -> x = d * q + r -> x mod d = r)%N.
Proof. intros H1 H2. symmetry. apply (N.mod_unique x d q r); assumption. Qed.
Lemma split_at (d x : N) : (d <> 0 -> exists q r, x = d * q + r /\ r < d)%N.
Proof.
  intros H. exists (x / d)%N, (x mod d)%N. split; [apply N.div_mod; exact H|apply N.mod_lt; exact H].
Qed.
Lemma b64_group (a b c : N) :
  (a < 256 -> b < 256 -> c < 256 ->
   let n := a * 65536 + b * 256 + c in
   let d1 := (n / 262144) mod 64 in
   let d2 := (n / 4096) mod 64 in
   let d3 := (n / 64) mod 64 in
   let d4 := n mod 64 in
   d1 * 4 + d2 / 16 = a /\ (d2 mod 16) * 16 + d3 / 4 = b /\
   (d3 mod 4) * 64 + d4 = c)%N.
Proof.
  intros Ha Hb Hc. cbv zeta.
  destruct (split_at 4 a) as (a1 & a0 & -> & Ha0); [discriminate|].
  destruct (split_at 16 b) as (b1 & b0 & -> & Hb0); [discriminate|].
  destruct (split_at 64 c) as (c1 & c0 & -> & Hc0); [discriminate|].
  set (n := (4 * a1 + a0) * 65536 + (16 * b1 + b0) * 256 + (64 * c1 + c0)).
  assert (E1 : n / 262144 = a1)
    by (apply (div_is _ _ _ (a0 * 65536 + (16 * b1 + b0) * 256 + (64 * c1 + c0))); subst n; lia).
  assert (E2 : n / 4096 = a1 * 64 + a0 * 16 + b1)
    by (apply (div_is _ _ _ (b0 * 256 + (64 * c1 + c0))); subst n; lia).
  assert (E3 : n / 64 = a1 * 4096 + a0 * 1024 + b1 * 64 + b0 * 4 + c1)
    by (apply (div_is _ _ _ c0); subst n; lia).
  assert (E4 : n mod 64 = c0)
    by (apply (mod_is _ _ (a1 * 4096 + a0 * 1024 + b1 * 64 + b0 * 4 + c1)); subst n; lia).
  rewrite E1, E2, E3, E4. clear E1 E2 E3 E4 n.
  rewrite (N.mod_small a1 64) by lia.
  rewrite (mod_is (a1 * 64 + a0 * 16 + b1) 64 a1 (a0 * 16 + b1)) by lia.
  rewrite (mod_is (a1 * 4096 + a0 * 1024 + b1 * 64 + b0 * 4 + c1) 64
             (a1 * 64 + a0 * 16 + b1) (b0 * 4 + c1)) by lia.
  rewrite (div_is (a0 * 16 + b1) 16 a0 b1) by lia.
  rewrite (mod_is (a0 * 16 + b1) 16 a0 b1) by lia.
  rewrite (div_is (b0 * 4 + c1) 4 b0 c1) by lia.
  rewrite (mod_is (b0 * 4 + c1) 4 b0 c1) by lia.
  repeat split; lia.
Qed.

Local Close Scope N_scope.

Lemma b64_bytes_encode (bs : list N) :
  Forall (fun b => (b < 256)%N) bs -> b64_bytes (b64encode bs "-" "_") = bs.
Proof.
  unfold b64encode.
  induction bs as [|a|a b|a b c r IH] using list_ind3; intros H.
  - reflexivity.
  - apply Forall_cons in H as [Ha _].
    cbn [b2a_base64 translate]. fold (safe_digit (a * 65536 / 262144)).
    fold (safe_digit (a * 65536 / 4096)). cbn [b64_bytes].
    rewrite !(proj1 (safe_index_digit _)).
    change (Ascii.eqb (if Ascii.eqb "=" "+" then "-" else if Ascii.eqb "=" "/" then "_" else "=") "=")%char with true.
    cbv iota. f_equal.
    pose proof (b64_group a 0 0 Ha eq_refl eq_refl) as (H1 & _). cbv zeta in H1.
    rewrite !N.add_0_r in H1. exact H1.
  - apply Forall_cons in H as [Ha H]. apply Forall_cons in H as [Hb _].
    cbn [b2a_base64 translate].
    fold (safe_digit ((a * 65536 + b * 256) / 262144)).
    fold (safe_digit ((a * 65536 + b * 256) / 4096)).
    fold (safe_digit ((a * 65536 + b * 256) / 64)). cbn [b64_bytes].
    rewrite !(proj1 (safe_index_digit _)), (proj2 (safe_index_digit _)).
    change (Ascii.eqb (if Ascii.eqb "=" "+" then "-" else if Ascii.eqb "=" "/" then "_" else "=") "=")%char with true.
    cbv iota.
    pose proof (b64_group a b 0 Ha Hb eq_refl) as (H1 & H2 & _). cbv zeta in H1, H2.
    rewrite !N.add_0_r in H1, H2. rewrite H1, H2. reflexivity.
  - apply Forall_cons in H as [Ha H]. apply Forall_cons in H as [Hb H].
    apply Forall_cons in H as [Hc H].
    cbn [b2a_base64 translate].
    fold (safe_digit ((a * 65536 + b * 256 + c) / 262144)).
    fold (safe_digit ((a * 65536 + b * 256 + c) / 4096)).
    fold (safe_digit ((a * 65536 + b * 256 + c) / 64)).
    fold (safe_digit (a * 65536 + b * 256 + c)). cbn [b64_bytes].
    rewrite !(proj1 (safe_index_digit _)), !(proj2 (safe_index_digit _)).
    pose proof (b64_group a b c Ha Hb Hc) as (H1 & H2 & H3). cbv zeta in H1, H2, H3.
    rewrite H1, H2, H3, (IH H). reflexivity.
Qed.

Lemma bytes_ascii_range (text : string) (bs : list N) :
  bytes_ascii text = Some bs -> Forall (fun b => (b < 256)%N) bs.
Proof.
  revert bs. induction text as [|c r IH]; intros bs; cbn [bytes_ascii].
  - intros [= <-]. constructor.
  - destruct (N.ltb_spec (N_of_ascii c) 128) as [Hc|]; [|discriminate].
    destruct (bytes_ascii r) as [l|]; [|discriminate].
    intros [= <-]. constructor; [lia|auto].
Qed.

Lemma bytes_ascii_inj (a b : string) (bs : list N) :
  bytes_ascii a = Some bs -> bytes_ascii b = Some bs -> a = b.
Proof.
  revert b bs. induction a as [|c r IH]; intros [|d s] bs; cbn [bytes_ascii].
  - reflexivity.
  - intros [= <-]. destruct (N_of_ascii d <? 128)%N; [|discriminate].
    destruct (bytes_ascii s); discriminate.
  - destruct (N_of_ascii c <? 128)%N; [|discriminate].
    destruct (bytes_ascii r); [|discriminate]. intros [= <-]. discriminate.
  - destruct (N_of_ascii c <? 128)%N; [|discriminate].
    destruct (bytes_ascii r) as [l|] eqn:Hr; [|discriminate]. intros [= <-].
    destruct (N_of_ascii d <? 128)%N; [|discriminate].
    destruct (bytes_ascii s) as [l'|] eqn:Hs; [|discriminate]. intros [= H1 H2].
    subst l'. f_equal; [|eauto].
    rewrite <- (ascii_N_embedding c), <- (ascii_N_embedding d). congruence.
Qed.

(** X1: [safe_base64] is injective: two texts with the same encoded form
    are the same text, so that the write paths of two node paths differ in
    their last component. *)
Theorem safe_base64_injective (a b encoded : string) :
  safe_base64 a = Some encoded -> safe_base64 b = Some encoded -> a = b.
Proof.
  unfold safe_base64.
  destruct (bytes_ascii a) as [la|] eqn:Ha; [|discriminate].
  destruct (bytes_ascii b) as [lb|] eqn:Hb; [|discriminate].
  cbn. intros [= <-] [= H].
  apply (f_equal b64_bytes) in H.
  rewrite !b64_bytes_encode in H by eauto using bytes_ascii_range.
  subst lb. eapply bytes_ascii_inj; eauto.
Qed.

Lemma safe_base64_injective_witness :
  safe_base64 "/data" = Some "L2RhdGE=" /\ "/data" = "/data".
Proof.
  split; [reflexivity|].
  apply (safe_base64_injective "/data" "/data" "L2RhdGE="); reflexivity.
Defined.

(** ** Further properties of [should_run] *)

(** X2: [should_run] has a period of one day: moving the clock by any
    whole number of days, forwards or backwards, does not change its
    answer. *)
Theorem should_run_period (now : datetime) (k : Z) (t : ScheduledTask) :
  should_run (now + k * MICROS_PER_DAY) t = should_run now t.
Proof.
  unfold should_run. destruct (last_backup t) as [lb|]; [|reflexivity].
  unfold datetime_sub, timedelta_of_micros. cbn [seconds].
  replace (now + k * MICROS_PER_DAY - lb) with (now - lb + k * MICROS_PER_DAY) by lia.
  rewrite Z.mod_add by (unfold MICROS_PER_DAY; lia). reflexivity.
Qed.

(** X3: a task that has a last backup and a frequency of a day (1440
    minutes) or more is never due again, whatever the clock says. *)
Theorem should_run_never_from_a_day (now lb : datetime) (t : ScheduledTask) :
  last_backup t = Some lb ->
  1440 <= frequency t ->
  should_run now t = false.
Proof.
  intros Hlb Hf. apply not_true_is_false. intros H.
  apply should_run_iff in H as [H|(lb' & _ & H)]; [congruence|].
  pose proof (seconds_range (now - lb')) as Hs.
  unfold datetime_sub, SECONDS_TO_MINUTES in H. lia.
Qed.

Lemma should_run_never_from_a_day_witness :
  should_run 1000000000000000
    {| node_name := "n1"; node_address := "127.0.0.1"; node_port := 1234;
       node_path := "/"; frequency := 1440; last_checksum := "";
       last_backup := Some 0 |} = false.
Proof.
  apply (should_run_never_from_a_day 1000000000000000 0); [reflexivity|simpl; lia].
Defined.

(** X4: less than a day after the last backup, [should_run] compares the
    whole seconds elapsed with sixty times the frequency: the task is due
    exactly when [60 * frequency < floor(elapsed seconds)], so that the
    microseconds play no part. *)
Theorem should_run_whole_seconds (now lb : datetime) (t : ScheduledTask) :
  last_backup t = Some lb ->
  0 <= now - lb < MICROS_PER_DAY ->
  (should_run now t = true <-> 60 * frequency t < (now - lb) / 1000000).
Proof.
  intros Hlb Hday. rewrite should_run_iff.
  assert (Hs : seconds (datetime_sub now lb) = (now - lb) / 1000000).
  { unfold datetime_sub, timedelta_of_micros; simpl. now rewrite (Z.mod_small _ _ Hday). }
  unfold SECONDS_TO_MINUTES. split.
  - intros [H|(lb' & H1 & H2)]; [congruence|]. rewrite Hlb in H1. injection H1 as <-.
    now rewrite <- Hs.
  - intros H. right. exists lb. split; [exact Hlb|]. now rewrite Hs.
Qed.

Lemma should_run_whole_seconds_witness :
  should_run 60999999
    {| node_name := "n1"; node_address := "127.0.0.1"; node_port := 1234;
       node_path := "/"; frequency := 1; last_checksum := "";
       last_backup := Some 0 |} = true <-> 60 * 1 < (60999999 - 0) / 1000000.
Proof.
  apply (should_run_whole_seconds 60999999 0); [reflexivity|].
  unfold MICROS_PER_DAY. lia.
Defined.

(** ** Further properties of [RunningTask] *)

Lemma set_fs_same (st : State) : set_fs (fs st) st = st.
Proof. now destruct st. Qed.

Lemma delete_absent (files : gmap string string) (p : string) :
  files !! p = None -> delete p files = files.
Proof. apply delete_id. Qed.

Lemma backup_is_correct_present (t : RunningTask) (st : State) :
  is_Some (fs st !! (write_file_path t ++ ".CORRECT")) ->
  backup_is_correct t st
  = (Return true, set_fs (delete (write_file_path t ++ ".CORRECT") (fs st)) st).
Proof.
  intros [c Hc]. unfold backup_is_correct, bind, fmt, isfile, gets, os_remove, ret.
  rewrite format_correct. cbn [fst snd]. rewrite Hc.
  rewrite bool_decide_eq_true_2 by eauto. now rewrite Hc.
Qed.

Lemma backup_is_correct_failed (t : RunningTask) (st : State) :
  fs st !! (write_file_path t ++ ".CORRECT") = None ->
  backup_is_correct t st
  = (Return false,
     set_fs (delete (write_file_path t ++ ".WIP") (delete (write_file_path t) (fs st))) st).
Proof.
  intros Hc. unfold backup_is_correct, bind, fmt, isfile, gets, when, os_remove, ret.
  rewrite format_correct, format_wip. cbn [fst snd]. rewrite Hc.
  rewrite bool_decide_eq_false_2 by (intros [? ?]; discriminate).
  destruct (fs st !! write_file_path t) as [a|] eqn:Ha.
  - rewrite bool_decide_eq_true_2 by eauto. rewrite Ha. cbn [fs set_fs].
    destruct (delete (write_file_path t) (fs st) !! (write_file_path t ++ ".WIP"))
      as [w|] eqn:Hw.
    + rewrite bool_decide_eq_true_2 by eauto. cbn. now rewrite Hw.
    + rewrite bool_decide_eq_false_2 by (intros [? ?]; discriminate).
      now rewrite (delete_absent _ _ Hw).
  - rewrite bool_decide_eq_false_2 by (intros [? ?]; discriminate).
    rewrite (delete_absent _ _ Ha).
    destruct (fs st !! (write_file_path t ++ ".WIP")) as [w|] eqn:Hw.
    + rewrite bool_decide_eq_true_2 by eauto. now rewrite Hw.
    + rewrite bool_decide_eq_false_2 by (intros [? ?]; discriminate).
      now rewrite (delete_absent _ _ Hw), set_fs_same.
Qed.

Lemma backup_is_same_absent (t : RunningTask) (st : State) :
  fs st !! (write_file_path t ++ ".SAME") = None ->
  backup_is_same t st = (Return false, st).
Proof.
  intros Hs. unfold backup_is_same, bind, fmt, isfile, gets, os_remove, ret.
  rewrite format_same. cbn [fst snd]. rewrite Hs.
  now rewrite bool_decide_eq_false_2 by (intros [? ?]; discriminate).
Qed.

(** X5: [backup_is_correct] never raises and touches the files only.  It
    answers [True] exactly when the [.CORRECT] sentinel exists, and then it
    removes that sentinel and nothing else.  Otherwise it answers [False],
    and afterwards neither the artifact nor the [.WIP] sentinel exists, every
    other file being as before. *)
Theorem backup_is_correct_outcome (t : RunningTask) (st : State) :
  let path := write_file_path t in
  exists (b : bool) (files : gmap string string),
    backup_is_correct t st = (Return b, set_fs files st) /\
    (b = true <-> is_Some (fs st !! (path ++ ".CORRECT"))) /\
    files !! (path ++ ".CORRECT") = None /\
    if b then forall p, p <> path ++ ".CORRECT" -> files !! p = fs st !! p
    else files !! path = None /\ files !! (path ++ ".WIP") = None /\
         forall p, p <> path -> p <> path ++ ".WIP" -> files !! p = fs st !! p.
Proof.
  intros path. subst path.
  destruct (fs st !! (write_file_path t ++ ".CORRECT")) as [c|] eqn:Hc.
  - exists true. eexists. split; [apply backup_is_correct_present; eauto|].
    split; [split; eauto|]. split; [apply lookup_delete_eq|].
    intros p Hp. now rewrite lookup_delete_ne by congruence.
  - exists false. eexists. split; [now apply backup_is_correct_failed|].
    split; [split; [discriminate|intros [? ?]; discriminate]|].
    assert (H1 : write_file_path t ++ ".WIP" <> write_file_path t)
      by (apply append_neq_self; discriminate).
    assert (H2 : write_file_path t ++ ".WIP" <> write_file_path t ++ ".CORRECT")
      by (intros H; apply String.app_inj in H; discriminate).
    assert (H3 : write_file_path t <> write_file_path t ++ ".CORRECT")
      by (intros H; symmetry in H; revert H; apply append_neq_self; discriminate).
    repeat split.
    + now rewrite !lookup_delete_ne by congruence.
    + rewrite lookup_delete_ne by congruence. apply lookup_delete_eq.
    + apply lookup_delete_eq.
    + intros p Hp1 Hp2. now rewrite !lookup_delete_ne by congruence.
Qed.

(** [backup_is_same] never raises; it answers [True] exactly when the
    [.SAME] sentinel exists, and the only thing it changes is that sentinel,
    which it removes. *)
Theorem backup_is_same_outcome (t : RunningTask) (st : State) :
  let same := write_file_path t ++ ".SAME" in
  backup_is_same t st
  = (Return (bool_decide (is_Some (fs st !! same))), set_fs (delete same (fs st)) st).
Proof.
  intros same. subst same.
  destruct (fs st !! (write_file_path t ++ ".SAME")) as [s|] eqn:Hs.
  - rewrite bool_decide_eq_true_2 by eauto. apply backup_is_same_present.
    rewrite Hs. eauto.
  - rewrite bool_decide_eq_false_2 by (intros [? ?]; discriminate).
    rewrite (delete_absent _ _ Hs), set_fs_same. now apply backup_is_same_absent.
Qed.

(** ** Further properties of [_reload_schedule] *)

Lemma set_schedule_same (st : State) : set_schedule (schedule st) st = st.
Proof. now destruct st. Qed.

Lemma reload_tasks (name : string) (address : string * Z) (tasks : list (string * Z))
    (st : State) :
  for_each tasks (fun task =>
    finished_tasks <- gets (fun st => get_node_finished_tasks (database st) name (fst task)) ;;
    modify (fun st =>
      set_schedule
        (schedule st ++
         [{| node_name := name;
             node_address := fst address;
             node_port := snd address;
             node_path := fst task;
             frequency := snd task;
             last_backup := match finished_tasks with
                            | ft :: _ => Some (timestamp ft)
                            | [] => None
                            end;
             last_checksum := match finished_tasks with
                              | ft :: _ => checksum ft
                              | [] => EmptyString
                              end |}]) st)) st
  = (Return tt,
     set_schedule (schedule st ++ map (scheduled_task_of (database st) name address) tasks) st).
Proof.
  revert st. induction tasks as [|task tasks IH]; intros st.
  - simpl. now rewrite app_nil_r, set_schedule_same.
  - cbn [for_each]. unfold bind at 1. unfold bind at 1. unfold gets at 1.
    unfold modify at 1. rewrite IH. cbn [map schedule database set_schedule].
    rewrite <- app_assoc. reflexivity.
Qed.

Lemma reload_nodes (names : list string) (st : State) :
  let body := fun name =>
    address <- node_address_of name ;;
    tasks <- gets (fun st => get_tasks_for_node (database st) name) ;;
    for_each tasks (fun task =>
      finished_tasks <- gets (fun st => get_node_finished_tasks (database st) name (fst task)) ;;
      modify (fun st =>
        set_schedule
          (schedule st ++
           [{| node_name := name;
               node_address := fst address;
               node_port := snd address;
               node_path := fst task;
               frequency := snd task;
               last_backup := match finished_tasks with
                              | ft :: _ => Some (timestamp ft)
                              | [] => None
                              end;
               last_checksum := match finished_tasks with
                                | ft :: _ => checksum ft
                                | [] => EmptyString
                                end |}]) st)) in
  (Forall (fun name => is_Some (get_node_address (database st) name)) names ->
   for_each names body st
   = (Return tt, set_schedule (schedule st ++ schedule_of (database st) names) st)) /\
  (forall pre bad post,
     names = (pre ++ bad :: post)%list ->
     Forall (fun name => is_Some (get_node_address (database st) name)) pre ->
     get_node_address (database st) bad = None ->
     for_each names body st
     = (Raise (KeyError bad), set_schedule (schedule st ++ schedule_of (database st) pre) st)).
Proof.
  intros body. revert st. induction names as [|name names IH]; intros st.
  - split.
    + intros _. simpl. now rewrite app_nil_r, set_schedule_same.
    + intros [|? ?] ? ? H; discriminate H.
  - assert (Hstep : forall address, get_node_address (database st) name = Some address ->
              body name st
              = (Return tt,
                 set_schedule (schedule st ++ map (scheduled_task_of (database st) name address)
                                                 (get_tasks_for_node (database st) name)) st)).
    { intros address Ha. unfold body. unfold bind at 1. unfold node_address_of at 1.
      rewrite Ha. unfold bind at 1. unfold gets at 1. apply reload_tasks. }
    split.
    + intros Hall. apply Forall_cons in Hall as [[address Ha] Hall].
      cbn [for_each]. unfold bind at 1. rewrite (Hstep address Ha).
      destruct (IH (set_schedule (schedule st ++ map (scheduled_task_of (database st) name address)
                                                   (get_tasks_for_node (database st) name)) st))
        as [IH1 _].
      rewrite IH1 by exact Hall. cbn [schedule database set_schedule schedule_of flat_map].
      rewrite Ha, <- app_assoc. reflexivity.
    + intros pre bad post Hnames Hpre Hbad. destruct pre as [|p pre].
      * injection Hnames as <- <-. cbn [for_each]. unfold bind at 1. unfold body at 1.
        unfold bind at 1. unfold node_address_of at 1. rewrite Hbad.
        simpl. now rewrite app_nil_r, set_schedule_same.
      * injection Hnames as <- ->. apply Forall_cons in Hpre as [[address Ha] Hpre].
        cbn [for_each]. unfold bind at 1. rewrite (Hstep address Ha).
        destruct (IH (set_schedule (schedule st ++ map (scheduled_task_of (database st) name address)
                                                     (get_tasks_for_node (database st) name)) st))
          as [_ IH2].
        rewrite (IH2 pre bad post eq_refl) by assumption.
        cbn [schedule database set_schedule schedule_of flat_map].
        rewrite Ha, <- app_assoc. reflexivity.
Qed.

(** X6: when every node of the store has an address, [_reload_schedule]
    returns and the schedule is rebuilt from the store alone: one entry per
    configured (node, task), in the order of the store, with the address of
    the node, the frequency of the task, and the timestamp and checksum of
    its newest finished task ([None] and the empty checksum without
    history).  Nothing else of the state changes. *)
Theorem reload_schedule_from_store (st : State) :
  Forall (fun name => is_Some (get_node_address (database st) name))
         (get_node_names (database st)) ->
  _reload_schedule st
  = (Return tt, set_schedule (schedule_of (database st) (get_node_names (database st))) st).
Proof.
  intros Hall. unfold _reload_schedule. unfold bind at 1. unfold modify at 1.
  unfold bind at 1. unfold gets at 1.
  destruct (reload_nodes (get_node_names (database (set_schedule [] st))) (set_schedule [] st))
    as [H _].
  rewrite H by exact Hall. reflexivity.
Qed.

Lemma reload_schedule_from_store_witness :
  schedule (snd (_reload_schedule (__init__ "/b" db_one 2 ∅)))
  = [{| node_name := "n1"; node_address := "127.0.0.1"; node_port := 1234;
        node_path := "/"; frequency := 1; last_checksum := ""; last_backup := None |}].
Proof.
  rewrite (reload_schedule_from_store (__init__ "/b" db_one 2 ∅)).
  - reflexivity.
  - repeat constructor; simpl; eauto.
Defined.

(** X7: at the first node of the store for which the address query
    raises, [_reload_schedule] raises too and leaves a truncated schedule:
    the entries of the nodes before it, none for that node and the nodes
    after it. *)
Theorem reload_schedule_unknown_node (st : State) (pre post : list string) (bad : string) :
  get_node_names (database st) = (pre ++ bad :: post)%list ->
  Forall (fun name => is_Some (get_node_address (database st) name)) pre ->
  get_node_address (database st) bad = None ->
  exists e, _reload_schedule st = (Raise e, set_schedule (schedule_of (database st) pre) st).
Proof.
  intros Hnames Hpre Hbad. exists (KeyError bad).
  unfold _reload_schedule. unfold bind at 1. unfold modify at 1.
  unfold bind at 1. unfold gets at 1.
  destruct (reload_nodes (get_node_names (database (set_schedule [] st))) (set_schedule [] st))
    as [_ H].
  rewrite (H pre bad post) by assumption. reflexivity.
Qed.

Lemma reload_schedule_unknown_node_witness :
  exists e, _reload_schedule (__init__ "/b" db_unknown 2 ∅)
            = (Raise e,
               set_schedule
                 [{| node_name := "n1"; node_address := "127.0.0.1"; node_port := 1234;
                     node_path := "/"; frequency := 1; last_checksum := "";
                     last_backup := None |}]
                 (__init__ "/b" db_unknown 2 ∅)).
Proof.
  apply (reload_schedule_unknown_node (__init__ "/b" db_unknown 2 ∅) ["n1"] [] "n2").
  - reflexivity.
  - repeat constructor. simpl. eauto.
  - reflexivity.
Defined.

(** [_reload_schedule] changes the schedule only. *)
Lemma reload_schedule_shape (st : State) :
  exists sch, snd (_reload_schedule st) = set_schedule sch st.
Proof.
  apply (preserves_reload_schedule (fun s => exists sch, s = set_schedule sch st)).
  - intros s v [sch ->]. now exists v.
  - exists (schedule st). now rewrite set_schedule_same.
Qed.

(** X8: [_reload_schedule] does not look at the schedule it replaces:
    running it again on its own result gives the same outcome and the same
    state. *)
Theorem reload_schedule_idempotent (st : State) :
  _reload_schedule (snd (_reload_schedule st)) = _reload_schedule st.
Proof.
  destruct (reload_schedule_shape st) as [sch ->]. reflexivity.
Qed.

(** ** Further properties of [_clean_backup_path] *)

(** The prefix of the artifact of a running task, and of its sentinels,
    is valid when the name of the artifact has no dot: the GC does not list
    them for deletion. *)
Lemma running_task_files_not_doomed (st : State) (key : node_data) (task : RunningTask)
    (f sfx : string) :
  (key, task) ∈ running_tasks st ->
  write_file_path task = backup_path st ++ "/" ++ f ->
  contains "." f = false ->
  sfx ∈ sentinel_suffixes ->
  write_file_path task ++ sfx ∉ doomed st.
Proof.
  intros Hrun Hpath Hdot Hsfx Hd.
  replace (write_file_path task ++ sfx) with (backup_path st ++ "/" ++ (f ++ sfx)) in Hd
    by now rewrite Hpath, !append_assoc.
  apply doomed_entry in Hd as [_ Hv]. apply Hv.
  rewrite sentinel_prefix by assumption. right. exists (key, task). split; [exact Hrun|].
  symmetry. exact Hpath.
Qed.

(** X9: the GC keeps the files of a backup in progress: for a running task
    whose write path is an entry of the backup directory without a dot in
    its name, the artifact and its [.WIP], [.CORRECT] and [.SAME] sentinels
    are after the GC what they were before. *)
Theorem gc_keeps_running_task_files (st : State) (key : node_data) (task : RunningTask)
    (f sfx : string) :
  (key, task) ∈ running_tasks st ->
  write_file_path task = backup_path st ++ "/" ++ f ->
  contains "." f = false ->
  sfx ∈ sentinel_suffixes ->
  fs (snd (_clean_backup_path st)) !! (write_file_path task ++ sfx)
  = fs st !! (write_file_path task ++ sfx).
Proof.
  intros Hrun Hpath Hdot Hsfx. rewrite clean_backup_path_lookup.
  rewrite decide_False; [reflexivity|].
  now apply (running_task_files_not_doomed st key task f sfx).
Qed.

Lemma gc_keeps_running_task_files_witness :
  fs (snd (_clean_backup_path st_same)) !! ("/b/backup_100_n1_Lw==" ++ ".SAME")
  = fs st_same !! ("/b/backup_100_n1_Lw==" ++ ".SAME").
Proof.
  apply (gc_keeps_running_task_files st_same ("n1", "/")
           {| write_file_path := "/b/backup_100_n1_Lw=="; process := 0 |}
           "backup_100_n1_Lw==" ".SAME").
  - vm_compute. left.
  - reflexivity.
  - reflexivity.
  - unfold sentinel_suffixes. right; right; right; left.
Defined.

(** X10: the GC deletes nothing outside the listing of the backup
    directory: a path that is not the backup directory followed by [/] and
    an entry name (a file elsewhere, or further down) is left as it is. *)
Theorem gc_only_in_backup_path (st : State) (p : string) :
  (forall f, entry_name f = true -> p <> backup_path st ++ "/" ++ f) ->
  fs (snd (_clean_backup_path st)) !! p = fs st !! p.
Proof.
  intros Hp. rewrite clean_backup_path_lookup.
  destruct (decide (p ∈ doomed st)) as [Hd|Hd]; [|reflexivity].
  exfalso. apply doomed_spec in Hd as (f & -> & Hf & _).
  apply dir_entries_spec in Hf as [Hname _]. now apply (Hp f).
Qed.

Lemma gc_only_in_backup_path_witness :
  let st := set_fs (<["/elsewhere/file" := "x"]> (<["/b/junk" := ""]> ∅)) st_queued in
  fs (snd (_clean_backup_path st)) !! "/elsewhere/file" = fs st !! "/elsewhere/file".
Proof.
  intros st. apply (gc_only_in_backup_path st "/elsewhere/file").
  intros f _ H. discriminate H.
Defined.

(** ** Further properties of [_handle_client_request] *)

Lemma handle_client_request_returns (E : Env) (request : pyobj) (st : State) :
  fst (_handle_client_request E request st) = Return tt.
Proof.
  unfold _handle_client_request, bind.
  destruct (client_request_try E request st) as [[[data [e|]]|e] st1] eqn:Htry.
  - reflexivity.
  - reflexivity.
  - pose proof (client_request_try_returns E request st) as [r Hr].
    rewrite Htry in Hr. discriminate Hr.
Qed.

(** X11: with a pipe that takes the replies, [_handle_client_request]
    never raises, whatever the request and whatever the adapter does, and the
    last thing it sends is [("OK", data)]: either that reply alone, or an
    error envelope followed by it, both with the same data. *)
Theorem handle_client_request_always_replies (E : Env) (request : pyobj) (st : State) :
  let st' := snd (_handle_client_request E request st) in
  fst (_handle_client_request E request st) = Return tt /\
  exists data,
    sent st' = (sent st ++ [("OK", data)])%list \/
    exists e, sent st'
              = (sent st ++ [(("Error " ++ str_exn e ++ ":")%string, data); ("OK", data)])%list.
Proof.
  split; [apply handle_client_request_returns|].
  destruct (client_request_try_returns E request st) as [[data caught] Hr].
  exists data. pose proof (handle_client_request_sent E request st data caught Hr) as H.
  destruct caught as [e|]; [right; now exists e|now left].
Qed.



(** X13: when the adapter succeeds and reports a change but rebuilding the
    schedule then raises, the request is still answered twice, with the data
    the adapter returned in both replies, and the change the adapter made to
    the store stays. *)
Theorem handle_client_request_reload_fails (E : Env) (request command args : pyobj)
    (st : State) (db' : Database) (data : pyobj) (e : exn) :
  unpack2 request = Return (command, args) ->
  parse_command E command args (database st) = (db', Return (data, true)) ->
  fst (_reload_schedule (set_database db' st)) = Raise e ->
  let st' := snd (_handle_client_request E request st) in
  sent st' = (sent st ++ [(("Error " ++ str_exn e ++ ":")%string, data); ("OK", data)])%list /\
  database st' = db'.
Proof.
  intros Hu Hp Hr st'.
  assert (Htry : exists st1, client_request_try E request st = (Return (data, Some e), st1) /\
                             database st1 = db').
  { unfold client_request_try. rewrite Hu, Hp. cbn [when]. unfold bind at 1.
    pose proof (preserves_reload_schedule (fun s => database s = db')
                  (fun s v H => H) (set_database db' st) eq_refl) as Hdb.
    destruct (_reload_schedule (set_database db' st)) as [[[]|e'] st1]; simpl in Hr;
      [discriminate|]. injection Hr as ->. now exists st1. }
  destruct Htry as (st1 & Htry & Hdb). split.
  - apply (handle_client_request_sent E request st data (Some e)). now rewrite Htry.
  - subst st'. unfold _handle_client_request, bind. rewrite Htry. exact Hdb.
Qed.

Lemma handle_client_request_reload_fails_witness :
  let st' := snd (_handle_client_request env_unknown
                    (PTuple [PStr "add_node"; PDict []]) (__init__ "/b" db_one 2 ∅)) in
  sent st' = [(("Error " ++ str_exn (KeyError "n2") ++ ":")%string, PStr "done");
              ("OK", PStr "done")] /\
  database st' = db_unknown.
Proof.
  apply (handle_client_request_reload_fails env_unknown (PTuple [PStr "add_node"; PDict []])
           (PStr "add_node") (PDict []) (__init__ "/b" db_one 2 ∅) db_unknown (PStr "done")
           (KeyError "n2")); reflexivity.
Defined.

(** ** Further properties of [_dispatch_running_tasks] *)

Lemma dict_set_fresh {K V} `{EqDecision K} (k : K) (v : V) (d : list (K * V)) :
  k ∉ d.*1 -> dict_set k v d = (d ++ [(k, v)])%list.
Proof.
  induction d as [|[k' v'] d IH]; simpl; intros Hk; [reflexivity|].
  apply not_elem_of_cons in Hk as [Hne Hk].
  destruct (decide (k = k')); [contradiction|]. now rewrite IH.
Qed.

Lemma set_running_tasks_same (st : State) : set_running_tasks (running_tasks st) st = st.
Proof. now destruct st. Qed.

Lemma dispatch_fold (E : Env) (r0 : list (node_data * RunningTask))
    (pr0 : gmap nat (node_data * NodeHandlerProcess.t))
    (l acc : list (node_data * RunningTask)) (st : State) :
  let body := fun now_running entry =>
                alive <- is_running (snd entry) ;;
                if negb alive
                then reap E (fst entry) (snd entry) ;; ret now_running
                else ret (dict_set (fst entry) (snd entry) now_running) in
  NoDup (acc ++ l)%list.*1 ->
  running_tasks st = r0 /\ procs st = pr0 ->
  match fold_m body acc l st with
  | (Return acc', st') =>
      acc' = (acc ++ filter (fun e => is_Some (pr0 !! process (snd e))) l)%list /\
      running_tasks st' = r0 /\ procs st' = pr0
  | (Raise _, st') => running_tasks st' = r0 /\ procs st' = pr0
  end.
Proof.
  intros body. revert acc st. induction l as [|x l IH]; intros acc st Hnd Hst.
  - simpl. now rewrite app_nil_r.
  - cbn [fold_m]. unfold bind at 1. unfold body at 1. unfold bind at 1.
    unfold is_running at 1. unfold gets at 1. destruct Hst as [Hr Hp]. rewrite Hp.
    destruct (decide (is_Some (pr0 !! process (snd x)))) as [Ha|Ha].
    + rewrite bool_decide_eq_true_2 by exact Ha. cbn [negb]. unfold ret at 1.
      rewrite dict_set_fresh.
      2:{ rewrite fmap_app in Hnd. apply NoDup_app in Hnd as (_ & Hnd & _).
          intros Hin. apply (Hnd _ Hin). rewrite fmap_cons. left. }
      rewrite filter_cons_True by exact Ha.
      replace (acc ++ x :: filter (fun e => is_Some (pr0 !! process (snd e))) l)%list
        with ((acc ++ [(x.1, x.2)]) ++ filter (fun e => is_Some (pr0 !! process (snd e))) l)%list
        by (rewrite <- app_assoc; now destruct x).
      apply IH; [|now split].
      replace (acc ++ [(x.1, x.2)])%list with (acc ++ [x])%list by now destruct x.
      now rewrite <- app_assoc.
    + rewrite bool_decide_eq_false_2 by exact Ha. cbn [negb]. unfold bind at 1.
      pose proof (preserves_reap (fun s => running_tasks s = r0 /\ procs s = pr0) E
                    (fst x) (snd x) (fun s v H => H) (fun s v H => H) (fun s v H => H)
                    (fun s v H => H) st (conj Hr Hp)) as Hreap.
      destruct (reap E (fst x) (snd x) st) as [[[]|e] st1]; cbn [snd] in Hreap;
        [|exact Hreap].
      unfold ret at 1. rewrite filter_cons_False by exact Ha.
      apply IH; [|exact Hreap].
      rewrite fmap_app, fmap_cons in Hnd. rewrite fmap_app.
      apply NoDup_app in Hnd as (H1 & H2 & H3). apply NoDup_cons in H3 as [_ H3].
      apply NoDup_app. repeat split; [exact H1| |exact H3].
      intros k Hk Hin. apply (H2 k Hk). now right.
Qed.

Lemma dispatch_running_tasks_eq (E : Env) (st : State) :
  _dispatch_running_tasks E st
  = match fold_m (fun now_running entry =>
                    alive <- is_running (snd entry) ;;
                    if negb alive
                    then reap E (fst entry) (snd entry) ;; ret now_running
                    else ret (dict_set (fst entry) (snd entry) now_running))
                 [] (running_tasks st) st with
    | (Return acc, st1) => (Return tt, set_running_tasks acc st1)
    | (Raise e, st1) => (Raise e, st1)
    end.
Proof. reflexivity. Qed.

(** X14: when [_dispatch_running_tasks] returns, the running tasks are
    those whose process is still alive, in their former order, and no
    process has been started or stopped.  When it raises (a reap failed), the
    running tasks are what they were: the assignment after the loop is not
    reached. *)
Theorem dispatch_keeps_the_alive (E : Env) (st : State) :
  NoDup (running_tasks st).*1 ->
  let st' := snd (_dispatch_running_tasks E st) in
  procs st' = procs st /\
  running_tasks st'
  = match fst (_dispatch_running_tasks E st) with
    | Return _ => filter (fun e => is_Some (procs st !! process (snd e))) (running_tasks st)
    | Raise _ => running_tasks st
    end.
Proof.
  intros Hnd st'. subst st'. rewrite dispatch_running_tasks_eq.
  pose proof (dispatch_fold E (running_tasks st) (procs st) (running_tasks st) [] st Hnd
                (conj eq_refl eq_refl)) as H. cbv zeta in H.
  destruct (fold_m _ [] (running_tasks st) st) as [[acc'|e] st1].
  - destruct H as (-> & Hr & Hp). cbn. now split.
  - destruct H as (Hr & Hp). cbn. now split.
Qed.

Lemma dispatch_keeps_the_alive_witness :
  running_tasks (snd (_dispatch_running_tasks (env_at 0) st_mixed))
  = [(("n1", "/"), {| write_file_path := "/b/backup_100_n1_Lw=="; process := 0 |})].
Proof.
  destruct (dispatch_keeps_the_alive (env_at 0) st_mixed) as [_ H].
  - apply (bool_decide_unpack _). vm_compute. exact I.
  - rewrite H. vm_compute. reflexivity.
Defined.

(** ** Reaping a worker that has ended *)

Lemma correct_neq_path (path : string) : path ++ ".CORRECT" <> path.
Proof. apply append_neq_self. discriminate. Qed.

(** With the sentinel and the artifact in place, [reap] registers the
    finished task and goes on to rebuild the schedule and to collect. *)
Lemma reap_correct_eq (E : Env) (key : node_data) (task : RunningTask) (st : State)
    (content : string) :
  is_Some (fs st !! (write_file_path task ++ ".CORRECT")) ->
  fs st !! write_file_path task = Some content ->
  reap E key task st
  = (_reload_schedule ;; _clean_backup_path)
      (set_database
         (register_finished_task (fst key) (snd key)
            (finished_task_of E task content (clock E (ticks st))) (database st))
         (set_ticks (S (ticks st))
            (set_fs (delete (write_file_path task ++ ".CORRECT") (fs st)) st))).
Proof.
  intros Hc Ha. unfold reap. unfold bind at 1.
  rewrite backup_is_correct_present by exact Hc.
  unfold bind at 1. unfold read_file at 1. cbn [fs set_fs].
  pose proof (correct_neq_path (write_file_path task)) as Hne.
  rewrite lookup_delete_ne by exact Hne. rewrite Ha.
  unfold bind at 1. unfold datetime_now at 1.
  unfold bind at 1. unfold read_file at 1. cbn [fs set_fs set_ticks].
  rewrite lookup_delete_ne by exact Hne. rewrite Ha.
  unfold bind at 1. unfold modify at 1. reflexivity.
Qed.

Lemma reload_clean_database (st : State) :
  database (snd ((_reload_schedule ;; _clean_backup_path) st)) = database st.
Proof.
  apply (preserves_bind (fun s => database s = database st)); [| |reflexivity].
  - apply preserves_reload_schedule. intros s v H. exact H.
  - intros _. apply preserves_clean_backup_path. intros s v H. exact H.
Qed.

(** Rebuilding the schedule and collecting create no file. *)
Lemma reload_clean_absent (st : State) (p : string) :
  fs st !! p = None ->
  fs (snd ((_reload_schedule ;; _clean_backup_path) st)) !! p = None.
Proof.
  apply (preserves_bind (fun s => fs s !! p = None)).
  - apply preserves_reload_schedule. intros s v H. exact H.
  - intros _ s H. rewrite clean_backup_path_lookup. now destruct (decide _).
Qed.

(** X15: reaping a worker that left its artifact and a [.CORRECT]
    sentinel puts a finished task at the head of the history of its
    (node, path): the write path as result path, the size of the artifact in
    KiB, the reading of the clock and the hash of the artifact.  The sentinel
    is gone afterwards.  Both hold even when rebuilding the schedule then
    raises. *)
Theorem reap_correct_registers (E : Env) (key : node_data) (task : RunningTask)
    (st : State) (content : string) :
  is_Some (fs st !! (write_file_path task ++ ".CORRECT")) ->
  fs st !! write_file_path task = Some content ->
  let st' := snd (reap E key task st) in
  get_node_finished_tasks (database st') (fst key) (snd key)
  = finished_task_of E task content (clock E (ticks st))
    :: get_node_finished_tasks (database st) (fst key) (snd key) /\
  fs st' !! (write_file_path task ++ ".CORRECT") = None.
Proof.
  intros Hc Ha st'. subst st'. rewrite (reap_correct_eq E key task st content Hc Ha). split.
  - rewrite reload_clean_database. cbn [database set_database register_finished_task
      get_node_finished_tasks set_ticks set_fs].
    now rewrite decide_True by (split; reflexivity).
  - apply reload_clean_absent. cbn [fs set_database set_ticks set_fs]. apply lookup_delete_eq.
Qed.

Lemma reap_correct_registers_witness :
  let st' := snd (reap (env_at 100750000) ("n1", "/")
                    {| write_file_path := "/b/backup_100_n1_Lw=="; process := 0 |}
                    (st_ended [("/b/backup_100_n1_Lw==", "abc");
                              ("/b/backup_100_n1_Lw==.CORRECT", "")])) in
  get_node_finished_tasks (database st') "n1" "/"
  = [{| result_path := "/b/backup_100_n1_Lw=="; kb_size := 3 # 1024;
        timestamp := 100750000; checksum := "abc" |}] /\
  fs st' !! "/b/backup_100_n1_Lw==.CORRECT" = None.
Proof.
  apply (reap_correct_registers (env_at 100750000) ("n1", "/")
           {| write_file_path := "/b/backup_100_n1_Lw=="; process := 0 |}
           (st_ended [("/b/backup_100_n1_Lw==", "abc");
                     ("/b/backup_100_n1_Lw==.CORRECT", "")]) "abc").
  - vm_compute. eauto.
  - vm_compute. reflexivity.
Defined.

(** X16: the artifact of a reaped backup outlives the GC that follows its
    registration: when the reaped task is among the running tasks and the
    name of its artifact, an entry of the backup directory, has no dot, the
    artifact is after the reap what the worker left. *)
Theorem reap_correct_keeps_artifact (E : Env) (key : node_data) (task : RunningTask)
    (st : State) (content f : string) :
  (key, task) ∈ running_tasks st ->
  write_file_path task = backup_path st ++ "/" ++ f ->
  contains "." f = false ->
  is_Some (fs st !! (write_file_path task ++ ".CORRECT")) ->
  fs st !! write_file_path task = Some content ->
  fs (snd (reap E key task st)) !! write_file_path task = Some content.
Proof.
  intros Hrun Hpath Hdot Hc Ha. rewrite (reap_correct_eq E key task st content Hc Ha).
  set (st4 := set_database _ _).
  assert (H4 : fs st4 !! write_file_path task = Some content).
  { subst st4. cbn [fs set_database set_ticks set_fs].
    rewrite lookup_delete_ne by apply correct_neq_path. exact Ha. }
  unfold bind. destruct (reload_schedule_shape st4) as [sch Hshape].
  destruct (_reload_schedule st4) as [[[]|e] st5]; cbn [snd] in *; subst st5;
    [|exact H4].
  rewrite clean_backup_path_lookup. rewrite decide_False; [exact H4|].
  rewrite <- (append_empty_r (write_file_path task)).
  apply (running_task_files_not_doomed _ key task f ""); try assumption.
  unfold sentinel_suffixes. left.
Qed.

Lemma reap_correct_keeps_artifact_witness :
  fs (snd (reap (env_at 100750000) ("n1", "/")
             {| write_file_path := "/b/backup_100_n1_Lw=="; process := 0 |}
             (st_ended [("/b/backup_100_n1_Lw==", "abc");
                        ("/b/backup_100_n1_Lw==.CORRECT", "")])))
    !! "/b/backup_100_n1_Lw==" = Some "abc".
Proof.
  apply (reap_correct_keeps_artifact (env_at 100750000) ("n1", "/")
           {| write_file_path := "/b/backup_100_n1_Lw=="; process := 0 |}
           (st_ended [("/b/backup_100_n1_Lw==", "abc");
                      ("/b/backup_100_n1_Lw==.CORRECT", "")]) "abc" "backup_100_n1_Lw==").
  - vm_compute. left.
  - reflexivity.
  - reflexivity.
  - vm_compute. eauto.
  - vm_compute. reflexivity.
Defined.

(** X17: a [.CORRECT] sentinel without its artifact is fatal: the
    sentinel is removed, taking the size of the artifact raises [OSError],
    and nothing is registered. *)
Theorem reap_correct_without_artifact (E : Env) (key : node_data) (task : RunningTask)
    (st : State) :
  is_Some (fs st !! (write_file_path task ++ ".CORRECT")) ->
  fs st !! write_file_path task = None ->
  exists msg,
    reap E key task st
    = (Raise (OSError msg), set_fs (delete (write_file_path task ++ ".CORRECT") (fs st)) st).
Proof.
  intros Hc Ha. eexists. unfold reap. unfold bind at 1.
  rewrite backup_is_correct_present by exact Hc.
  unfold bind at 1. unfold read_file at 1. cbn [fs set_fs].
  rewrite lookup_delete_ne by apply correct_neq_path. rewrite Ha. reflexivity.
Qed.

Lemma reap_correct_without_artifact_witness :
  exists msg,
    reap (env_at 0) ("n1", "/")
      {| write_file_path := "/b/backup_100_n1_Lw=="; process := 0 |}
      (st_ended [("/b/backup_100_n1_Lw==.CORRECT", "")])
    = (Raise (OSError msg),
       set_fs (delete ("/b/backup_100_n1_Lw==" ++ ".CORRECT")
                 (fs (st_ended [("/b/backup_100_n1_Lw==.CORRECT", "")])))
         (st_ended [("/b/backup_100_n1_Lw==.CORRECT", "")])).
Proof.
  apply (reap_correct_without_artifact (env_at 0) ("n1", "/")
           {| write_file_path := "/b/backup_100_n1_Lw=="; process := 0 |}
           (st_ended [("/b/backup_100_n1_Lw==.CORRECT", "")])).
  - vm_compute. eauto.
  - vm_compute. reflexivity.
Defined.

(** X18: reaping a worker that left no sentinel registers nothing and
    reads no clock: the artifact and the [.WIP] sentinel are removed when
    they exist, and that is all. *)
Theorem reap_failed (E : Env) (key : node_data) (task : RunningTask) (st : State) :
  fs st !! (write_file_path task ++ ".CORRECT") = None ->
  fs st !! (write_file_path task ++ ".SAME") = None ->
  reap E key task st
  = (Return tt,
     set_fs (delete (write_file_path task ++ ".WIP") (delete (write_file_path task) (fs st)))
            st).
Proof.
  intros Hc Hs. unfold reap. unfold bind at 1.
  rewrite backup_is_correct_failed by exact Hc. unfold bind at 1.
  rewrite backup_is_same_absent; [reflexivity|].
  cbn [fs set_fs]. rewrite !lookup_delete_ne; [exact Hs| |].
  - intros H. symmetry in H. revert H. apply append_neq_self. discriminate.
  - intros H. apply String.app_inj in H. discriminate.
Qed.

Lemma reap_failed_witness :
  reap (env_at 0) ("n2", "/")
    {| write_file_path := "/b/backup_100_n2_Lw=="; process := 1 |} st_mixed
  = (Return tt,
     set_fs (delete ("/b/backup_100_n2_Lw==" ++ ".WIP")
               (delete "/b/backup_100_n2_Lw==" (fs st_mixed))) st_mixed).
Proof.
  apply (reap_failed (env_at 0) ("n2", "/")
           {| write_file_path := "/b/backup_100_n2_Lw=="; process := 1 |} st_mixed);
    vm_compute; reflexivity.
Defined.

Lemma reap_same_eq (E : Env) (key : node_data) (task : RunningTask)
    (st : State) (ft : FinishedTask) (older : list FinishedTask) :
  fs st !! (write_file_path task ++ ".CORRECT") = None ->
  is_Some (fs st !! (write_file_path task ++ ".SAME")) ->
  get_node_finished_tasks (database st) (fst key) (snd key) = ft :: older ->
  reap E key task st
  = (_reload_schedule ;; _clean_backup_path)
      (set_database
         (register_finished_task (fst key) (snd key)
            {| result_path := result_path ft; kb_size := kb_size ft;
               timestamp := clock E (ticks st); checksum := checksum ft |} (database st))
         (set_ticks (S (ticks st))
            (set_fs (delete (write_file_path task ++ ".SAME")
                       (delete (write_file_path task ++ ".WIP")
                          (delete (write_file_path task) (fs st)))) st))).
Proof.
  intros Hc Hs Hh. unfold reap. unfold bind at 1.
  rewrite backup_is_correct_failed by exact Hc. unfold bind at 1.
  rewrite backup_is_same_present.
  2:{ cbn [fs set_fs]. rewrite !lookup_delete_ne; [exact Hs| |].
      - intros H. symmetry in H. revert H. apply append_neq_self. discriminate.
      - intros H. apply String.app_inj in H. discriminate. }
  unfold bind at 1. unfold gets at 1. cbn [database set_fs]. rewrite Hh.
  unfold bind at 1. unfold datetime_now at 1.
  unfold bind at 1. unfold modify at 1. reflexivity.
Qed.

(** X19: reaping a worker that left a [.SAME] sentinel, with a history
    for its (node, path), registers a copy of the newest finished task with
    the reading of the clock as timestamp: same result path, size and
    checksum.  The sentinel is gone afterwards. *)
Theorem reap_same_copies_newest (E : Env) (key : node_data) (task : RunningTask)
    (st : State) (ft : FinishedTask) (older : list FinishedTask) :
  fs st !! (write_file_path task ++ ".CORRECT") = None ->
  is_Some (fs st !! (write_file_path task ++ ".SAME")) ->
  get_node_finished_tasks (database st) (fst key) (snd key) = ft :: older ->
  let st' := snd (reap E key task st) in
  get_node_finished_tasks (database st') (fst key) (snd key)
  = {| result_path := result_path ft; kb_size := kb_size ft;
       timestamp := clock E (ticks st); checksum := checksum ft |} :: ft :: older /\
  fs st' !! (write_file_path task ++ ".SAME") = None.
Proof.
  intros Hc Hs Hh st'. subst st'. rewrite (reap_same_eq E key task st ft older Hc Hs Hh).
  split.
  - rewrite reload_clean_database.
    cbn [database set_database register_finished_task get_node_finished_tasks
         set_ticks set_fs ticks].
    rewrite decide_True by (split; reflexivity). now rewrite Hh.
  - apply reload_clean_absent. cbn [fs set_database set_ticks set_fs].
    apply lookup_delete_eq.
Qed.

Lemma reap_same_copies_newest_witness :
  let st := set_fs (<["/b/backup_200_n1_Lw==.SAME" := ""]> ∅)
              (set_database db_gc (set_ticks 0 st_same)) in
  let st' := snd (reap (env_at 200000000) ("n1", "/")
                    {| write_file_path := "/b/backup_200_n1_Lw=="; process := 0 |} st) in
  get_node_finished_tasks (database st') "n1" "/"
  = [{| result_path := "/b/backup_100_n1_Lw=="; kb_size := 1; timestamp := 200000000;
        checksum := "c" |};
     {| result_path := "/b/backup_100_n1_Lw=="; kb_size := 1; timestamp := 100000000;
        checksum := "c" |}] /\
  fs st' !! "/b/backup_200_n1_Lw==.SAME" = None.
Proof.
  intros st.
  apply (reap_same_copies_newest (env_at 200000000) ("n1", "/")
           {| write_file_path := "/b/backup_200_n1_Lw=="; process := 0 |} st
           {| result_path := "/b/backup_100_n1_Lw=="; kb_size := 1; timestamp := 100000000;
              checksum := "c" |} []).
  - vm_compute. reflexivity.
  - vm_compute. eauto.
  - reflexivity.
Defined.

(** ** The queue *)

Lemma preserves_dispatch_running_tasks (P : State -> Prop) (E : Env) :
  ignores_fs P -> ignores_ticks P -> ignores_schedule P -> ignores_database P ->
  (forall st v, P st -> P (set_running_tasks v st)) ->
  preserves P (_dispatch_running_tasks E).
Proof.
  intros Hfs Hticks Hsched Hdb Hrun. unfold _dispatch_running_tasks.
  apply preserves_bind; [apply preserves_gets|]. intros running.
  apply preserves_bind.
  - apply preserves_fold_m. intros acc entry.
    apply preserves_bind; [apply preserves_is_running|]. intros alive.
    destruct (negb alive); [|apply preserves_ret].
    apply preserves_bind; [now apply preserves_reap|]. intros _. apply preserves_ret.
  - intros acc. apply preserves_modify. intros st H. now apply Hrun.
Qed.

Lemma launch_queue_NoDup (E : Env) :
  preserves (fun s => NoDup (task_queue s)) (launch E).
Proof.
  intros st H.
  destruct (launch_cases E st) as [[e ->]|(q & name & path & cs & Hpop & Hl)]; [exact H|].
  apply pop_right_spec in Hpop. rewrite Hpop in H. apply NoDup_app in H as (Hq & _).
  destruct Hl as [[e ->]|[[e ->]|(address & encoded & _ & _ & ->)]]; exact Hq.
Qed.

Lemma run_new_tasks_queue_NoDup (E : Env) :
  preserves (fun s => NoDup (task_queue s)) (_run_new_tasks E).
Proof.
  set (P := fun s : State => NoDup (task_queue s)).
  unfold _run_new_tasks.
  apply preserves_bind; [apply preserves_gets|]. intros sched.
  apply preserves_for_each. intros sched_task.
  apply preserves_bind; [apply preserves_gets|]. intros running.
  destruct (dict_mem (node_name sched_task, node_path sched_task) running);
    [apply preserves_ret|].
  apply preserves_bind.
  { unfold should_run_now. destruct (last_backup sched_task); [|apply preserves_ret].
    apply preserves_bind; [apply preserves_datetime_now; intros s v H; exact H|].
    intros now. apply preserves_ret. }
  intros due s Hs. unfold bind at 1. unfold gets at 1.
  set (triple := (node_name sched_task, node_path sched_task, last_checksum sched_task)).
  assert (Hrest : preserves P
            (number_of_running_tasks <- gets (fun st => Z.of_nat (length (running_tasks st))) ;;
             rounds <- gets (fun st =>
                         Z.min (max_processes st - number_of_running_tasks)
                               (Z.of_nat (length (task_queue st)))) ;;
             for_each (seq 0 (Z.to_nat rounds)) (fun _ => launch E))).
  { apply preserves_bind; [apply preserves_gets|]. intros n.
    apply preserves_bind; [apply preserves_gets|]. intros rounds.
    apply preserves_for_each. intros _. apply launch_queue_NoDup. }
  unfold bind at 1.
  destruct (decide (triple ∈ task_queue s)) as [Hin|Hin].
  - rewrite bool_decide_eq_true_2 by exact Hin. rewrite andb_false_r. cbn [when ret].
    now apply Hrest.
  - rewrite bool_decide_eq_false_2 by exact Hin. rewrite andb_true_r.
    destruct due; cbn [when ret modify]; apply Hrest; [|exact Hs].
    unfold P. cbn [task_queue set_task_queue]. apply NoDup_cons. now split.
Qed.

(** X20: the queue never holds the same (node, path, checksum) triple
    twice: this holds in every state the scheduler reaches from its initial
    state, whatever the control commands do to the store. *)
Theorem task_queue_has_no_duplicates (E : Env) (st0 st : State) :
  initial st0 ->
  reachable E st0 st ->
  NoDup (task_queue st).
Proof.
  intros (dir & db & bound & files & ->) Hreach.
  induction Hreach as [|st st' Hreach IH Hstep]; [apply NoDup_nil_2|].
  destruct Hstep as [st|st request|st|st|st st' Henv].
  - apply (preserves_startup (fun s => NoDup (task_queue s))); [| |exact IH];
      intros s v Hs; exact Hs.
  - apply (preserves_handle_client_request (fun s => NoDup (task_queue s)));
      [| | | |exact IH]; intros s v Hs; exact Hs.
  - apply (preserves_dispatch_running_tasks (fun s => NoDup (task_queue s)));
      [| | | | |exact IH]; intros s v Hs; exact Hs.
  - now apply run_new_tasks_queue_NoDup.
  - destruct Henv as [st files' live _]. exact IH.
Qed.

Lemma task_queue_has_no_duplicates_witness : NoDup (task_queue st_c2).
Proof.
  apply (task_queue_has_no_duplicates env_forget st_c0 st_c2).
  - exists "/b", db_three, 2, ∅. reflexivity.
  - apply iteration_reachable. eapply reach_step; [apply reach_init|apply step_startup].
Defined.

(** ** Further properties of [_run_new_tasks] *)

(** X21: when every slot is taken, [_run_new_tasks] returns without
    starting a worker: the running tasks and the processes are what they
    were, and the queue can only have grown at its left end. *)
Theorem run_new_tasks_without_free_slot (E : Env) (st : State) :
  max_processes st <= Z.of_nat (length (running_tasks st)) ->
  let st' := snd (_run_new_tasks E st) in
  fst (_run_new_tasks E st) = Return tt /\
  running_tasks st' = running_tasks st /\
  procs st' = procs st /\
  exists added, task_queue st' = (added ++ task_queue st)%list.
Proof.
  intros Hfull st'. subst st'.
  set (r0 := running_tasks st). set (p0 := procs st). set (q0 := task_queue st).
  set (I := fun s : State =>
              running_tasks s = r0 /\ procs s = p0 /\ max_processes s = max_processes st /\
              exists added, task_queue s = (added ++ q0)%list).
  cut (match _run_new_tasks E st with
       | (Return _, s) => I s
       | (Raise _, s) => False
       end).
  { destruct (_run_new_tasks E st) as [[[]|e] s]; [|contradiction].
    intros (H1 & H2 & _ & H3). cbn. auto. }
  assert (H0 : I st) by (repeat split; now exists []).
  cut (hoare I (_run_new_tasks E) (fun _ => I) (fun _ => False)).
  { intros Hh. exact (Hh st H0). }
  clear H0. unfold _run_new_tasks.
  apply hoare_bind with (Q := fun _ => I).
  { intros s H. exact H. }
  intros sched. apply hoare_for_each. intros sched_task _ s Hs.
  unfold bind at 1. unfold gets at 1.
  destruct (dict_mem (node_name sched_task, node_path sched_task) (running_tasks s));
    [exact Hs|].
  unfold bind at 1.
  assert (Hdue : exists due s1, should_run_now E sched_task s = (Return due, s1) /\ I s1).
  { unfold should_run_now. destruct (last_backup sched_task).
    - eexists. eexists. split; [reflexivity|]. exact Hs.
    - eexists. eexists. split; [reflexivity|]. exact Hs. }
  destruct Hdue as (due & s1 & -> & Hs1).
  unfold bind at 1. unfold gets at 1. unfold bind at 1.
  set (b := due && _).
  assert (Hs2 : exists s2, when b (modify (fun st0 =>
                  set_task_queue ((node_name sched_task, node_path sched_task,
                                   last_checksum sched_task) :: task_queue st0) st0)) s1
                = (Return tt, s2) /\ I s2).
  { destruct b; cbn [when modify ret]; eexists; (split; [reflexivity|]); [|exact Hs1].
    destruct Hs1 as (H1 & H2 & H3 & added & H4). repeat split; auto.
    cbn [task_queue set_task_queue]. rewrite H4.
    now exists ((node_name sched_task, node_path sched_task, last_checksum sched_task) :: added). }
  destruct Hs2 as (s2 & -> & Hs2).
  unfold bind at 1. unfold gets at 1. unfold bind at 1. unfold gets at 1.
  destruct Hs2 as (H1 & H2 & H3 & H4).
  replace (Z.to_nat _) with 0%nat.
  - cbn [seq for_each ret]. repeat split; auto.
  - rewrite H1, H3. subst r0. lia.
Qed.

Lemma run_new_tasks_without_free_slot_witness :
  fst (_run_new_tasks (env_at 0) st_full) = Return tt /\
  running_tasks (snd (_run_new_tasks (env_at 0) st_full)) = running_tasks st_full.
Proof.
  destruct (run_new_tasks_without_free_slot (env_at 0) st_full) as (H1 & H2 & _).
  - vm_compute. discriminate.
  - split; [exact H1|exact H2].
Defined.

(** X22: a dispatch that cannot find the address of the node, or whose
    node path is not ASCII, raises after it has taken the triple from the
    queue: the triple is lost, no worker is started and no running task is
    recorded. *)
Theorem launch_failure_loses_the_triple (E : Env) (st : State)
    (q : list (string * string * string)) (name path cs : string) :
  pop_right (task_queue st) = Some (q, (name, path, cs)) ->
  get_node_address (database st) name = None \/ safe_base64 path = None ->
  let st' := snd (launch E st) in
  (exists e, fst (launch E st) = Raise e) /\
  task_queue st' = q /\ running_tasks st' = running_tasks st /\ procs st' = procs st.
Proof.
  intros Hpop Hbad st'. subst st'.
  unfold launch, bind, queue_pop, node_address_of, gets, datetime_now, fmt, start_process,
    modify, ret.
  rewrite Hpop. cbn -[py_format utc_timestamp safe_base64].
  destruct (get_node_address (database st) name) as [address|] eqn:Ha.
  - destruct Hbad as [Hbad|Hbad]; [discriminate|]. rewrite Hbad.
    cbn. repeat split. eauto.
  - cbn. repeat split. eauto.
Qed.

Lemma launch_failure_loses_the_triple_witness :
  (exists e, fst (launch (env_at 0) st_non_ascii) = Raise e) /\
  task_queue (snd (launch (env_at 0) st_non_ascii)) = [("n1", "/", "")].
Proof.
  destruct (launch_failure_loses_the_triple (env_at 0) st_non_ascii
              [("n1", "/", "")] "n1" (String (ascii_of_N 233) "") "") as (H1 & H2 & _).
  - reflexivity.
  - right. reflexivity.
  - split; [exact H1|exact H2].
Defined.

(** X23: a scheduled task whose (node, path) is running is passed over:
    when that holds for every task of the schedule, [_run_new_tasks] returns
    and changes nothing, not even the clock is read. *)
Theorem run_new_tasks_skips_running (E : Env) (st : State) :
  (forall s, s ∈ schedule st -> (node_name s, node_path s) ∈ (running_tasks st).*1) ->
  _run_new_tasks E st = (Return tt, st).
Proof.
  intros Hall. unfold _run_new_tasks. unfold bind at 1. unfold gets at 1.
  induction (schedule st) as [|s sched IH]; [reflexivity|].
  cbn [for_each]. unfold bind at 1. unfold bind at 1. unfold gets at 1.
  unfold dict_mem. rewrite bool_decide_eq_true_2 by (apply Hall; left).
  cbn [ret]. apply IH. intros s' Hs'. apply Hall. now right.
Qed.

Lemma run_new_tasks_skips_running_witness :
  _run_new_tasks (env_at 0) st_fresh = (Return tt, st_fresh).
Proof.
  apply (run_new_tasks_skips_running (env_at 0) st_fresh).
  intros s Hs. vm_compute in Hs. apply list_elem_of_singleton in Hs as ->.
  vm_compute. left.
Defined.

(** X24: a dispatch takes the triple at the right end of the queue, the
    one queued first, and hands the worker the address and the port the
    store has for the node, the node path, and the checksum of the triple as
    previous checksum; the process is new and the clock is read once. *)
Theorem launch_hands_over_the_oldest (E : Env) (st : State)
    (newer : list (string * string * string)) (name path cs : string)
    (address : string * Z) (encoded : string) :
  task_queue st = (newer ++ [(name, path, cs)])%list ->
  get_node_address (database st) name = Some address ->
  safe_base64 path = Some encoded ->
  let st' := snd (launch E st) in
  task_queue st' = newer /\
  next_pid st' = S (next_pid st) /\
  ticks st' = S (ticks st) /\
  exists handler,
    procs st' !! next_pid st = Some ((name, path), handler) /\
    NodeHandlerProcess.node_address handler = fst address /\
    NodeHandlerProcess.node_port handler = snd address /\
    NodeHandlerProcess.node_path handler = path /\
    NodeHandlerProcess.previous_checksum handler = cs.
Proof.
  intros Hq Haddr Henc st'. subst st'.
  apply pop_right_spec in Hq.
  rewrite (launch_eq E st newer name path cs address encoded Hq Haddr Henc).
  cbn [snd task_queue next_pid ticks procs]. repeat split.
  eexists. split; [apply lookup_insert_eq|]. repeat split.
Qed.

Lemma launch_hands_over_the_oldest_witness :
  task_queue (snd (launch (env_at 0)
                     (set_task_queue [("n1", "/c", ""); ("n1", "/b", "")] st_c1)))
  = [("n1", "/c", "")].
Proof.
  destruct (launch_hands_over_the_oldest (env_at 0)
              (set_task_queue [("n1", "/c", ""); ("n1", "/b", "")] st_c1)
              [("n1", "/c", "")] "n1" "/b" "" ("127.0.0.1", 1234) "L2I=") as (H & _).
  - reflexivity.
  - reflexivity.
  - reflexivity.
  - exact H.
Defined.

(** ** The handler of the fatal failures *)

Lemma abort_loop (l : list (node_data * RunningTask)) (st : State) :
  for_each l (fun entry =>
    alive <- is_running (snd entry) ;;
    when alive (raise (AttributeError "'Process' object has no attribute 'termitate'"))) st
  = (if bool_decide (Exists (fun entry => is_Some (procs st !! process (snd entry))) l)
     then Raise (AttributeError "'Process' object has no attribute 'termitate'")
     else Return tt, st).
Proof.
  induction l as [|entry l IH]; cbn [for_each].
  - rewrite bool_decide_eq_false_2; [reflexivity|]. intros H. inversion H.
  - unfold bind at 1. unfold bind at 1. unfold is_running at 1. unfold gets at 1.
    destruct (decide (is_Some (procs st !! process (snd entry)))) as [Ha|Ha].
    + rewrite (bool_decide_eq_true_2 _ Ha). cbn [when raise].
      rewrite bool_decide_eq_true_2; [reflexivity|]. now left.
    + rewrite (bool_decide_eq_false_2 _ Ha). cbn [when ret]. rewrite IH.
      destruct (decide (Exists (fun entry => is_Some (procs st !! process (snd entry))) l))
        as [He|He].
      * rewrite !bool_decide_eq_true_2; [reflexivity|now right|exact He].
      * rewrite !bool_decide_eq_false_2; [reflexivity| |exact He].
        intros H. apply Exists_cons in H as [H|H]; contradiction.
Qed.

(** X25: the handler of the outer [except] of [__call__] terminates no
    worker.  When the process of some running task is alive, the handler
    itself raises [AttributeError] (the call of [termitate]); otherwise it
    returns.  In both cases the data of the scheduler are what they were
    (the reply pipe, which the handler closes first, is not part of the
    state). *)
Theorem abort_terminates_nothing (st : State) :
  abort st
  = (if bool_decide (Exists (fun entry => is_Some (procs st !! process (snd entry)))
                            (running_tasks st))
     then Raise (AttributeError "'Process' object has no attribute 'termitate'")
     else Return tt, st).
Proof. unfold abort. unfold bind at 1. unfold gets at 1. apply abort_loop. Qed.

(** ** Further properties of the worker *)

Section Worker.
Import NodeHandlerProcess.
Local Open Scope worker_scope.

Variable get_hash : string -> string.
Variable self : NodeHandlerProcess.t.

Lemma bind_return {A B} (m : W A) (k : A -> W B) (w w' : world) (a : A) :
  m w = Some (Return a, w') -> bind m k w = k a w'.
Proof. intros H. unfold bind. now rewrite H. Qed.

Lemma bind_raise {A B} (m : W A) (k : A -> W B) (w w' : world) (e : exn) :
  m w = Some (Raise e, w') -> bind m k w = Some (Raise e, w').
Proof. intros H. unfold bind. now rewrite H. Qed.

Lemma try_outcome {A} (m : W A) (w w' : world) (r : outcome A) :
  m w = Some (r, w') -> try m w = Some (Return r, w').
Proof. intros H. unfold try. now rewrite H. Qed.

(** The connection is made and the request sent. *)
Lemma connect_and_send (reads : list recv_result) (files0 : gmap string string) :
  try (connect ;;
       sendall (Json (PDict [("checksum", PStr (previous_checksum self));
                             ("path", PStr (node_path self))])))
      {| sock := connection reads; files := files0 |}
  = Some (Return (Return tt),
          {| sock := {| connect_error := None; send_errors := [];
                        incoming := reads; outgoing := [backup_request self] |};
             files := files0 |}).
Proof. reflexivity. Qed.

Lemma recv_data (bufsize : nat) (b : string) (rest : list recv_result)
    (errors : list (option string)) (out : list message) (files0 : gmap string string) :
  (String.length b <= bufsize)%nat ->
  recv bufsize {| sock := {| connect_error := None; send_errors := errors;
                             incoming := Data b :: rest; outgoing := out |};
                  files := files0 |}
  = Some (Return b, {| sock := {| connect_error := None; send_errors := errors;
                                  incoming := rest; outgoing := out |};
                       files := files0 |}).
Proof.
  intros H. apply Nat.leb_le in H. unfold recv. cbn [sock incoming]. now rewrite H.
Qed.

(** X26: when the node agent answers [SAME], the worker creates the
    empty [.SAME] sentinel and returns: it writes no other file, sends nothing
    but its request and reads nothing more. *)
Theorem worker_same_reply (fuel : nat) (files0 : gmap string string)
    (rest : list recv_result) :
  __call__ get_hash fuel self
    {| sock := connection (Data "SAME" :: rest); files := files0 |}
  = Some (Return tt,
          {| sock := {| connect_error := None; send_errors := [];
                        incoming := rest; outgoing := [backup_request self] |};
             files := <[write_file_path self ++ ".SAME" := ""]> files0 |}).
Proof.
  unfold __call__. rewrite (bind_return _ _ _ _ _ (connect_and_send _ _)).
  rewrite (bind_return _ _ _ _ _ (recv_data 1024 "SAME" rest [] _ files0 ltac:(simpl; lia))).
  unfold bind at 1. unfold lift at 1. change (decode_utf8 "SAME") with (@Return string "SAME").
  change ("SAME" =? "SAME") with true. cbv iota.
  unfold bind, fmt. rewrite format_same. reflexivity.
Qed.

(** The worker up to the transfer: the reply is not [SAME], the [.WIP]
    sentinel is created and the artifact opened for appending. *)
Lemma worker_download (fuel : nat) (files0 : gmap string string) (reply : string)
    (rest : list recv_result) :
  (String.length reply <= 1024)%nat ->
  decode_utf8 reply = Return reply ->
  reply <> "SAME" ->
  __call__ get_hash fuel self
    {| sock := connection (Data reply :: rest); files := files0 |}
  = (received <- try (_receive_file_in fuel (write_file_path self) ;;
                      sendall (Bytes "OK") ;;
                      c <- recv (Z.to_nat DEFAULT_SOCKET_BUFFER_SIZE) ;;
                      ret (rstrip c)) ;;
     match received with
     | Raise e => if is_OSError e then ret tt else raise e
     | Return checksum =>
         content <- read (write_file_path self) ;;
         server <- lift (decode_utf8 checksum) ;;
         correct <- fmt CORRECT_FILE_FORMAT [VStr (write_file_path self)] ;;
         touch correct ;;
         wip' <- fmt WIP_FILE_FORMAT [VStr (write_file_path self)] ;;
         remove wip'
     end)
      {| sock := {| connect_error := None; send_errors := [];
                    incoming := rest; outgoing := [backup_request self] |};
         files := <[write_file_path self :=
                      default "" (files0 !! write_file_path self)]>
                    (<[write_file_path self ++ ".WIP" := ""]> files0) |}.
Proof.
  intros Hlen Hdec Hne. apply String.eqb_neq in Hne.
  unfold __call__. rewrite (bind_return _ _ _ _ _ (connect_and_send _ _)).
  rewrite (bind_return _ _ _ _ _ (recv_data 1024 reply rest [] _ files0 Hlen)).
  unfold bind at 1. unfold lift at 1. rewrite Hdec, Hne.
  unfold bind at 1. unfold fmt at 1. rewrite format_wip. unfold ret at 1.
  unfold bind at 1. unfold touch at 1. cbn [files set_files sock].
  unfold bind at 1. unfold open_append at 1. cbn [files set_files sock].
  assert (Hw : write_file_path self <> write_file_path self ++ ".WIP").
  { intros H. symmetry in H. revert H. apply append_neq_self. discriminate. }
  rewrite lookup_insert_ne by congruence.
  destruct (files0 !! write_file_path self) as [old|] eqn:Hold; cbn [default].
  - rewrite (insert_id (<[_ := ""]> files0) (write_file_path self) old); [reflexivity|].
    now rewrite lookup_insert_ne by congruence.
  - reflexivity.
Qed.


(** X27: when the connection cannot be made, or the request cannot be
    sent, the worker returns at once: it writes no file and sends nothing,
    so that the scheduler finds no sentinel. *)
Theorem worker_without_connection (fuel : nat) (w : world) :
  is_Some (connect_error (sock w)) \/
  (exists msg rest, send_errors (sock w) = Some msg :: rest) ->
  exists w', __call__ get_hash fuel self w = Some (Return tt, w') /\
             files w' = files w /\
             outgoing (sock w') = outgoing (sock w) /\
             observed self w' = observed self w.
Proof.
  intros H. unfold __call__, bind, try, connect.
  destruct (connect_error (sock w)) as [msg|] eqn:Hc.
  - exists w. repeat split.
  - destruct H as [[? H]|(msg & rest & H)]; [discriminate|].
    unfold sendall. rewrite H. cbn [is_OSError ret]. eexists. split; [reflexivity|].
    repeat split.
Qed.


Lemma receive_loop_consumes (file : string) (chunks : list string) :
  forall (file_size : Z) (fuel : nat) (old : string) (files0 : gmap string string)
         (tail : list recv_result) (out : list message),
  consumes file_size chunks = true ->
  Forall (fun c => (String.length c <= Z.to_nat DEFAULT_SOCKET_BUFFER_SIZE)%nat) chunks ->
  (length chunks <= fuel)%nat ->
  files0 !! file = Some old ->
  receive_loop fuel file file_size
    {| sock := {| connect_error := None; send_errors := [];
                  incoming := (map Data chunks ++ tail)%list; outgoing := out |};
       files := files0 |}
  = Some (Return tt,
          {| sock := {| connect_error := None; send_errors := [];
                        incoming := tail; outgoing := out |};
             files := <[file := old ++ foldr String.append "" chunks]> files0 |}).
Proof.
  induction chunks as [|c chunks IH]; intros file_size fuel old files0 tail out Hc Hlen Hfuel Hold.
  - cbn [consumes] in Hc. apply Z.leb_le in Hc.
    assert (Hgt : (file_size >? 0) = false) by (rewrite Z.gtb_ltb; apply Z.ltb_ge; exact Hc).
    cbn [foldr map app]. rewrite append_empty_r, (insert_id _ _ _ Hold).
    destruct fuel; cbn [receive_loop]; now rewrite Hgt.
  - cbn [consumes] in Hc. apply andb_true_iff in Hc as [Hpos Hc]. apply Z.ltb_lt in Hpos.
    assert (Hgt : (file_size >? 0) = true) by (rewrite Z.gtb_ltb; apply Z.ltb_lt; exact Hpos).
    apply Forall_cons in Hlen as [Hlc Hlen].
    destruct fuel as [|fuel]; [cbn in Hfuel; lia|]. cbn [length] in Hfuel.
    cbn [receive_loop]. rewrite Hgt. cbn [map app].
    erewrite bind_return; [|now apply recv_data].
    unfold bind at 1. unfold write at 1. cbn [files set_files sock]. rewrite Hold.
    cbn [default id]. unfold set_files. cbn [sock files].
    rewrite (IH _ fuel (old ++ c)); [|exact Hc|exact Hlen|lia|apply lookup_insert_eq].
    cbn [foldr]. now rewrite insert_insert_eq, append_assoc.
Qed.

Lemma receive_loop_error (file : string) (chunks : list string) :
  forall (file_size : Z) (fuel : nat) (old msg : string) (files0 : gmap string string)
         (tail : list recv_result) (out : list message),
  Z.of_nat (total_length chunks) < file_size ->
  Forall (fun c => (String.length c <= Z.to_nat DEFAULT_SOCKET_BUFFER_SIZE)%nat) chunks ->
  (length chunks < fuel)%nat ->
  files0 !! file = Some old ->
  receive_loop fuel file file_size
    {| sock := {| connect_error := None; send_errors := [];
                  incoming := (map Data chunks ++ RecvError msg :: tail)%list;
                  outgoing := out |};
       files := files0 |}
  = Some (Raise (OSError msg),
          {| sock := {| connect_error := None; send_errors := [];
                        incoming := tail; outgoing := out |};
             files := <[file := old ++ foldr String.append "" chunks]> files0 |}).
Proof.
  induction chunks as [|c chunks IH];
    intros file_size fuel old msg files0 tail out Hsize Hlen Hfuel Hold.
  - cbn [total_length foldr] in Hsize.
    assert (Hgt : (file_size >? 0) = true) by (rewrite Z.gtb_ltb; apply Z.ltb_lt; lia).
    destruct fuel as [|fuel]; [cbn in Hfuel; lia|].
    cbn [receive_loop]. rewrite Hgt. cbn [foldr map app].
    rewrite append_empty_r, (insert_id _ _ _ Hold). reflexivity.
  - cbn [total_length foldr] in Hsize. fold (total_length chunks) in Hsize.
    assert (Hgt : (file_size >? 0) = true) by (rewrite Z.gtb_ltb; apply Z.ltb_lt; lia).
    apply Forall_cons in Hlen as [Hlc Hlen].
    destruct fuel as [|fuel]; [cbn in Hfuel; lia|]. cbn [length] in Hfuel.
    cbn [receive_loop]. rewrite Hgt. cbn [map app].
    erewrite bind_return; [|now apply recv_data].
    unfold bind at 1. unfold write at 1. cbn [files set_files sock]. rewrite Hold.
    cbn [default id]. unfold set_files. cbn [sock files].
    rewrite (IH _ fuel (old ++ c)); [|lia|exact Hlen|lia|apply lookup_insert_eq].
    cbn [foldr]. now rewrite insert_insert_eq, append_assoc.
Qed.


Lemma sendall_ok (m : message) (reads : list recv_result) (out : list message)
    (files0 : gmap string string) :
  sendall m {| sock := {| connect_error := None; send_errors := [];
                          incoming := reads; outgoing := out |};
               files := files0 |}
  = Some (Return tt, {| sock := {| connect_error := None; send_errors := [];
                                   incoming := reads; outgoing := (out ++ [m])%list |};
                        files := files0 |}).
Proof. reflexivity. Qed.

Lemma wip_neq_path : write_file_path self ++ ".WIP" <> write_file_path self.
Proof. apply append_neq_self. discriminate. Qed.

Lemma correct_neq_wip : write_file_path self ++ ".CORRECT" <> write_file_path self ++ ".WIP".
Proof. intros H. apply String.app_inj in H. discriminate. Qed.

(** X29: a download that is served ends with [.CORRECT].  The node agent
    answers (not [SAME]), announces a size, delivers reads that the loop takes
    until the size is covered, and sends a checksum; with enough iterations
    allowed the worker returns.  The artifact then holds what it held before
    (the file is opened for appending) followed by the reads in order, the
    [.CORRECT] sentinel exists, the [.WIP] sentinel is gone, and the worker
    has sent its request and two acknowledgements.  This holds whatever the
    hash of the artifact is: a checksum that does not match changes
    nothing. *)
Theorem worker_download_served (fuel : nat) (files0 : gmap string string)
    (reply size_msg checksum : string) (file_size : Z) (chunks : list string)
    (rest : list recv_result) :
  (String.length reply <= 1024)%nat ->
  decode_utf8 reply = Return reply ->
  reply <> "SAME" ->
  (String.length size_msg <= 1024)%nat ->
  py_int size_msg = Some file_size ->
  Forall (fun c => (String.length c <= Z.to_nat DEFAULT_SOCKET_BUFFER_SIZE)%nat) chunks ->
  consumes file_size chunks = true ->
  (String.length checksum <= Z.to_nat DEFAULT_SOCKET_BUFFER_SIZE)%nat ->
  decode_utf8 (rstrip checksum) = Return (rstrip checksum) ->
  (length chunks <= fuel)%nat ->
  exists w',
    __call__ get_hash fuel self
      {| sock := connection (Data reply :: Data size_msg
                             :: map Data chunks ++ Data checksum :: rest);
         files := files0 |}
    = Some (Return tt, w') /\
    files w' !! write_file_path self
    = Some (default "" (files0 !! write_file_path self) ++ foldr String.append "" chunks) /\
    files w' !! (write_file_path self ++ ".CORRECT") = Some "" /\
    files w' !! (write_file_path self ++ ".WIP") = None /\
    outgoing (sock w') = [backup_request self; Bytes "OK"; Bytes "OK"] /\
    incoming (sock w') = rest.
Proof.
  intros Hlen Hdec Hne Hsize Hint Hchunks Hcons Hck Hckdec Hfuel.
  rewrite (worker_download fuel files0 reply _ Hlen Hdec Hne).
  set (old := default "" (files0 !! write_file_path self)).
  set (files2 := <[write_file_path self := old]>
                   (<[write_file_path self ++ ".WIP" := ""]> files0)).
  erewrite bind_return; cycle 1.
  { apply try_outcome.
    erewrite bind_return; cycle 1.
    { unfold _receive_file_in.
      erewrite bind_return; [|now apply recv_data]. rewrite Hint.
      unfold bind at 1. unfold ret at 1.
      erewrite bind_return; [|apply sendall_ok].
      apply (receive_loop_consumes (write_file_path self) chunks file_size fuel old files2);
        try assumption.
      subst files2. apply lookup_insert_eq. }
    erewrite bind_return; [|apply sendall_ok].
    erewrite bind_return; [|now apply recv_data]. reflexivity. }
  cbv beta iota.
  erewrite bind_return; cycle 1.
  { unfold read. cbn [files]. rewrite lookup_insert_eq. reflexivity. }
  unfold bind at 1. unfold lift at 1. rewrite Hckdec.
  unfold bind at 1. unfold fmt at 1. rewrite format_correct. unfold ret at 1.
  unfold bind at 1. unfold touch at 1. unfold set_files. cbn [sock files].
  unfold bind at 1. unfold fmt at 1. rewrite format_wip. unfold ret at 1.
  unfold remove. cbn [files sock].
  pose proof wip_neq_path as H1. pose proof correct_neq_wip as H2.
  assert (H3 : write_file_path self ++ ".CORRECT" <> write_file_path self)
    by (apply append_neq_self; discriminate).
  assert (Hwip : <[write_file_path self ++ ".CORRECT" := ""]>
                   (<[write_file_path self := old ++ foldr String.append "" chunks]> files2)
                 !! (write_file_path self ++ ".WIP") = Some "").
  { subst files2. rewrite !lookup_insert_ne by congruence. apply lookup_insert_eq. }
  rewrite Hwip. unfold set_files. cbn [sock files].
  eexists. split; [reflexivity|]. cbn [files sock outgoing incoming app].
  repeat split.
  - rewrite lookup_delete_ne, lookup_insert_ne by congruence. apply lookup_insert_eq.
  - rewrite lookup_delete_ne by congruence. apply lookup_insert_eq.
  - apply lookup_delete_eq.
Qed.

(** X30: an [OSError] while the payload is read ends the worker quietly:
    it returns, the artifact holds the reads that arrived, the [.WIP]
    sentinel stays and no [.CORRECT] sentinel is created. *)
Theorem worker_read_error (fuel : nat) (files0 : gmap string string)
    (reply size_msg msg : string) (file_size : Z) (chunks : list string)
    (rest : list recv_result) :
  (String.length reply <= 1024)%nat ->
  decode_utf8 reply = Return reply ->
  reply <> "SAME" ->
  (String.length size_msg <= 1024)%nat ->
  py_int size_msg = Some file_size ->
  Forall (fun c => (String.length c <= Z.to_nat DEFAULT_SOCKET_BUFFER_SIZE)%nat) chunks ->
  Z.of_nat (total_length chunks) < file_size ->
  (length chunks < fuel)%nat ->
  exists w',
    __call__ get_hash fuel self
      {| sock := connection (Data reply :: Data size_msg
                             :: map Data chunks ++ RecvError msg :: rest);
         files := files0 |}
    = Some (Return tt, w') /\
    files w' !! write_file_path self
    = Some (default "" (files0 !! write_file_path self) ++ foldr String.append "" chunks) /\
    files w' !! (write_file_path self ++ ".WIP") = Some "" /\
    files w' !! (write_file_path self ++ ".CORRECT")
    = files0 !! (write_file_path self ++ ".CORRECT").
Proof.
  intros Hlen Hdec Hne Hsize Hint Hchunks Hshort Hfuel.
  rewrite (worker_download fuel files0 reply _ Hlen Hdec Hne).
  set (old := default "" (files0 !! write_file_path self)).
  set (files2 := <[write_file_path self := old]>
                   (<[write_file_path self ++ ".WIP" := ""]> files0)).
  erewrite bind_return; cycle 1.
  { apply try_outcome. apply bind_raise. unfold _receive_file_in.
    erewrite bind_return; [|now apply recv_data]. rewrite Hint.
    unfold bind at 1. unfold ret at 1.
    erewrite bind_return; [|apply sendall_ok].
    apply (receive_loop_error (write_file_path self) chunks file_size fuel old msg files2);
      try assumption.
    subst files2. apply lookup_insert_eq. }
  cbv beta iota. cbn [is_OSError]. unfold ret.
  eexists. split; [reflexivity|]. cbn [files].
  pose proof wip_neq_path as H1. pose proof correct_neq_wip as H2.
  assert (H3 : write_file_path self ++ ".CORRECT" <> write_file_path self)
    by (apply append_neq_self; discriminate).
  subst files2. repeat split.
  - apply lookup_insert_eq.
  - rewrite !lookup_insert_ne by congruence. apply lookup_insert_eq.
  - now rewrite !lookup_insert_ne by congruence.
Qed.

End Worker.

Lemma worker_without_connection_witness :
  exists w',
    NodeHandlerProcess.__call__ (fun c => c) 0 test_handler
      {| NodeHandlerProcess.sock :=
           {| NodeHandlerProcess.connect_error := Some "Connection refused";
              NodeHandlerProcess.send_errors := [];
              NodeHandlerProcess.incoming := [];
              NodeHandlerProcess.outgoing := [] |};
         NodeHandlerProcess.files := ∅ |}
    = Some (Return tt, w') /\ NodeHandlerProcess.files w' = ∅.
Proof.
  destruct (worker_without_connection (fun c => c) test_handler 0
              {| NodeHandlerProcess.sock :=
                   {| NodeHandlerProcess.connect_error := Some "Connection refused";
                      NodeHandlerProcess.send_errors := [];
                      NodeHandlerProcess.incoming := [];
                      NodeHandlerProcess.outgoing := [] |};
                 NodeHandlerProcess.files := ∅ |}) as (w' & H1 & H2 & _).
  - left. cbn. eauto.
  - exists w'. split; [exact H1|exact H2].
Defined.


Lemma worker_download_served_witness :
  exists w',
    NodeHandlerProcess.__call__ (fun c => c) 2 test_handler
      {| NodeHandlerProcess.sock :=
           connection [NodeHandlerProcess.Data "DIFF"; NodeHandlerProcess.Data "10";
                       NodeHandlerProcess.Data "abcd"; NodeHandlerProcess.Data "efghij";
                       NodeHandlerProcess.Data "0123456789abcdef"];
         NodeHandlerProcess.files := ∅ |}
    = Some (Return tt, w') /\
    NodeHandlerProcess.files w' !! "/tmp/backup_output/out" = Some "abcdefghij" /\
    NodeHandlerProcess.files w' !! "/tmp/backup_output/out.CORRECT" = Some "".
Proof.
  destruct (worker_download_served (fun c => c) test_handler 2 ∅ "DIFF" "10"
              "0123456789abcdef" 10 ["abcd"; "efghij"] [])
    as (w' & H1 & H2 & H3 & _).
  - simpl. lia.
  - reflexivity.
  - discriminate.
  - simpl. lia.
  - reflexivity.
  - repeat (apply Forall_cons; split; [apply Nat.leb_le; reflexivity|]). apply Forall_nil_2.
  - reflexivity.
  - vm_compute. lia.
  - reflexivity.
  - simpl. lia.
  - exists w'. split; [exact H1|]. split; [exact H2|exact H3].
Defined.

Lemma worker_read_error_witness :
  exists w',
    NodeHandlerProcess.__call__ (fun c => c) 2 test_handler
      {| NodeHandlerProcess.sock :=
           connection [NodeHandlerProcess.Data "DIFF"; NodeHandlerProcess.Data "10";
                       NodeHandlerProcess.Data "abcd";
                       NodeHandlerProcess.RecvError "Connection reset by peer"];
         NodeHandlerProcess.files := ∅ |}
    = Some (Return tt, w') /\
    NodeHandlerProcess.files w' !! "/tmp/backup_output/out" = Some "abcd" /\
    NodeHandlerProcess.files w' !! "/tmp/backup_output/out.WIP" = Some "".
Proof.
  destruct (worker_read_error (fun c => c) test_handler 2 ∅ "DIFF" "10"
              "Connection reset by peer" 10 ["abcd"] [])
    as (w' & H1 & H2 & H3 & _).
  - simpl. lia.
  - reflexivity.
  - discriminate.
  - simpl. lia.
  - reflexivity.
  - repeat (apply Forall_cons; split; [apply Nat.leb_le; reflexivity|]). apply Forall_nil_2.
  - simpl. lia.
  - simpl. lia.
  - exists w'. split; [exact H1|]. split; [exact H2|exact H3].
Defined.
